(** * File-based route registration: a shallow embedding

    This development embeds the route walker ([registerRoutes] and
    [inspectRoutes] of [src/route-loader.js]) and the middleware catalog
    (class [MiddlewareLoader]) and proves properties of path construction,
    conflict detection, middleware resolution and error behaviour.

    Conventions of the embedding:
    - JavaScript strings are [string], the bytes of their UTF-8 form; the
      regular expressions of the source are written out as scanners over the
      characters.
    - [Map] objects keyed by strings whose iteration order is not observed
      ([routeRegistry], [fileRegistry]) are [gmap string string]; the
      middleware cache, whose key order is printed in an error message, is an
      insertion-ordered association list.
    - [throw] is the [Err] result; state mutated before a [throw] stays
      mutated, so every operation returns the state next to its result.
    - The host application is the list of the registration calls it received.
    - [String.prototype.localeCompare] belongs to the runtime and is a
      parameter of the development.
    - [console.warn] is recorded; [console.log] and [console.error] lines are
      informational and are not recorded.
    - Paths are POSIX paths.  The working directory is an absolute path;
      [path.resolve] drops empty, [.] and [..] segments; [path.join] adds the
      name of a directory entry to a resolved directory; [path.extname]
      looks at the last component. *)

From Stdlib Require Import Ascii String ZArith List Sorted Permutation.
From stdpp Require Import base tactics option list strings gmap sorting.

Local Open Scope string_scope.
Local Open Scope list_scope.

(** ** JavaScript values *)

(** The values a module can export.  Functions, objects and symbols are
    identified by a tag; arrays hold strings, as the declaration file types
    the [middlewares] export ([string[]]). *)
Inductive JsVal : Type :=
| JUndefined
| JNull
| JBool (b : bool)
| JNum (n : Z)
| JNaN
| JBigInt (n : Z)
| JStr (s : string)
| JSymbol (id : nat)
| JFunc (id : nat)
| JObj (id : nat)
| JArr (elems : list string).

#[global] Instance JsVal_eq_dec : EqDecision JsVal.
Proof. solve_decision. Defined.

(** ToBoolean *)
Definition truthy (v : JsVal) : bool :=
  match v with
  | JUndefined | JNull | JNaN => false
  | JBool b => b
  | JNum n => negb (n =? 0)%Z
  | JBigInt n => negb (n =? 0)%Z
  | JStr s => negb (String.eqb s EmptyString)
  | JSymbol _ | JFunc _ | JObj _ | JArr _ => true
  end.

(** The [typeof] operator *)
Definition typeof (v : JsVal) : string :=
  match v with
  | JUndefined => "undefined"
  | JNull => "object"
  | JBool _ => "boolean"
  | JNum _ | JNaN => "number"
  | JBigInt _ => "bigint"
  | JStr _ => "string"
  | JSymbol _ => "symbol"
  | JFunc _ => "function"
  | JObj _ | JArr _ => "object"
  end.


(** [a || b] *)
Definition js_or (a b : JsVal) : JsVal := if truthy a then a else b.

(** ** Strings and the regular expressions of the source *)

Module Str.

Definition is_slash (c : ascii) : bool := Ascii.eqb c "/".
Definition is_backslash (c : ascii) : bool := Ascii.eqb c "\".
Definition is_open (c : ascii) : bool := Ascii.eqb c "[".
Definition is_close (c : ascii) : bool := Ascii.eqb c "]".
Definition is_colon (c : ascii) : bool := Ascii.eqb c ":".
Definition is_dot (c : ascii) : bool := Ascii.eqb c ".".

(** The line terminators of one byte: LF and CR *)
Definition is_lf_or_cr (c : ascii) : bool :=
  let n := nat_of_ascii c in (n =? 10)%nat || (n =? 13)%nat.

(** Does a line terminator, one of the characters [.] does not match, start
    [s]?  They are LF, CR, U+2028 and U+2029; the last two are the bytes
    [E2 80 A8] and [E2 80 A9]. *)
Definition line_terminator_at (s : string) : bool :=
  match s with
  | EmptyString => false
  | String c rest =>
      is_lf_or_cr c ||
      match rest with
      | String c1 (String c2 _) =>
          (nat_of_ascii c =? 226)%nat && (nat_of_ascii c1 =? 128)%nat &&
          ((nat_of_ascii c2 =? 168)%nat || (nat_of_ascii c2 =? 169)%nat)
      | _ => false
      end
  end.

(** [\w]: letters, digits and the underscore *)
Definition is_word (c : ascii) : bool :=
  let n := nat_of_ascii c in
  ((65 <=? n) && (n <=? 90))%nat || ((97 <=? n) && (n <=? 122))%nat
  || ((48 <=? n) && (n <=? 57))%nat || (n =? 95)%nat.

Definition lower_ascii (c : ascii) : ascii :=
  let n := nat_of_ascii c in
  if ((65 <=? n) && (n <=? 90))%nat then ascii_of_nat (n + 32) else c.

Definition upper_ascii (c : ascii) : ascii :=
  let n := nat_of_ascii c in
  if ((97 <=? n) && (n <=? 122))%nat then ascii_of_nat (n - 32) else c.

Fixpoint map_chars (f : ascii -> ascii) (s : string) : string :=
  match s with
  | EmptyString => EmptyString
  | String c s' => String (f c) (map_chars f s')
  end.

Definition toLowerCase : string -> string := map_chars lower_ascii.
Definition toUpperCase : string -> string := map_chars upper_ascii.

(** Removal of the trailing run of slashes ([/\/+$/] in the source) *)
Fixpoint stripTrailingSlashes (s : string) : string :=
  match s with
  | EmptyString => EmptyString
  | String c s' =>
      let r := stripTrailingSlashes s' in
      if is_slash c && String.eqb r EmptyString then EmptyString else String c r
  end.

(** Is there a closing bracket before the next line terminator? *)
Fixpoint closes (s : string) : bool :=
  match s with
  | EmptyString => false
  | String c s' =>
      if is_close c then true
      else if line_terminator_at s then false
      else closes s'
  end.

Inductive BracketMode : Type :=
| Outside     (* looking for the next match *)
| FirstInside (* the first character of the group, taken whatever it is *)
| Inside.     (* later characters of the group, up to the first close *)

(** The replacement of every match of an opening bracket, a lazy group of
    one or more characters and a closing bracket by a colon and the group
    ([/\[(.+?)\]/g] in the source).  A match starts at an opening bracket
    whose next character is not a line terminator and which is closed later
    on the same line; the lazy group ends at the first closing bracket after
    its first character.  No byte of a character of several bytes is a
    bracket, so the brackets are found byte by byte. *)
Fixpoint replaceBracketsFrom (mode : BracketMode) (s : string) : string :=
  match s with
  | EmptyString => EmptyString
  | String c s' =>
      match mode with
      | Inside =>
          if is_close c then replaceBracketsFrom Outside s'
          else String c (replaceBracketsFrom Inside s')
      | FirstInside => String c (replaceBracketsFrom Inside s')
      | Outside =>
          if is_open c then
            match s' with
            | String c1 s'' =>
                if negb (line_terminator_at s') && closes s''
                then String ":" (replaceBracketsFrom FirstInside s')
                else String c (replaceBracketsFrom Outside s')
            | EmptyString => String c EmptyString
            end
          else String c (replaceBracketsFrom Outside s')
      end
  end.

Definition replaceBrackets : string -> string := replaceBracketsFrom Outside.

(** Every backslash becomes a slash. *)
Definition backslashToSlash : string -> string :=
  map_chars (fun c => if is_backslash c then "/"%char else c).

(** Every run of slashes becomes one slash ([/\/+/g] in the source). *)
Fixpoint collapseSlashes (s : string) : string :=
  match s with
  | EmptyString => EmptyString
  | String c s' =>
      if is_slash c then
        match s' with
        | String c1 _ =>
            if is_slash c1 then collapseSlashes s'
            else String c (collapseSlashes s')
        | EmptyString => String c EmptyString
        end
      else String c (collapseSlashes s')
  end.

(** Every colon followed by word characters becomes the marker [:param]
    ([/:\w+/g] in the source); [skipping] is set while the greedy run of
    word characters of the current match is being consumed. *)
Fixpoint normalizeDynamicFrom (skipping : bool) (s : string) : string :=
  match s with
  | EmptyString => EmptyString
  | String c s' =>
      if skipping && is_word c then normalizeDynamicFrom true s'
      else if is_colon c then
        match s' with
        | String c1 _ =>
            if is_word c1 then ":param" +:+ normalizeDynamicFrom true s'
            else String c (normalizeDynamicFrom false s')
        | EmptyString => String c EmptyString
        end
      else String c (normalizeDynamicFrom false s')
  end.

Definition normalizeDynamic : string -> string := normalizeDynamicFrom false.

Fixpoint startsWith (p s : string) : bool :=
  match p, s with
  | EmptyString, _ => true
  | String a p', String b s' => Ascii.eqb a b && startsWith p' s'
  | String _ _, EmptyString => false
  end.

(** [s.includes(needle)] *)
Fixpoint includes (needle s : string) : bool :=
  startsWith needle s ||
  match s with
  | EmptyString => false
  | String _ s' => includes needle s'
  end.

Fixpoint drop (n : nat) (s : string) : string :=
  match n, s with
  | O, _ => s
  | S n', String _ s' => drop n' s'
  | S _, EmptyString => EmptyString
  end.

(** Removal of the first occurrence of a literal pattern *)
Fixpoint removeFirst (needle s : string) : string :=
  if startsWith needle s then drop (String.length needle) s
  else match s with
       | EmptyString => EmptyString
       | String c s' => String c (removeFirst needle s')
       end.

(** Does [s] end in [.js] or [.ts]? *)
Fixpoint hasScriptSuffix (s : string) : bool :=
  String.eqb s ".js" || String.eqb s ".ts" ||
  match s with
  | EmptyString => false
  | String _ s' => hasScriptSuffix s'
  end.

(** Removal of a final [.js] or [.ts] *)
Fixpoint removeScriptSuffix (s : string) : string :=
  if String.eqb s ".js" || String.eqb s ".ts" then EmptyString
  else match s with
       | EmptyString => EmptyString
       | String c s' => String c (removeScriptSuffix s')
       end.

(** [names.join(sep)] *)
Fixpoint join (sep : string) (l : list string) : string :=
  match l with
  | [] => EmptyString
  | [x] => x
  | x :: rest => x +:+ sep +:+ join sep rest
  end.

(** The part of [s] after its last slash ([path.basename]). *)
Fixpoint basename (s : string) : string :=
  match s with
  | EmptyString => EmptyString
  | String c s' =>
      if includes "/" s then basename s' else s
  end.

(** The suffix of [s] that starts at its last dot, if [s] has a dot. *)
Fixpoint fromLastDot (s : string) : option string :=
  match s with
  | EmptyString => None
  | String c s' =>
      match fromLastDot s' with
      | Some e => Some e
      | None => if is_dot c then Some s else None
      end
  end.

(** [path.extname] (POSIX): the extension of the last path component, empty
    when the component has no dot or only a leading one. *)
Definition extname (p : string) : string :=
  match basename p with
  | EmptyString => EmptyString
  | String c rest =>
      match fromLastDot rest with
      | Some e => e
      | None => EmptyString
      end
  end.

(** The pieces of a path between its slashes ([s.split("/")]) *)
Fixpoint split (s : string) : list string :=
  match s with
  | EmptyString => [EmptyString]
  | String c s' =>
      if is_slash c then EmptyString :: split s'
      else match split s' with
           | seg :: rest => String c seg :: rest
           | [] => [String c EmptyString]
           end
  end.

(** One segment met by the normalisation of an absolute path: empty and [.]
    segments are dropped, [..] removes the segment before it, if any. *)
Definition normalize_step (stack : list string) (seg : string) : list string :=
  if String.eqb seg EmptyString || String.eqb seg "." then stack
  else if String.eqb seg ".." then removelast stack
  else stack ++ [seg].

Definition normalize (segs : list string) : list string :=
  fold_left normalize_step segs [].

(** [path.resolve(projectRoot, "src", dir)], where [projectRoot] is the
    working directory, an absolute path: an absolute [dir] stands for
    itself, another one is taken under [src] in the working directory; the
    result is absolute and normalised. *)
Definition resolve_src (projectRoot dir : string) : string :=
  let joined :=
    if startsWith "/" dir then dir else projectRoot +:+ "/src/" +:+ dir in
  "/" +:+ join "/" (normalize (split joined)).

(** [path.join(dir, name)] for a resolved directory [dir] and the name of a
    directory entry: the name comes after a slash, which the root directory
    already ends with. *)
Definition path_join (dir name : string) : string :=
  if String.eqb dir "/" then "/" +:+ name else dir +:+ "/" +:+ name.

(** The segments two paths start with in common, removed from both *)
Fixpoint strip_common (a b : list string) : list string * list string :=
  match a, b with
  | x :: a', y :: b' =>
      if String.eqb x y then strip_common a' b' else (a, b)
  | _, _ => (a, b)
  end.

(** [path.relative(from, to)] for two absolute paths: up from what is left
    of [from] after the common segments, then down what is left of [to]. *)
Definition relative (from to : string) : string :=
  let '(up, down) :=
    strip_common (normalize (split from)) (normalize (split to)) in
  join "/" (map (fun _ => "..") up ++ down).

End Str.

(** ** Errors and results *)

(** The HTTP verbs a method file can name; [method_lower] is the string
    [methodMatch[1].toLowerCase()] of the source. *)
Inductive Method : Type := GET | POST | PUT | PATCH | DELETE.

#[global] Instance Method_eq_dec : EqDecision Method.
Proof. solve_decision. Defined.

Definition method_lower (m : Method) : string :=
  match m with
  | GET => "get" | POST => "post" | PUT => "put"
  | PATCH => "patch" | DELETE => "delete"
  end.

Definition method_upper (m : Method) : string :=
  Str.toUpperCase (method_lower m).

(** Every [throw new Error(...)] of the source, with the values its message
    is built from, and [ImportFailed] for what an imported file throws
    itself.  The two entry points word some messages differently; the texts
    of [registerRoutes] and of the catalog that name their cause are given
    by [register_message] below. *)
Inductive Error : Type :=
| RoutesDirNotFound (baseDir : string)
| CannotLoadTsRoute (filePath : string)
| CannotLoadTsMiddleware (filePath : string)
| ImportFailed (reason : string)
| MiddlewareBadExport (file : string)
| ExtensionConflict (existingFile fullPath : string) (method : Method)
    (routePath : string)
| DynamicConflict (prev fullPath : string) (method : Method)
    (routePath : string)
| InvalidMiddlewares (fullPath : string) (found : string)
| MiddlewareNotFound (name : string) (available : list string)
| NoHandlerExported (fullPath : string).

#[global] Instance Error_eq_dec : EqDecision Error.
Proof. solve_decision. Defined.

Inductive Result (A : Type) : Type :=
| Ok (a : A)
| Err (e : Error).
Arguments Ok {A} a.
Arguments Err {A} e.

(** What a dynamic [import()] of a file gives: its module, or the exception
    raised while it is evaluated. *)
Inductive Import (M : Type) : Type :=
| Loaded (m : M)
| ImportThrows (reason : string).
Arguments Loaded {M} m.
Arguments ImportThrows {M} reason.

Definition nl : string := String (ascii_of_nat 10) EmptyString.

(** ** The middleware catalog (class [MiddlewareLoader]) *)

Record MiddlewareModule : Type := {
  mm_default : JsVal;
  mm_middleware : JsVal
}.

(** An entry of [src/middlewares]: its name, what [statSync] says and what
    importing it gives. *)
Record MiddlewareFile : Type := {
  mf_name : string;
  mf_isDirectory : bool;
  mf_import : Import MiddlewareModule
}.

Record GlobalMiddleware : Type := {
  mw_name : string;
  mw_fn : JsVal
}.

Record MiddlewareLoader : Type := {
  middlewaresDir : string;
  middlewareCache : list (string * JsVal);
  globalMiddlewares : list GlobalMiddleware;
  loaded : bool
}.

(** The skip marker of a route's [middlewares] export *)
Definition skip_marker : string := "!_global".

Module Cache.
(** [Map.prototype.set]: an existing key keeps its position. *)
Fixpoint set (k : string) (v : JsVal) (c : list (string * JsVal))
  : list (string * JsVal) :=
  match c with
  | [] => [(k, v)]
  | (k', v') :: rest =>
      if String.eqb k' k then (k', v) :: rest else (k', v') :: set k v rest
  end.

Fixpoint get (k : string) (c : list (string * JsVal)) : option JsVal :=
  match c with
  | [] => None
  | (k', v') :: rest => if String.eqb k' k then Some v' else get k rest
  end.

Definition has (k : string) (c : list (string * JsVal)) : bool :=
  match get k c with Some _ => true | None => false end.

(** [Array.from(cache.keys())] *)
Definition keys (c : list (string * JsVal)) : list string := map fst c.
End Cache.

(** [Array.prototype.sort] with a comparator: a stable sort. *)
Section Sort.
Context {A : Type} (cmp : A -> A -> Z).

Fixpoint sort_insert (x : A) (l : list A) : list A :=
  match l with
  | [] => [x]
  | y :: rest =>
      if (cmp x y <=? 0)%Z then x :: y :: rest
      else y :: sort_insert x rest
  end.

Fixpoint sort_by (l : list A) : list A :=
  match l with
  | [] => []
  | x :: rest => sort_insert x (sort_by rest)
  end.
End Sort.

Section Catalog.
(** [a.localeCompare(b)] of the runtime *)
Variable localeCompare : string -> string -> Z.

(** The constructor *)
Definition new_loader (projectRoot : string) : MiddlewareLoader :=
  {| middlewaresDir := Str.resolve_src projectRoot "middlewares";
     middlewareCache := [];
     globalMiddlewares := [];
     loaded := false |}.

(** [importMiddleware]: for a [.ts] file every failure inside the [try],
    the missing [tsx] package or the module's own exception, becomes the
    same error. *)
Definition importMiddleware (tsxAvailable : bool) (filePath : string)
    (content : Import MiddlewareModule) : Result MiddlewareModule :=
  if String.eqb (Str.extname filePath) ".ts" then
    match tsxAvailable, content with
    | true, Loaded m => Ok m
    | _, _ => Err (CannotLoadTsMiddleware filePath)
    end
  else
    match content with
    | Loaded m => Ok m
    | ImportThrows reason => Err (ImportFailed reason)
    end.

(** The body of the loop of [loadMiddlewares] for one directory entry *)
Definition load_file (tsxAvailable : bool) (f : MiddlewareFile)
    (ld : MiddlewareLoader) : MiddlewareLoader * Result unit :=
  let file := mf_name f in
  let filePath := Str.path_join (middlewaresDir ld) file in
  if mf_isDirectory f then (ld, Ok tt)
  else if negb (Str.hasScriptSuffix file) then (ld, Ok tt)
  else
    let isGlobal := Str.includes "._global." file in
    let middlewareName :=
      Str.removeScriptSuffix (Str.removeFirst "._global" file) in
    match importMiddleware tsxAvailable filePath (mf_import f) with
    | Err e => (ld, Err e)
    | Ok module =>
        let middleware := js_or (mm_default module) (mm_middleware module) in
        if negb (truthy middleware)
           || negb (String.eqb (typeof middleware) "function")
        then (ld, Err (MiddlewareBadExport file))
        else
          ({| middlewaresDir := middlewaresDir ld;
              middlewareCache :=
                Cache.set middlewareName middleware (middlewareCache ld);
              globalMiddlewares :=
                if isGlobal
                then globalMiddlewares ld ++
                     [{| mw_name := middlewareName; mw_fn := middleware |}]
                else globalMiddlewares ld;
              loaded := loaded ld |}, Ok tt)
    end.

Fixpoint load_files (tsxAvailable : bool) (files : list MiddlewareFile)
    (ld : MiddlewareLoader) : MiddlewareLoader * Result unit :=
  match files with
  | [] => (ld, Ok tt)
  | f :: rest =>
      match load_file tsxAvailable f ld with
      | (ld', Ok _) => load_files tsxAvailable rest ld'
      | (ld', Err e) => (ld', Err e)
      end
  end.

Definition compare_names (a b : GlobalMiddleware) : Z :=
  localeCompare (mw_name a) (mw_name b).

Definition set_loaded (ld : MiddlewareLoader) : MiddlewareLoader :=
  {| middlewaresDir := middlewaresDir ld;
     middlewareCache := middlewareCache ld;
     globalMiddlewares := globalMiddlewares ld;
     loaded := true |}.

(** [loadMiddlewares]; [dir] is the listing of the middleware directory,
    [None] when the directory does not exist. *)
Definition loadMiddlewares (tsxAvailable : bool)
    (dir : option (list MiddlewareFile)) (ld : MiddlewareLoader)
    : MiddlewareLoader * Result unit :=
  if loaded ld then (ld, Ok tt)
  else
    match dir with
    | None => (set_loaded ld, Ok tt)
    | Some files =>
        match load_files tsxAvailable files ld with
        | (ld', Err e) => (ld', Err e)
        | (ld', Ok _) =>
            ({| middlewaresDir := middlewaresDir ld';
                middlewareCache := middlewareCache ld';
                globalMiddlewares :=
                  sort_by compare_names (globalMiddlewares ld');
                loaded := true |}, Ok tt)
        end
    end.

(** The loop over the requested names of [resolveMiddlewares] *)
Fixpoint resolve_requested (cache : list (string * JsVal))
    (requested : list string) (result : list JsVal)
    : Result (list JsVal) :=
  match requested with
  | [] => Ok result
  | name :: rest =>
      match Cache.get name cache with
      | None => Err (MiddlewareNotFound name (Cache.keys cache))
      | Some fn => resolve_requested cache rest (result ++ [fn])
      end
  end.

(** [resolveMiddlewares]; [None] is the omitted argument. *)
Definition resolveMiddlewares (ld : MiddlewareLoader)
    (routeMiddlewares : option (list string)) : Result (list JsVal) :=
  match routeMiddlewares with
  | None | Some [] => Ok (map mw_fn (globalMiddlewares ld))
  | Some names =>
      let skipGlobals := existsb (String.eqb skip_marker) names in
      let requestedMiddlewares :=
        List.filter (fun name => negb (String.eqb name skip_marker)) names in
      let result :=
        if skipGlobals then [] else map mw_fn (globalMiddlewares ld) in
      resolve_requested (middlewareCache ld) requestedMiddlewares result
  end.

(** [getAvailableMiddlewares] *)
Definition getAvailableMiddlewares (ld : MiddlewareLoader)
    : list string * list string :=
  (map mw_name (globalMiddlewares ld), Cache.keys (middlewareCache ld)).

End Catalog.

(** ** The file system under the routes root *)

Record RouteModule : Type := {
  rm_default : JsVal;
  rm_handler : JsVal;
  rm_middlewares : JsVal
}.

(** A directory entry as [readdirSync] with [withFileTypes] gives it: a
    directory with its own entries in listing order, or anything else with
    what importing it gives. *)
#[warnings="-register-all"]
Inductive Item : Type :=
| FileItem (name : string) (content : Import RouteModule)
| DirItem (name : string) (items : list Item).

Record Options : Type := {
  prefix : string;
  strict : bool
}.

(** [const { prefix = "", strict = false } = options] for [options = {}] *)
Definition default_options : Options :=
  {| prefix := EmptyString; strict := false |}.

(** What the process finds around it: the working directory, the entries
    of the routes directory ([None] when it does not exist), the entries of
    the middleware directory and whether the [tsx] package can be
    imported. *)
Record Env : Type := {
  projectRoot : string;
  routesListing : option (list Item);
  middlewaresListing : option (list MiddlewareFile);
  tsxAvailable : bool
}.

(** [path.resolve(projectRoot, "src", routesDir)] *)
Definition baseDir_of (env : Env) (routesDir : string) : string :=
  Str.resolve_src (projectRoot env) routesDir.

(** ** What both walks compute for a directory entry *)

Definition verbs : list Method := [GET; POST; PUT; PATCH; DELETE].
Definition extensions : list string := ["js"; "ts"].

(** [name.match(/^(GET|POST|PUT|PATCH|DELETE)\.(js|ts)$/i)]: the verb, in
    lower case, and the extension as it is spelled in the name. *)
Definition methodMatch (name : string) : option (Method * string) :=
  let lowered := Str.toLowerCase name in
  match
    List.find
      (fun m =>
         existsb
           (fun e => String.eqb lowered (method_lower m +:+ "." +:+ e))
           extensions)
      verbs
  with
  | Some m =>
      Some (m, Str.drop (String.length (method_lower m) + 1) name)
  | None => None
  end.

(** The route path of a method file met with the accumulated [prefixPath] *)
Definition routePath_of (normalizedPrefix prefixPath : string) : string :=
  let processedPath := Str.replaceBrackets prefixPath in
  Str.collapseSlashes
    (Str.backslashToSlash (normalizedPrefix +:+ processedPath)).

Definition routeSignature_of (method : Method) (routePath : string) : string :=
  method_lower method +:+ ":" +:+ routePath.

Definition fingerprint_of (method : Method) (routePath : string) : string :=
  method_lower method +:+ ":" +:+ Str.normalizeDynamic routePath.

(** The test of the extension check: the file recorded for the signature, if
    there is one and its extension differs from the current one. *)
Definition extension_clash (fileRegistry : gmap string string)
    (routeSignature fileExt : string) : option string :=
  match fileRegistry !! routeSignature with
  | Some existingFile =>
      let existingExt := Str.extname existingFile in
      let currentExt := "." +:+ fileExt in
      if negb (String.eqb existingExt currentExt) then Some existingFile
      else None
  | None => None
  end.

(** [importModule] of both entry points *)
Definition importModule (tsx : bool) (filePath : string)
    (content : Import RouteModule) : Result RouteModule :=
  if String.eqb (Str.extname filePath) ".ts" && negb tsx
  then Err (CannotLoadTsRoute filePath)
  else
    match content with
    | Loaded m => Ok m
    | ImportThrows reason => Err (ImportFailed reason)
    end.

(** The recursive walk, the same in both entry points: entries in listing
    order, directories first descended into, the body [visit] run on every
    other entry, the first error ending the walk. *)
Section Walk.
Context {S : Type}.
Variable visit :
  string -> string -> string -> Import RouteModule -> S -> S * Result unit.

Fixpoint walk_item (currentDir prefixPath : string) (item : Item) (st : S)
    {struct item} : S * Result unit :=
  match item with
  | FileItem name content => visit currentDir prefixPath name content st
  | DirItem name children =>
      (fix walk_items (items : list Item) (st : S) : S * Result unit :=
         match items with
         | [] => (st, Ok tt)
         | it :: rest =>
             match
               walk_item (Str.path_join currentDir name)
                 (prefixPath +:+ "/" +:+ name) it st
             with
             | (st', Ok _) => walk_items rest st'
             | (st', Err e) => (st', Err e)
             end
         end) children st
  end.

(** [walk(currentDir, prefixPath)] on the entries of [currentDir] *)
Fixpoint walk (currentDir prefixPath : string) (items : list Item) (st : S)
    : S * Result unit :=
  match items with
  | [] => (st, Ok tt)
  | it :: rest =>
      match walk_item currentDir prefixPath it st with
      | (st', Ok _) => walk currentDir prefixPath rest st'
      | (st', Err e) => (st', Err e)
      end
  end.
End Walk.

(** ** Live registration ([registerRoutes]) *)

(** The last argument of a registration call: what the module exports, or
    the arrow function of the source that throws when it is called. *)
Inductive Handler : Type :=
| Exported (v : JsVal)
| ThrowingHandler (fullPath : string).

(** [handlerModule.default || handlerModule.handler || (() => { throw ... })] *)
Definition handler_of (m : RouteModule) (fullPath : string) : Handler :=
  if truthy (rm_default m) then Exported (rm_default m)
  else if truthy (rm_handler m) then Exported (rm_handler m)
  else ThrowingHandler fullPath.

(** What calling a handler does: the code of the module runs, or an error is
    thrown. *)
Inductive Invocation : Type :=
| RunsModuleCode (v : JsVal)
| Throws (e : Error).

Definition invoke (h : Handler) : Invocation :=
  match h with
  | Exported v => RunsModuleCode v
  | ThrowingHandler fullPath => Throws (NoHandlerExported fullPath)
  end.

(** One call [app[method](routePath, ...middlewares, handler)] *)
Record RouteCall : Type := {
  rc_method : Method;
  rc_path : string;
  rc_middlewares : list JsVal;
  rc_handler : Handler
}.

(** The host application and the variables of [registerRoutes] the walk
    updates.  [warnings] are the conflicts passed to [console.warn]. *)
Record RegState : Type := {
  app : list RouteCall;
  routeRegistry : gmap string string;
  fileRegistry : gmap string string;
  warnings : list Error
}.

Section Register.
Variable opts : Options.
Variable tsx : bool.
Variable middlewareLoader : MiddlewareLoader.

Definition normalizedPrefix : string := Str.stripTrailingSlashes (prefix opts).

(** From the import of the module to the registration call: the [try]
    block of the loop, whose [catch] logs and throws the error again. *)
Definition register_load (method : Method) (routePath fullPath : string)
    (content : Import RouteModule) (st : RegState)
    : RegState * Result unit :=
  match importModule tsx fullPath content with
  | Err e => (st, Err e)
  | Ok handlerModule =>
      let handler := handler_of handlerModule fullPath in
      let routeMiddlewares := js_or (rm_middlewares handlerModule) (JArr []) in
      match routeMiddlewares with
      | JArr names =>
          match resolveMiddlewares middlewareLoader (Some names) with
          | Err e => (st, Err e)
          | Ok middlewares =>
              ({| app := app st ++
                    [{| rc_method := method; rc_path := routePath;
                        rc_middlewares := middlewares;
                        rc_handler := handler |}];
                  routeRegistry := routeRegistry st;
                  fileRegistry := fileRegistry st;
                  warnings := warnings st |}, Ok tt)
          end
      | other =>
          (st, Err (InvalidMiddlewares fullPath (typeof other)))
      end
  end.

(** [fileRegistry.set(routeSignature, fullPath)] and the [try] block *)
Definition register_record (method : Method)
    (routePath routeSignature fullPath : string)
    (content : Import RouteModule) (st : RegState)
    : RegState * Result unit :=
  register_load method routePath fullPath content
    {| app := app st;
       routeRegistry := routeRegistry st;
       fileRegistry := <[routeSignature := fullPath]> (fileRegistry st);
       warnings := warnings st |}.

(** The body of the loop of [walk] for an entry that is not a directory *)
Definition register_file (currentDir prefixPath name : string)
    (content : Import RouteModule) (st : RegState)
    : RegState * Result unit :=
  let fullPath := Str.path_join currentDir name in
  match methodMatch name with
  | None => (st, Ok tt)
  | Some (method, fileExt) =>
      let routePath := routePath_of normalizedPrefix prefixPath in
      let routeSignature := routeSignature_of method routePath in
      match extension_clash (fileRegistry st) routeSignature fileExt with
      | Some existingFile =>
          (st, Err (ExtensionConflict existingFile fullPath method routePath))
      | None =>
          let fingerprint := fingerprint_of method routePath in
          match routeRegistry st !! fingerprint with
          | Some prev =>
              let conflict :=
                DynamicConflict prev fullPath method routePath in
              if strict opts then (st, Err conflict)
              else
                register_record method routePath routeSignature fullPath
                  content
                  {| app := app st;
                     routeRegistry := routeRegistry st;
                     fileRegistry := fileRegistry st;
                     warnings := warnings st ++ [conflict] |}
          | None =>
              register_record method routePath routeSignature fullPath
                content
                {| app := app st;
                   routeRegistry :=
                     <[fingerprint := fullPath]> (routeRegistry st);
                   fileRegistry := fileRegistry st;
                   warnings := warnings st |}
          end
      end
  end.

Definition register_walk : string -> string -> list Item -> RegState ->
                           RegState * Result unit :=
  walk register_file.
End Register.

(** [registerRoutes(app, routesDir, options)]: the application after the
    call, with the warnings printed, and how the call ended. *)
Section RegisterRoutes.
Variable localeCompare : string -> string -> Z.

Definition registerRoutes (env : Env) (app0 : list RouteCall)
    (routesDir : string) (opts : Options)
    : list RouteCall * list Error * Result unit :=
  let baseDir := baseDir_of env routesDir in
  match routesListing env with
  | None => (app0, [], Err (RoutesDirNotFound baseDir))
  | Some items =>
      match
        loadMiddlewares localeCompare (tsxAvailable env)
          (middlewaresListing env) (new_loader (projectRoot env))
      with
      | (_, Err e) => (app0, [], Err e)
      | (middlewareLoader, Ok _) =>
          let '(st, r) :=
            register_walk opts (tsxAvailable env) middlewareLoader
              baseDir EmptyString items
              {| app := app0; routeRegistry := ∅; fileRegistry := ∅;
                 warnings := [] |} in
          (app st, warnings st, r)
      end
  end.
End RegisterRoutes.

(** ** Introspection ([inspectRoutes]) *)

(** An entry of the [middlewares] list of a reported route *)
Record MiddlewareName : Type := {
  mn_name : string;
  mn_type : string
}.

(** The metadata pushed for a route *)
Record RouteInfo : Type := {
  ri_method : string;
  ri_path : string;
  ri_file : string;
  ri_fileType : string;
  ri_middlewares : list MiddlewareName;
  ri_handler : string
}.

Record InsState : Type := {
  routes : list RouteInfo;
  i_routeRegistry : gmap string string;
  i_fileRegistry : gmap string string;
  i_warnings : list Error
}.

(** The value [inspectRoutes] returns *)
Record Report : Type := {
  rep_routes : list RouteInfo;
  rep_global : list string;
  rep_available : list string;
  rep_totalRoutes : nat;
  rep_totalMiddlewares : nat;
  rep_globalMiddlewares : nat;
  rep_byMethod : gmap string nat
}.

Section Inspect.
Variable opts : Options.
Variable tsx : bool.
Variable root : string.
Variable middlewareLoader : MiddlewareLoader.

(** [path.relative(projectRoot, fullPath)] *)
Definition relative (fullPath : string) : string :=
  Str.relative root fullPath.

(** The [try] block of the loop of the introspection walk *)
Definition inspect_load (method : Method) (fileExt routePath fullPath : string)
    (content : Import RouteModule) (st : InsState)
    : InsState * Result unit :=
  match importModule tsx fullPath content with
  | Err e => (st, Err e)
  | Ok handlerModule =>
      let routeMiddlewares := js_or (rm_middlewares handlerModule) (JArr []) in
      match routeMiddlewares with
      | JArr names =>
          match resolveMiddlewares middlewareLoader (Some names) with
          | Err e => (st, Err e)
          | Ok middlewares =>
              let skipGlobals := existsb (String.eqb skip_marker) names in
              let globalNames :=
                if skipGlobals then []
                else map (fun mw => {| mn_name := mw_name mw;
                                       mn_type := "global" |})
                         (globalMiddlewares middlewareLoader) in
              let routeNames :=
                map (fun name => {| mn_name := name; mn_type := "route" |})
                    (List.filter
                       (fun name => negb (String.eqb name skip_marker))
                       names) in
              ({| routes := routes st ++
                    [{| ri_method := method_upper method;
                        ri_path := routePath;
                        ri_file := relative fullPath;
                        ri_fileType :=
                          if String.eqb fileExt "ts" then "TypeScript"
                          else "JavaScript";
                        ri_middlewares := globalNames ++ routeNames;
                        ri_handler :=
                          if truthy (rm_default handlerModule)
                          then "default" else "handler" |}];
                  i_routeRegistry := i_routeRegistry st;
                  i_fileRegistry := i_fileRegistry st;
                  i_warnings := i_warnings st |}, Ok tt)
          end
      | other => (st, Err (InvalidMiddlewares fullPath (typeof other)))
      end
  end.

Definition inspect_record (method : Method)
    (fileExt routePath routeSignature fullPath : string)
    (content : Import RouteModule) (st : InsState)
    : InsState * Result unit :=
  inspect_load method fileExt routePath fullPath content
    {| routes := routes st;
       i_routeRegistry := i_routeRegistry st;
       i_fileRegistry := <[routeSignature := fullPath]> (i_fileRegistry st);
       i_warnings := i_warnings st |}.

(** The body of the loop of the introspection walk for an entry that is
    not a directory *)
Definition inspect_file (currentDir prefixPath name : string)
    (content : Import RouteModule) (st : InsState)
    : InsState * Result unit :=
  let fullPath := Str.path_join currentDir name in
  match methodMatch name with
  | None => (st, Ok tt)
  | Some (method, fileExt) =>
      let routePath :=
        routePath_of (Str.stripTrailingSlashes (prefix opts)) prefixPath in
      let routeSignature := routeSignature_of method routePath in
      match extension_clash (i_fileRegistry st) routeSignature fileExt with
      | Some existingFile =>
          (st, Err (ExtensionConflict existingFile fullPath method routePath))
      | None =>
          let fingerprint := fingerprint_of method routePath in
          match i_routeRegistry st !! fingerprint with
          | Some prev =>
              let conflict :=
                DynamicConflict prev fullPath method routePath in
              if strict opts then (st, Err conflict)
              else
                inspect_record method fileExt routePath routeSignature
                  fullPath content
                  {| routes := routes st;
                     i_routeRegistry := i_routeRegistry st;
                     i_fileRegistry := i_fileRegistry st;
                     i_warnings := i_warnings st ++ [conflict] |}
          | None =>
              inspect_record method fileExt routePath routeSignature
                fullPath content
                {| routes := routes st;
                   i_routeRegistry :=
                     <[fingerprint := fullPath]> (i_routeRegistry st);
                   i_fileRegistry := i_fileRegistry st;
                   i_warnings := i_warnings st |}
          end
      end
  end.

Definition inspect_walk : string -> string -> list Item -> InsState ->
                          InsState * Result unit :=
  walk inspect_file.
End Inspect.

(** [methodOrder.indexOf(m)] *)
Fixpoint indexOf (m : string) (l : list string) (i : Z) : Z :=
  match l with
  | [] => (-1)%Z
  | x :: rest => if String.eqb x m then i else indexOf m rest (i + 1)%Z
  end.

Definition methodOrder : list string := ["GET"; "POST"; "PUT"; "PATCH"; "DELETE"].

Section InspectRoutes.
Variable localeCompare : string -> string -> Z.

(** The comparator of the final sort: method rank, then path *)
Definition compare_routes (a b : RouteInfo) : Z :=
  if negb (String.eqb (ri_method a) (ri_method b)) then
    (indexOf (ri_method a) methodOrder 0 - indexOf (ri_method b) methodOrder 0)%Z
  else localeCompare (ri_path a) (ri_path b).

(** The [reduce] that counts the routes of each method *)
Definition count_by_method (rs : list RouteInfo) : gmap string nat :=
  fold_left
    (fun acc route =>
       <[ri_method route := (default 0 (acc !! ri_method route) + 1)%nat]> acc)
    rs ∅.

(** [inspectRoutes(routesDir, options)]: the warnings printed and the
    report, or the error thrown. *)
Definition inspectRoutes (env : Env) (routesDir : string) (opts : Options)
    : list Error * Result Report :=
  let baseDir := baseDir_of env routesDir in
  match routesListing env with
  | None => ([], Err (RoutesDirNotFound baseDir))
  | Some items =>
      match
        loadMiddlewares localeCompare (tsxAvailable env)
          (middlewaresListing env) (new_loader (projectRoot env))
      with
      | (_, Err e) => ([], Err e)
      | (middlewareLoader, Ok _) =>
          match
            inspect_walk opts (tsxAvailable env) (projectRoot env)
              middlewareLoader baseDir EmptyString items
              {| routes := []; i_routeRegistry := ∅; i_fileRegistry := ∅;
                 i_warnings := [] |}
          with
          | (st, Err e) => (i_warnings st, Err e)
          | (st, Ok _) =>
              let '(globals, available) :=
                getAvailableMiddlewares middlewareLoader in
              let sorted := sort_by compare_routes (routes st) in
              (i_warnings st,
               Ok {| rep_routes := sorted;
                     rep_global := globals;
                     rep_available := available;
                     rep_totalRoutes := length sorted;
                     rep_totalMiddlewares := length available;
                     rep_globalMiddlewares := length globals;
                     rep_byMethod := count_by_method sorted |})
          end
      end
  end.
End InspectRoutes.

(** ** The texts of the errors of [registerRoutes] that name their cause *)

(** The template of the extension conflict, after [trim()] *)
Definition extension_conflict_message (existingFile fullPath : string)
    (method : Method) (routePath : string) : string :=
  "File extension conflict detected!" +:+ nl +:+ nl +:+
  "Files:" +:+ nl +:+
  "→ " +:+ existingFile +:+ nl +:+
  "→ " +:+ fullPath +:+ nl +:+ nl +:+
  "Both resolve to: [" +:+ method_upper method +:+ "] " +:+ routePath +:+
  nl +:+ nl +:+
  "You cannot have both .js and .ts files for the same route." +:+ nl +:+
  "Please keep only one version.".

Definition invalid_middlewares_message (fullPath found : string) : string :=
  "Invalid middlewares export in " +:+ fullPath +:+ nl +:+
  "Expected an array, got " +:+ found.

Definition middleware_not_found_message (name : string)
    (available : list string) : string :=
  "Middleware '" +:+ name +:+ "' not found in src/middlewares/" +:+ nl +:+
  "Available middlewares: " +:+ Str.join ", " available.

Definition no_handler_message (fullPath : string) : string :=
  "No handler exported in " +:+ fullPath.

(** The message of the errors above as [registerRoutes] words them *)
Definition register_message (e : Error) : option string :=
  match e with
  | ExtensionConflict existingFile fullPath method routePath =>
      Some (extension_conflict_message existingFile fullPath method routePath)
  | InvalidMiddlewares fullPath found =>
      Some (invalid_middlewares_message fullPath found)
  | MiddlewareNotFound name available =>
      Some (middleware_not_found_message name available)
  | NoHandlerExported fullPath => Some (no_handler_message fullPath)
  | _ => None
  end.

(** [part] occurs in [msg]. *)
Definition mentions (msg part : string) : Prop :=
  exists before after, msg = before +:+ part +:+ after.

(** ** The walk as a sequence of visits *)

(** The arguments the body of the loop receives for one entry *)
Record Visit : Type := {
  v_dir : string;
  v_prefixPath : string;
  v_name : string;
  v_content : Import RouteModule
}.

Definition v_fullPath (v : Visit) : string := Str.path_join (v_dir v) (v_name v).

(** The entries that are not directories, in the order the walk meets
    them *)
Fixpoint visits_item (currentDir prefixPath : string) (item : Item)
    {struct item} : list Visit :=
  match item with
  | FileItem name content =>
      [{| v_dir := currentDir; v_prefixPath := prefixPath;
          v_name := name; v_content := content |}]
  | DirItem name children =>
      (fix visits_items (items : list Item) : list Visit :=
         match items with
         | [] => []
         | it :: rest =>
             (visits_item (Str.path_join currentDir name)
                (prefixPath +:+ "/" +:+ name) it ++ visits_items rest)%list
         end) children
  end.

Fixpoint visits (currentDir prefixPath : string) (items : list Item)
    : list Visit :=
  match items with
  | [] => []
  | it :: rest =>
      (visits_item currentDir prefixPath it ++
       visits currentDir prefixPath rest)%list
  end.

Section Run.
Context {S : Type}.
Variable visit :
  string -> string -> string -> Import RouteModule -> S -> S * Result unit.

Definition visit_one (v : Visit) (st : S) : S * Result unit :=
  visit (v_dir v) (v_prefixPath v) (v_name v) (v_content v) st.

(** The body of the loop on each visit in turn, up to the first error *)
Fixpoint run (vs : list Visit) (st : S) : S * Result unit :=
  match vs with
  | [] => (st, Ok tt)
  | v :: rest =>
      match visit_one v st with
      | (st', Ok _) => run rest st'
      | (st', Err e) => (st', Err e)
      end
  end.
End Run.

(** A file [name] lies under the folders [dirs] of a listing. *)
Inductive file_at : list Item -> list string -> string ->
                    Import RouteModule -> Prop :=
| file_here items name content :
    In (FileItem name content) items -> file_at items [] name content
| file_below items d children dirs name content :
    In (DirItem d children) items ->
    file_at children dirs name content ->
    file_at items (d :: dirs) name content.

(** ** The path a route file is expected to get *)

(** A folder of the routes tree: an ordinary one, or one named after a
    parameter between brackets. *)
Inductive Folder : Type :=
| Plain (d : string)
| Param (x : string).

Definition folder_name (f : Folder) : string :=
  match f with
  | Plain d => d
  | Param x => "[" +:+ x +:+ "]"
  end.

Definition segment (f : Folder) : string :=
  match f with
  | Plain d => d
  | Param x => ":" +:+ x
  end.

Fixpoint all_chars (p : ascii -> bool) (s : string) : bool :=
  match s with
  | EmptyString => true
  | String c s' => p c && all_chars p s'
  end.

(** No line terminator starts anywhere in [s]. *)
Fixpoint no_line_terminator (s : string) : bool :=
  match s with
  | EmptyString => true
  | String c s' => negb (Str.line_terminator_at s) && no_line_terminator s'
  end.

(** An ordinary folder has no opening bracket in its name; a parameter name
    is not empty and has neither a closing bracket nor a line terminator. *)
Definition legal_folder (f : Folder) : bool :=
  match f with
  | Plain d => all_chars (fun c => negb (Str.is_open c)) d
  | Param x =>
      negb (String.eqb x EmptyString) &&
      all_chars (fun c => negb (Str.is_close c)) x &&
      no_line_terminator x
  end.

Fixpoint concat_segments (segs : list string) : string :=
  match segs with
  | [] => EmptyString
  | s :: rest => "/" +:+ s +:+ concat_segments rest
  end.

(** The path as the specification words it, written without the functions
    of the code: the configured prefix with its trailing slashes stripped,
    then the directory path with one segment per folder, then repeated
    separators collapsed to one. *)
Module Spec.

(** The characters of [s], last first, put before [acc] *)
Fixpoint rev_onto (s acc : string) : string :=
  match s with
  | EmptyString => acc
  | String c s' => rev_onto s' (String c acc)
  end.

Fixpoint drop_leading_slashes (s : string) : string :=
  match s with
  | EmptyString => EmptyString
  | String c s' =>
      if Ascii.eqb c "/" then drop_leading_slashes s' else s
  end.

(** Trailing slashes stripped: the leading slashes of the reversed string
    are dropped. *)
Definition strip_trailing (s : string) : string :=
  rev_onto (drop_leading_slashes (rev_onto s EmptyString)) EmptyString.

(** The separators of a path: the slash, and the backslash of the paths of
    the other platform *)
Definition is_separator (c : ascii) : bool :=
  Ascii.eqb c "/" || Ascii.eqb c "\".

(** Repeated separators collapsed to one: of every run of separators only
    the first is kept, as a slash. *)
Fixpoint squeeze (after_separator : bool) (s : string) : string :=
  match s with
  | EmptyString => EmptyString
  | String c s' =>
      if is_separator c then
        if after_separator then squeeze true s'
        else String "/" (squeeze true s')
      else String c (squeeze false s')
  end.

Definition expected_path (pfx : string) (folders : list Folder) : string :=
  squeeze false (strip_trailing pfx +:+ concat_segments (map segment folders)).

(** A prefix that needs no other normalisation than the stripping of its
    trailing slashes: no separator but the slash, none repeated. *)
Fixpoint tidy (after_slash : bool) (s : string) : bool :=
  match s with
  | EmptyString => true
  | String c s' =>
      if Ascii.eqb c "/" then negb after_slash && tidy true s'
      else negb (Ascii.eqb c "\") && tidy false s'
  end.

End Spec.

(** ** Notions the statements use *)

(** The method and the path of the route a visit stands for, when its entry
    is a method file *)
Definition route_of (normalizedPrefix : string) (v : Visit)
    : option (Method * string) :=
  match methodMatch (v_name v) with
  | Some (method, _) =>
      Some (method, routePath_of normalizedPrefix (v_prefixPath v))
  | None => None
  end.

(** The state [registerRoutes] starts its walk with *)
Definition fresh (app0 : list RouteCall) : RegState :=
  {| app := app0; routeRegistry := ∅; fileRegistry := ∅; warnings := [] |}.

(** The order of two global middlewares: by name *)
Definition name_le (localeCompare : string -> string -> Z)
    (a b : GlobalMiddleware) : Prop :=
  (localeCompare (mw_name a) (mw_name b) <= 0)%Z.

(** The global middlewares in the order the loop of [loadMiddlewares]
    pushed them *)
Definition pushed_globals (tsx : bool) (dir : option (list MiddlewareFile))
    (root : string) : list GlobalMiddleware :=
  match dir with
  | Some files => globalMiddlewares (load_files tsx files (new_loader root)).1
  | None => []
  end.

(** The first call the application holds for a fingerprint: the route the
    host, which tries its routes in registration order, answers with. *)
Definition first_with_fingerprint (fp : string) (calls : list RouteCall)
    : option RouteCall :=
  List.find
    (fun c => String.eqb (fingerprint_of (rc_method c) (rc_path c)) fp)
    calls.

(** Every fingerprint of [routeRegistry] has a call in the application. *)
Definition registry_backed (st : RegState) : Prop :=
  forall k, is_Some (routeRegistry st !! k) ->
            is_Some (first_with_fingerprint k (app st)).

(** The method, in upper case, and the path of the calls of an application
    and of the routes of a report *)
Definition handed (calls : list RouteCall) : list (string * string) :=
  map (fun c => (method_upper (rc_method c), rc_path c)) calls.

Definition reported (rs : list RouteInfo) : list (string * string) :=
  map (fun ri => (ri_method ri, ri_path ri)) rs.

(** The two walks are at the same point: same registries, same warnings, and
    the application has received, after the calls it started with, the
    routes collected for the report. *)
Definition agree (app0 : list RouteCall) (sr : RegState) (si : InsState)
    : Prop :=
  routeRegistry sr = i_routeRegistry si /\
  fileRegistry sr = i_fileRegistry si /\
  warnings sr = i_warnings si /\
  exists new, app sr = app0 ++ new /\ handed new = reported (routes si).

(** For every method file among [seen], [fileRegistry] holds under the
    signature of its route a file with the extension of that method file. *)
Definition extensions_recorded (normalizedPrefix : string)
    (seen : list Visit) (st : RegState) : Prop :=
  forall v0 m e0,
    v0 ∈ seen ->
    methodMatch (v_name v0) = Some (m, e0) ->
    exists f,
      fileRegistry st
        !! routeSignature_of m (routePath_of normalizedPrefix (v_prefixPath v0))
        = Some f /\
      Str.extname f = "." +:+ e0.

(** ** Notions of the further properties *)

(** The first character of a string, if any, is not a word character. *)
Definition starts_nonword (s : string) : bool :=
  match s with
  | EmptyString => true
  | String c _ => negb (Str.is_word c)
  end.

(** An identifier: word characters, at least one *)
Definition is_name (w : string) : bool :=
  negb (String.eqb w EmptyString) && all_chars Str.is_word w.

(** Two strings that differ at most in the names that follow their colons *)
Inductive renamed : string -> string -> Prop :=
| renamed_nil : renamed EmptyString EmptyString
| renamed_char c s1 s2 :
    renamed s1 s2 -> renamed (String c s1) (String c s2)
| renamed_name w1 w2 s1 s2 :
    is_name w1 = true -> is_name w2 = true ->
    starts_nonword s1 = true -> renamed s1 s2 ->
    renamed (String ":" (w1 +:+ s1)) (String ":" (w2 +:+ s2)).

(** The same ordinary folder, or two parameter folders named by
    identifiers *)
Definition same_shape (f g : Folder) : Prop :=
  match f, g with
  | Plain d, Plain e => d = e /\ legal_folder (Plain d) = true
  | Param x, Param y => is_name x = true /\ is_name y = true
  | _, _ => False
  end.

(** A string of [n] slashes *)
Fixpoint slashes (n : nat) : string :=
  match n with
  | O => EmptyString
  | S n' => String "/" (slashes n')
  end.

Fixpoint ends_with_slash (s : string) : bool :=
  match s with
  | EmptyString => false
  | String c EmptyString => Str.is_slash c
  | String _ s' => ends_with_slash s'
  end.

(** The visits whose entry is a method file *)
Definition is_method_file (v : Visit) : bool :=
  match methodMatch (v_name v) with Some _ => true | None => false end.

(** The fingerprint of the route of a call *)
Definition call_fingerprint (c : RouteCall) : string :=
  fingerprint_of (rc_method c) (rc_path c).

Definition is_dynamic_conflict (e : Error) : bool :=
  match e with DynamicConflict _ _ _ _ => true | _ => false end.

(** The errors of the middleware catalog and those of the walk *)
Definition loader_error (e : Error) : bool :=
  match e with
  | CannotLoadTsMiddleware _ | ImportFailed _ | MiddlewareBadExport _ => true
  | _ => false
  end.

Definition walk_error (e : Error) : bool :=
  match e with
  | CannotLoadTsRoute _ | ImportFailed _ | ExtensionConflict _ _ _ _
  | DynamicConflict _ _ _ _ | InvalidMiddlewares _ _
  | MiddlewareNotFound _ _ => true
  | _ => false
  end.

(** The name a file of the middleware directory is stored under *)
Definition middleware_name (file : string) : string :=
  Str.removeScriptSuffix (Str.removeFirst "._global" file).

(** The entries of the middleware directory the loop does not skip *)
Definition is_script (f : MiddlewareFile) : bool :=
  negb (mf_isDirectory f) && Str.hasScriptSuffix (mf_name f).

(** What the loop takes from the module of a file: [module.default ||
    module.middleware] *)
Definition exported_middleware (f : MiddlewareFile) : option JsVal :=
  match mf_import f with
  | Loaded m => Some (js_or (mm_default m) (mm_middleware m))
  | ImportThrows _ => None
  end.

Definition is_function (v : JsVal) : bool := String.eqb (typeof v) "function".

(** Every stored middleware is a function. *)
Definition holds_functions (ld : MiddlewareLoader) : Prop :=
  Forall (fun kv => is_function kv.2 = true) (middlewareCache ld) /\
  Forall (fun g => is_function (mw_fn g) = true) (globalMiddlewares ld).

(** What the catalog holds after the files [seen]: the keys of the cache,
    without repetition, are the names of the script files, and the names
    of the global list those of the script files marked as global. *)
Definition catalog_of (seen : list MiddlewareFile) (ld : MiddlewareLoader)
    : Prop :=
  NoDup (Cache.keys (middlewareCache ld)) /\
  (forall n, n ∈ Cache.keys (middlewareCache ld) <->
     exists f, f ∈ seen /\ is_script f = true /\
       n = middleware_name (mf_name f)) /\
  (forall n, n ∈ map mw_name (globalMiddlewares ld) <->
     exists f, f ∈ seen /\ is_script f = true /\
       Str.includes "._global." (mf_name f) = true /\
       n = middleware_name (mf_name f)).

(** The rank of a method name in the final sort of the report *)
Definition method_rank (m : string) : Z := indexOf m methodOrder 0.

(** The order of the routes of a report: by rank of the method, then by
    path *)
Definition route_before (localeCompare : string -> string -> Z)
    (a b : RouteInfo) : Prop :=
  (method_rank (ri_method a) < method_rank (ri_method b))%Z \/
  (ri_method a = ri_method b /\
   (localeCompare (ri_path a) (ri_path b) <= 0)%Z).

(** The method of a reported route is one of the five verbs, in upper
    case. *)
Definition verb_route (info : RouteInfo) : Prop :=
  exists m, ri_method info = method_upper m.

(** The routes of [rs] with the method [k] *)
Definition with_method (k : string) (rs : list RouteInfo) : list RouteInfo :=
  List.filter (fun ri => String.eqb (ri_method ri) k) rs.

(** A name of the report and the middleware the host receives at the same
    position of the chain *)
Definition names_middleware (ld : MiddlewareLoader) (mn : MiddlewareName)
    (fn : JsVal) : Prop :=
  (mn_type mn = "global" /\
   {| mw_name := mn_name mn; mw_fn := fn |} ∈ globalMiddlewares ld) \/
  (mn_type mn = "route" /\
   Cache.get (mn_name mn) (middlewareCache ld) = Some fn).

(** The name of a directory entry: not empty, not [.] or [..], without a
    slash *)
Definition is_segment (s : string) : bool :=
  negb (String.eqb s EmptyString) && negb (String.eqb s ".") &&
  negb (String.eqb s "..") &&
  all_chars (fun c => negb (Str.is_slash c)) s.

(** A relative path made of such names, one slash between two of them *)
Definition plain_relative (p : string) : bool :=
  forallb is_segment (Str.split p).

(** Every entry of a tree has the name of a directory entry. *)
Fixpoint entry_names (item : Item) : bool :=
  match item with
  | FileItem name _ => is_segment name
  | DirItem name items => is_segment name && forallb entry_names items
  end.

(** Where a collected route comes from: a method file, of which it has the
    method, the path, the file relative to the root and the kind of
    source. *)
Definition from_visit (opts : Options) (root : string) (v : Visit)
    (info : RouteInfo) : Prop :=
  exists m ext,
    methodMatch (v_name v) = Some (m, ext) /\
    ri_method info = method_upper m /\
    ri_path info =
      routePath_of (Str.stripTrailingSlashes (prefix opts)) (v_prefixPath v) /\
    ri_file info = relative root (v_fullPath v) /\
    ri_fileType info =
      (if String.eqb ext "ts" then "TypeScript" else "JavaScript").

(** ** Concrete inputs *)

Module Sample.
(** Comparison of the strings character code by character code *)
Definition codeCompare (a b : string) : Z :=
  if String.leb a b then (if String.leb b a then 0 else -1)%Z else 1%Z.

Definition middleware (name : string) (id : nat) : MiddlewareFile :=
  {| mf_name := name; mf_isDirectory := false;
     mf_import := Loaded {| mm_default := JFunc id;
                            mm_middleware := JUndefined |} |}.

Definition middlewares : list MiddlewareFile :=
  [middleware "logIP._global.js" 1; middleware "checkAuth.js" 2;
   middleware "cors._global.js" 3; middleware "checkRole.js" 4].

Definition module (d h m : JsVal) : Import RouteModule :=
  Loaded {| rm_default := d; rm_handler := h; rm_middlewares := m |}.

Definition env_of (items : list Item) : Env :=
  {| projectRoot := "/app"; routesListing := Some items;
     middlewaresListing := Some middlewares; tsxAvailable := true |}.

(** The loader after [loadMiddlewares] on [middlewares] *)
Definition loader : MiddlewareLoader :=
  fst (loadMiddlewares codeCompare true (Some middlewares)
         (new_loader "/app")).

Definition visit_of (dir pp name : string) (c : Import RouteModule) : Visit :=
  {| v_dir := dir; v_prefixPath := pp; v_name := name; v_content := c |}.

(** [product/[id]/GET.js] and [product/[slug]/GET.js] *)
Definition by_id : Visit :=
  visit_of "/app/src/routes/product/[id]" "/product/[id]" "GET.js"
    (module (JFunc 10) JUndefined JUndefined).
Definition by_slug : Visit :=
  visit_of "/app/src/routes/product/[slug]" "/product/[slug]" "GET.js"
    (module (JFunc 11) JUndefined JUndefined).

(** [product/GET.js] and [product/GET.ts] *)
Definition get_js : Visit :=
  visit_of "/app/src/routes/product" "/product" "GET.js"
    (module (JFunc 12) JUndefined JUndefined).
Definition get_ts : Visit :=
  visit_of "/app/src/routes/product" "/product" "GET.ts"
    (module (JFunc 13) JUndefined JUndefined).

(** A module without any handler export *)
Definition no_handler : Visit :=
  visit_of "/app/src/routes/health" "/health" "GET.js"
    (module JUndefined JUndefined JUndefined).

(** A module whose [middlewares] export is a string *)
Definition bad_middlewares : Visit :=
  visit_of "/app/src/routes/admin" "/admin" "POST.js"
    (module (JFunc 14) JUndefined (JStr "checkAuth")).


Definition product_tree : list Item :=
  [DirItem "product"
     [FileItem "GET.js" (module (JFunc 12) JUndefined JUndefined);
      DirItem "[id]"
        [FileItem "GET.js" (module (JFunc 10) JUndefined JUndefined)]]].

Definition root_tree : list Item :=
  [FileItem "GET.js" (module (JFunc 16) JUndefined JUndefined)].

(** [product/GET.js] next to [product/GET.ts] *)
Definition twin_tree : list Item :=
  [DirItem "product"
     [FileItem "GET.js" (module (JFunc 12) JUndefined JUndefined);
      FileItem "GET.ts" (module (JFunc 13) JUndefined JUndefined)]].

(** [product/GET.js], then [admin/POST.js] with its string export *)
Definition failing_tree : list Item :=
  [DirItem "product"
     [FileItem "GET.js" (module (JFunc 12) JUndefined JUndefined)];
   DirItem "admin"
     [FileItem "POST.js" (module (JFunc 14) JUndefined (JStr "checkAuth"))]].

(** [health/GET.js] with a module that exports nothing *)
Definition health_tree : list Item :=
  [DirItem "health"
     [FileItem "GET.js" (module JUndefined JUndefined JUndefined)]].

Definition strict_options : Options :=
  {| prefix := EmptyString; strict := true |}.
Definition api_options : Options :=
  {| prefix := "/api/"; strict := false |}.

(** The state of the walk after the given visits *)
Definition after (opts : Options) (vs : list Visit) : RegState :=
  (run (register_file opts true loader) vs (fresh [])).1.

Definition empty_inspection : InsState :=
  {| routes := []; i_routeRegistry := ∅; i_fileRegistry := ∅;
     i_warnings := [] |}.
(** [product/GET.js], [product/GEt.js] and [product/Get.ts], listed in this
    order *)
Definition spelled_tree : list Item :=
  [DirItem "product"
     [FileItem "GET.js" (module (JFunc 12) JUndefined JUndefined);
      FileItem "GEt.js" (module (JFunc 17) JUndefined JUndefined);
      FileItem "Get.ts" (module (JFunc 13) JUndefined JUndefined)]].

(** The same surroundings without the [tsx] package *)
Definition env_without_tsx (items : list Item) : Env :=
  {| projectRoot := "/app"; routesListing := Some items;
     middlewaresListing := Some middlewares; tsxAvailable := false |}.

(** [auth.js] and [auth.ts] side by side in the middleware directory *)
Definition twin_middlewares : list MiddlewareFile :=
  [middleware "auth.js" 5; middleware "auth.ts" 6;
   middleware "cors._global.js" 3].

(** A module that declares [checkAuth] *)
Definition guarded : Import RouteModule :=
  module (JFunc 15) JUndefined (JArr ["checkAuth"]).

(** The route the report holds for [product/[id]/GET.js] under [/api/] *)
Definition by_id_info : RouteInfo :=
  {| ri_method := "GET"; ri_path := "/api/product/:id";
     ri_file := "src/routes/product/[id]/GET.js";
     ri_fileType := "JavaScript";
     ri_middlewares :=
       [{| mn_name := "cors"; mn_type := "global" |};
        {| mn_name := "logIP"; mn_type := "global" |}];
     ri_handler := "default" |}.
End Sample.

(** * Properties *)

(** ** The stable sort *)

Section SortFacts.
Context {A : Type} (cmp : A -> A -> Z).

Lemma sort_insert_Permutation (x : A) (l : list A) :
  sort_insert cmp x l ≡ₚ x :: l.
Proof.
  induction l as [|y l IH]; simpl; [done|].
  destruct (cmp x y <=? 0)%Z; [done|].
  rewrite IH. apply Permutation_swap.
Qed.

Lemma sort_by_Permutation (l : list A) : sort_by cmp l ≡ₚ l.
Proof.
  induction l as [|x l IH]; simpl; [done|].
  by rewrite sort_insert_Permutation, IH.
Qed.

Lemma sort_by_length (l : list A) : length (sort_by cmp l) = length l.
Proof. apply Permutation_length, sort_by_Permutation. Qed.

Let cmp_le (a b : A) : Prop := (cmp a b <= 0)%Z.

Hypothesis cmp_total : forall a b, cmp_le a b \/ cmp_le b a.
Hypothesis cmp_trans : forall a b c, cmp_le a b -> cmp_le b c -> cmp_le a c.

Lemma sort_insert_sorted (x : A) (l : list A) :
  StronglySorted cmp_le l -> StronglySorted cmp_le (sort_insert cmp x l).
Proof.
  induction 1 as [|y l Hl IH Hy]; simpl.
  - repeat constructor.
  - destruct (Z.leb_spec (cmp x y) 0) as [Hxy|Hxy].
    + constructor; [by constructor|].
      constructor; [done|].
      eapply Forall_impl; [exact Hy|]. intros z Hz. by eapply cmp_trans.
    + constructor; [done|].
      rewrite sort_insert_Permutation. constructor; [|done].
      destruct (cmp_total x y) as [H'|H']; [unfold cmp_le in H'; lia|done].
Qed.

Lemma sort_by_sorted (l : list A) : StronglySorted cmp_le (sort_by cmp l).
Proof.
  induction l as [|x l IH]; simpl; [constructor|].
  by apply sort_insert_sorted.
Qed.
End SortFacts.

(** ** The walk and the sequence of its visits *)

(** Induction on a tree of entries, with the hypothesis for every entry of a
    directory *)
Lemma Item_rect' (P : Item -> Prop) :
  (forall name content, P (FileItem name content)) ->
  (forall name items, Forall P items -> P (DirItem name items)) ->
  forall item, P item.
Proof.
  intros Hfile Hdir.
  fix self 1. intros [name content|name items]; [apply Hfile|].
  apply Hdir. induction items as [|it rest IH]; constructor; [apply self|exact IH].
Qed.

Section RunFacts.
Context {S : Type}.
Variable visit :
  string -> string -> string -> Import RouteModule -> S -> S * Result unit.

Lemma run_app (vs ws : list Visit) (st : S) :
  run visit (vs ++ ws) st =
  match run visit vs st with
  | (st', Ok _) => run visit ws st'
  | (st', Err e) => (st', Err e)
  end.
Proof.
  revert st. induction vs as [|v vs IH]; intros st; simpl; [done|].
  destruct (visit_one visit v st) as [st' [[]|e]]; [apply IH|done].
Qed.

(** The first error ends the run: what comes after the failing visit is
    not looked at. *)
Lemma run_stops (pre post : list Visit) (v : Visit) (st st1 st2 : S)
    (e : Error) :
  run visit pre st = (st1, Ok tt) ->
  visit_one visit v st1 = (st2, Err e) ->
  run visit (pre ++ v :: post) st = (st2, Err e).
Proof.
  intros Hpre Hv. rewrite run_app, Hpre. simpl. by rewrite Hv.
Qed.

Lemma run_continues (pre post : list Visit) (v : Visit) (st st1 st2 : S) :
  run visit pre st = (st1, Ok tt) ->
  visit_one visit v st1 = (st2, Ok tt) ->
  run visit (pre ++ v :: post) st = run visit post st2.
Proof.
  intros Hpre Hv. rewrite run_app, Hpre. simpl. by rewrite Hv.
Qed.

Lemma walk_item_run (item : Item) :
  forall currentDir prefixPath st,
    walk_item visit currentDir prefixPath item st =
    run visit (visits_item currentDir prefixPath item) st.
Proof.
  induction item as [name content|name children IH] using Item_rect';
    intros currentDir prefixPath st.
  - simpl. unfold visit_one. simpl.
    by destruct (visit currentDir prefixPath name content st) as [st' [[]|e]].
  - simpl. revert st.
    induction IH as [|it rest Hit _ IHrest]; intros st; [done|].
    rewrite run_app, <- Hit.
    destruct (walk_item visit _ _ it st) as [st' [[]|e]]; [apply IHrest|done].
Qed.

Lemma walk_run (items : list Item) :
  forall currentDir prefixPath st,
    walk visit currentDir prefixPath items st =
    run visit (visits currentDir prefixPath items) st.
Proof.
  induction items as [|it rest IH]; intros currentDir prefixPath st; [done|].
  simpl. rewrite run_app, <- walk_item_run.
  destruct (walk_item visit _ _ it st) as [st' [[]|e]]; [apply IH|done].
Qed.
End RunFacts.

(** ** Middleware resolution *)

Lemma skip_requested_elem_of (names : list string) :
  existsb (String.eqb skip_marker) names = bool_decide (skip_marker ∈ names).
Proof.
  induction names as [|n names IH]; [done|].
  cbn [existsb]. rewrite IH.
  destruct (String.eqb_spec skip_marker n) as [<-|Hne]; cbn [orb].
  - rewrite (bool_decide_eq_true_2 (skip_marker ∈ skip_marker :: names)); [done|apply list_elem_of_here].
  - apply bool_decide_ext. rewrite elem_of_cons.
    split; [by right|intros [?|?]; done].
Qed.

Lemma requested_filter (names : list string) :
  List.filter (fun name => negb (String.eqb name skip_marker)) names =
  filter (fun name => name ≠ skip_marker) names.
Proof.
  induction names as [|n names IH]; [done|].
  cbn [List.filter]. rewrite filter_cons, IH.
  destruct (String.eqb_spec n skip_marker); simpl; by case_decide.
Qed.

Lemma resolve_requested_found (cache : list (string * JsVal))
    (requested : list string) (fns acc : list JsVal) :
  Forall2 (fun name fn => Cache.get name cache = Some fn) requested fns ->
  resolve_requested cache requested acc = Ok (acc ++ fns).
Proof.
  intros H. revert acc.
  induction H as [|name fn requested fns Hget _ IH]; intros acc; simpl.
  - by rewrite app_nil_r.
  - rewrite Hget, IH, <- app_assoc. done.
Qed.

(** The first requested name the cache does not know is the one reported,
    with the keys of the cache. *)
Lemma resolve_requested_missing (cache : list (string * JsVal))
    (requested : list string) (acc : list JsVal) (missing : string) :
  missing ∈ requested ->
  Cache.get missing cache = None ->
  exists name, name ∈ requested /\ Cache.get name cache = None /\
    resolve_requested cache requested acc =
    Err (MiddlewareNotFound name (Cache.keys cache)).
Proof.
  intros Hin Hnone. revert acc.
  induction requested as [|n requested IH]; intros acc; [by inversion Hin|].
  simpl. destruct (Cache.get n cache) as [fn|] eqn:Hn.
  - assert (missing ∈ requested) as Hin'.
    { apply elem_of_cons in Hin as [->|]; [congruence|done]. }
    destruct (IH Hin' (acc ++ [fn])) as (name & ? & ? & ?).
    exists name. rewrite elem_of_cons. auto.
  - exists n. rewrite elem_of_cons. auto.
Qed.


(** ** Strings *)

Lemma append_cons (c : ascii) (a b : string) :
  String c a +:+ b = String c (a +:+ b).
Proof. reflexivity. Qed.

Lemma append_nil_r (a : string) : a +:+ EmptyString = a.
Proof. induction a as [|c a IH]; [done|]. by rewrite append_cons, IH. Qed.

Lemma append_assoc (a b c : string) : (a +:+ b) +:+ c = a +:+ b +:+ c.
Proof. induction a as [|x a IH]; [done|]. by rewrite !append_cons, IH. Qed.

Lemma mentions_here (before part after : string) :
  mentions (before +:+ part +:+ after) part.
Proof. by exists before, after. Qed.

Lemma mentions_end (before part : string) : mentions (before +:+ part) part.
Proof. exists before, EmptyString. by rewrite append_nil_r. Qed.

Lemma mentions_later (before msg part : string) :
  mentions msg part -> mentions (before +:+ msg) part.
Proof.
  intros (b & a & ->). exists (before +:+ b), a. by rewrite append_assoc.
Qed.

Create HintDb mentions.
#[local] Hint Resolve mentions_here mentions_end mentions_later : mentions.

(** Lower-casing moves neither dots nor slashes. *)
Lemma lower_keeps_marks (c : ascii) :
  Str.is_dot (Str.lower_ascii c) = Str.is_dot c /\
  Str.is_slash (Str.lower_ascii c) = Str.is_slash c.
Proof. destruct c as [[] [] [] [] [] [] [] []]; split; reflexivity. Qed.

Lemma toLowerCase_cons_inv (s : string) (l : ascii) (t : string) :
  Str.toLowerCase s = String l t ->
  exists c s',
    s = String c s' /\ Str.lower_ascii c = l /\ Str.toLowerCase s' = t.
Proof.
  destruct s as [|c s']; [done|]. simpl. intros [= <- <-]. by eexists _, _.
Qed.

Lemma toLowerCase_nil_inv (s : string) :
  Str.toLowerCase s = EmptyString -> s = EmptyString.
Proof. by destruct s. Qed.

(** What a match of the method-file pattern says about the name *)
Lemma methodMatch_inv (name : string) (m : Method) (ext : string) :
  methodMatch name = Some (m, ext) ->
  exists e, (e = "js" \/ e = "ts") /\
    Str.toLowerCase name = method_lower m +:+ "." +:+ e /\
    ext = Str.drop (String.length (method_lower m) + 1) name.
Proof.
  unfold methodMatch. destruct (List.find _ verbs) as [m'|] eqn:Hfind; [|done].
  intros [= -> <-]. apply find_some in Hfind as [_ Hex].
  apply existsb_exists in Hex as (e & He & Heq).
  apply String.eqb_eq in Heq. exists e. split; [|done].
  destruct He as [<-|[<-|[]]]; auto.
Qed.

Lemma includes_slash_join (dir name : string) :
  Str.includes "/" (dir +:+ "/" +:+ name) = true.
Proof.
  induction dir as [|c dir IH]; [done|].
  change (String c dir +:+ ?r) with (String c (dir +:+ r)).
  cbn [Str.includes]. rewrite IH. apply orb_true_r.
Qed.

Lemma basename_join (dir name : string) :
  Str.includes "/" name = false ->
  Str.basename (dir +:+ "/" +:+ name) = name.
Proof.
  intros Hname. induction dir as [|c dir IH].
  - change (EmptyString +:+ "/" +:+ name) with (String "/" name).
    cbn [Str.basename].
    assert (Str.includes "/" (String "/" name) = true) as -> by done.
    destruct name as [|c name]; [done|]. cbn [Str.basename]. by rewrite Hname.
  - change (String c dir +:+ ?r) with (String c (dir +:+ r)).
    cbn [Str.basename].
    pose proof (includes_slash_join (String c dir) name) as H.
    change (String c dir +:+ ?r) with (String c (dir +:+ r)) in H.
    by rewrite H.
Qed.

Lemma extname_after_slash (dir name : string) (m : Method) (ext : string) :
  methodMatch name = Some (m, ext) ->
  Str.extname (dir +:+ "/" +:+ name) = "." +:+ ext.
Proof.
  intros (e & He & Hlow & ->)%methodMatch_inv.
  unfold Str.extname.
  destruct m, He as [-> | ->]; cbn in Hlow.
  all: repeat (apply toLowerCase_cons_inv in Hlow as (? & ? & -> & ? & Hlow)).
  all: apply toLowerCase_nil_inv in Hlow as ->.
  all: repeat match goal with
         | H : Str.lower_ascii ?c = _ |- _ =>
             let Hd := fresh in let Hs := fresh in
             destruct (lower_keeps_marks c) as [Hd Hs];
             rewrite H in Hd, Hs; cbn in Hd, Hs; clear H
         end.
  all: repeat match goal with
         | H : true = Str.is_dot ?c |- _ =>
             symmetry in H; apply Ascii.eqb_eq in H; subst c
         end.
  all: rewrite basename_join.
  all: cbn [Str.fromLastDot Str.includes Str.startsWith].
  all: unfold Str.is_dot, Str.is_slash in *.
  all: repeat match goal with
         | H : false = Ascii.eqb ?c _ |- _ =>
             try rewrite <- H; rewrite Ascii.eqb_sym in H; try rewrite <- H;
             clear H
         end.
  all: reflexivity.
Qed.

(** The extension [path.extname] finds in the path of a method file is the
    one the pattern captured. *)
Lemma extname_method_file (dir name : string) (m : Method) (ext : string) :
  methodMatch name = Some (m, ext) ->
  Str.extname (Str.path_join dir name) = "." +:+ ext.
Proof.
  intros Hm. unfold Str.path_join. destruct (String.eqb dir "/").
  - exact (extname_after_slash EmptyString name m ext Hm).
  - exact (extname_after_slash dir name m ext Hm).
Qed.

Lemma dot_ext_inj (a b : string) : "." +:+ a = "." +:+ b -> a = b.
Proof.
  intros H. change (String "." a = String "." b) in H. by injection H.
Qed.

(** [mentions] is what [includes] decides. *)
Lemma startsWith_append (p rest : string) :
  Str.startsWith p (p +:+ rest) = true.
Proof.
  induction p as [|c p IH]; [done|].
  rewrite (append_cons c p). cbn [Str.startsWith].
  by rewrite Ascii.eqb_refl, IH.
Qed.

Lemma startsWith_inv (p s : string) :
  Str.startsWith p s = true -> exists rest, s = p +:+ rest.
Proof.
  revert s. induction p as [|c p IH]; intros s; [by exists s|].
  destruct s as [|d s]; [done|]. cbn [Str.startsWith].
  intros [->%Ascii.eqb_eq (rest & ->)%IH]%andb_true_iff. by exists rest.
Qed.

Lemma mentions_includes (msg part : string) :
  mentions msg part <-> Str.includes part msg = true.
Proof.
  split.
  - intros (before & rest & ->).
    induction before as [|c before IH].
    + change (EmptyString +:+ ?x) with x.
      destruct (part +:+ rest) eqn:Heq; cbn [Str.includes];
        rewrite <- Heq, startsWith_append; done.
    + rewrite (append_cons c before). cbn [Str.includes].
      by rewrite IH, orb_true_r.
  - induction msg as [|c msg IH]; cbn [Str.includes].
    + rewrite orb_false_r. intros (rest & Heq)%startsWith_inv.
      exists EmptyString, rest. exact Heq.
    + intros [(rest & Heq)%startsWith_inv|Hin]%orb_true_iff.
      * exists EmptyString, rest. exact Heq.
      * destruct (IH Hin) as (before & rest & ->).
        by exists (String c before), rest.
Qed.

(** A signature determines its method and its path. *)
Lemma routeSignature_inj (m0 m : Method) (p0 p : string) :
  routeSignature_of m0 p0 = routeSignature_of m p -> m0 = m /\ p0 = p.
Proof.
  unfold routeSignature_of. destruct m0, m; cbn; intros [= ?]; done.
Qed.

(** ** The catalog's answers inside the walk *)

Lemma cache_keys_known (cache : list (string * JsVal)) (k : string) :
  k ∈ Cache.keys cache <-> Cache.has k cache = true.
Proof.
  unfold Cache.has, Cache.keys.
  induction cache as [|[k' v'] cache IH]; simpl.
  - split; [by inversion 1|done].
  - rewrite elem_of_cons. destruct (String.eqb_spec k' k) as [->|Hne].
    + split; auto.
    + rewrite IH. split; [intros [?|?]; [congruence|done]|auto].
Qed.

(** A resolution error leaves the [try] block as it is thrown, the state
    untouched. *)
Lemma register_load_resolution_error (tsx : bool) (ld : MiddlewareLoader)
    (method : Method) (routePath fullPath : string)
    (content : Import RouteModule) (st : RegState) (m : RouteModule)
    (names : list string) (e : Error) :
  importModule tsx fullPath content = Ok m ->
  rm_middlewares m = JArr names ->
  resolveMiddlewares ld (Some names) = Err e ->
  register_load tsx ld method routePath fullPath content st = (st, Err e).
Proof.
  intros Himp Hmw Hres. unfold register_load.
  rewrite Himp, Hmw. cbn [js_or truthy]. by rewrite Hres.
Qed.

(** C9.  When a declared name other than the skip marker is not in the
    catalog, resolution ends with the error that carries the first such name
    and the keys of the catalog, which are exactly the names the catalog
    knows; its message shows both; and the registration of a route whose
    module declares the list ends with the same error. *)
Theorem unknown_middleware_reported (ld : MiddlewareLoader)
    (names : list string) (missing : string) :
  missing ∈ names ->
  missing ≠ skip_marker ->
  Cache.get missing (middlewareCache ld) = None ->
  exists name,
    let available := Cache.keys (middlewareCache ld) in
    let e := MiddlewareNotFound name available in
    name ∈ names /\ name ≠ skip_marker /\
    Cache.has name (middlewareCache ld) = false /\
    resolveMiddlewares ld (Some names) = Err e /\
    (forall k, k ∈ available <-> Cache.has k (middlewareCache ld) = true) /\
    (exists msg, register_message e = Some msg /\
       mentions msg name /\ mentions msg (Str.join ", " available)) /\
    (forall tsx method routePath fullPath content st m,
       importModule tsx fullPath content = Ok m ->
       rm_middlewares m = JArr names ->
       register_load tsx ld method routePath fullPath content st =
       (st, Err e)).
Proof.
  intros Hin Hne Hnone.
  assert (missing ∈ filter (fun name => name ≠ skip_marker) names) as Hreq.
  { by apply list_elem_of_filter. }
  destruct names as [|n names]; [by inversion Hin|].
  destruct (resolve_requested_missing (middlewareCache ld) _
              (if bool_decide (skip_marker ∈ n :: names) then []
               else map mw_fn (globalMiddlewares ld)) missing Hreq Hnone)
    as (name & Hname & Hget & Hres).
  apply list_elem_of_filter in Hname as [Hskip Hname].
  assert (resolveMiddlewares ld (Some (n :: names)) =
          Err (MiddlewareNotFound name (Cache.keys (middlewareCache ld))))
    as Hresolve.
  { unfold resolveMiddlewares.
    by rewrite requested_filter, skip_requested_elem_of. }
  exists name. repeat split; try done.
  - unfold Cache.has. by rewrite Hget.
  - by apply cache_keys_known.
  - by apply cache_keys_known.
  - eexists. split; [reflexivity|].
    unfold middleware_not_found_message. split; auto 10 with mentions.
  - intros. by eapply register_load_resolution_error.
Qed.

(** ** One visit of the registration walk *)

Section RegisterFacts.
Variable opts : Options.
Variable tsx : bool.
Variable ld : MiddlewareLoader.

Abbreviation step := (visit_one (register_file opts tsx ld)).
Abbreviation np := (normalizedPrefix opts).

(** The [try] block either fails and leaves the state alone, or adds one
    call with the method and the path of the file. *)
Lemma register_load_cases (method : Method) (routePath fullPath : string)
    (content : Import RouteModule) (st st' : RegState) (r : Result unit) :
  register_load tsx ld method routePath fullPath content st = (st', r) ->
  (exists e, r = Err e /\ st' = st) \/
  (exists m names chain,
     r = Ok tt /\
     importModule tsx fullPath content = Ok m /\
     js_or (rm_middlewares m) (JArr []) = JArr names /\
     resolveMiddlewares ld (Some names) = Ok chain /\
     st' = {| app := app st ++
                [{| rc_method := method; rc_path := routePath;
                    rc_middlewares := chain;
                    rc_handler := handler_of m fullPath |}];
              routeRegistry := routeRegistry st;
              fileRegistry := fileRegistry st;
              warnings := warnings st |}).
Proof.
  unfold register_load. intros H.
  destruct (importModule tsx fullPath content) as [m|e]; [|left; eexists; by simplify_eq].
  destruct (js_or (rm_middlewares m) (JArr [])) eqn:Hmw;
    try (left; eexists; by simplify_eq).
  destruct (resolveMiddlewares ld (Some elems)) as [chain|e] eqn:Hres;
    [|left; eexists; by simplify_eq].
  right. exists m, elems, chain. by simplify_eq.
Qed.

(** What a visit does to the application: nothing when it fails or when
    the entry is not a method file, one more call otherwise. *)
Lemma register_file_app (v : Visit) (st st' : RegState) (r : Result unit) :
  step v st = (st', r) ->
  match r, route_of np v with
  | Ok _, Some (method, routePath) =>
      exists call, app st' = app st ++ [call] /\
        rc_method call = method /\ rc_path call = routePath
  | _, _ => app st' = app st
  end.
Proof.
  unfold visit_one, register_file, route_of.
  destruct (methodMatch (v_name v)) as [[method fileExt]|];
    [|intros; by simplify_eq].
  destruct (extension_clash _ _ _); [intros; by simplify_eq|].
  unfold register_record.
  destruct (routeRegistry st !! _) as [prev|];
    [destruct (strict opts); [intros; by simplify_eq|]|];
    intros [(e & -> & ->)|(m & names & chain & -> & _ & _ & _ & ->)]
             %register_load_cases; simpl; eauto.
Qed.

Lemma register_file_app_prefix (v : Visit) (st st' : RegState)
    (r : Result unit) :
  step v st = (st', r) -> exists new, app st' = app st ++ new.
Proof.
  intros H%register_file_app.
  destruct r as [[]|e], (route_of np v) as [[m p]|];
    try (exists []; by rewrite app_nil_r).
  destruct H as (call & -> & _). by eexists.
Qed.

(** The calls of a run that went through: one per method file, in the
    order of the visits. *)
Lemma run_app_routes (vs : list Visit) (st st' : RegState) :
  run (register_file opts tsx ld) vs st = (st', Ok tt) ->
  exists registered,
    app st' = app st ++ registered /\
    map (fun c => (rc_method c, rc_path c)) registered =
    omap (route_of np) vs.
Proof.
  revert st. induction vs as [|v vs IH]; intros st; simpl.
  - intros; simplify_eq. exists []. by rewrite app_nil_r.
  - destruct (step v st) as [st1 [[]|e]] eqn:Hv; [|done].
    intros (registered & -> & Hmap)%IH.
    apply register_file_app in Hv.
    destruct (route_of np v) as [[m p]|].
    + destruct Hv as (call & -> & <- & <-).
      exists (call :: registered). rewrite <- app_assoc. simpl.
      by rewrite Hmap.
    + rewrite Hv. by exists registered.
Qed.

Lemma run_app_prefix (vs : list Visit) (st st' : RegState) (r : Result unit) :
  run (register_file opts tsx ld) vs st = (st', r) ->
  exists new, app st' = app st ++ new.
Proof.
  revert st. induction vs as [|v vs IH]; intros st; simpl.
  - intros; simplify_eq. exists []. by rewrite app_nil_r.
  - destruct (step v st) as [st1 [[]|e]] eqn:Hv.
    + intros (new & ->)%IH.
      apply register_file_app_prefix in Hv as (new1 & ->).
      exists (new1 ++ new). by rewrite app_assoc.
    + intros; simplify_eq. by eapply register_file_app_prefix.
Qed.
(** The call a visit that goes through adds for a method file *)
Lemma register_file_call (v : Visit) (st st' : RegState) (m : Method)
    (ext : string) :
  step v st = (st', Ok tt) ->
  methodMatch (v_name v) = Some (m, ext) ->
  exists hmod chain,
    importModule tsx (v_fullPath v) (v_content v) = Ok hmod /\
    app st' = app st ++
      [{| rc_method := m;
          rc_path := routePath_of np (v_prefixPath v);
          rc_middlewares := chain;
          rc_handler := handler_of hmod (v_fullPath v) |}].
Proof.
  unfold visit_one, register_file. intros H Hm. rewrite Hm in H.
  destruct (extension_clash _ _ _); [by simplify_eq|].
  unfold register_record in H.
  destruct (routeRegistry st !! _) as [prev|];
    [destruct (strict opts); [by simplify_eq|]|];
    apply register_load_cases in H
      as [(e & ? & _)|(hmod & names & chain & _ & ? & _ & _ & ->)];
    try done; by exists hmod, chain.
Qed.

Lemma run_calls (vs : list Visit) (st st' : RegState) :
  run (register_file opts tsx ld) vs st = (st', Ok tt) ->
  forall v m ext,
    v ∈ vs -> methodMatch (v_name v) = Some (m, ext) ->
    exists hmod chain,
      importModule tsx (v_fullPath v) (v_content v) = Ok hmod /\
      {| rc_method := m;
         rc_path := routePath_of np (v_prefixPath v);
         rc_middlewares := chain;
         rc_handler := handler_of hmod (v_fullPath v) |} ∈ app st'.
Proof.
  revert st. induction vs as [|v vs IH]; intros st; simpl.
  - intros _ v m ext Hv. by inversion Hv.
  - destruct (step v st) as [st1 [[]|e]] eqn:Hv; [|done].
    intros Hrun v' m ext [->|Hin]%elem_of_cons Hm; [|by eapply IH].
    destruct (register_file_call _ _ _ _ _ Hv Hm) as (hmod & chain & ? & Happ).
    apply run_app_prefix in Hrun as (new & ->).
    exists hmod, chain. split; [done|]. rewrite Happ.
    apply elem_of_app. left. apply elem_of_app. right.
    apply list_elem_of_here.
Qed.
End RegisterFacts.

(** ** The resolved chain *)

Section ResolvedChain.
Variable localeCompare : string -> string -> Z.
Hypothesis compare_total :
  forall a b : string, (localeCompare a b <= 0 \/ localeCompare b a <= 0)%Z.
Hypothesis compare_trans :
  forall a b c : string,
    (localeCompare a b <= 0 -> localeCompare b c <= 0 ->
     localeCompare a c <= 0)%Z.

Lemma loaded_globals (tsx : bool) (dir : option (list MiddlewareFile))
    (root : string) (ld : MiddlewareLoader) :
  loadMiddlewares localeCompare tsx dir (new_loader root) = (ld, Ok tt) ->
  globalMiddlewares ld =
  sort_by (compare_names localeCompare) (pushed_globals tsx dir root).
Proof.
  unfold loadMiddlewares. simpl. destruct dir as [files|]; simpl.
  - destruct (load_files tsx files (new_loader root)) as [ld' [[]|e]];
      intros; by simplify_eq/=.
  - intros; by simplify_eq/=.
Qed.

(** C1.  After [loadMiddlewares], the global middlewares are the ones the
    load pushed, sorted by name with [localeCompare]; the chain resolved
    for an omitted or empty declaration is exactly their callables; the
    chain resolved for a declared list whose names other than the skip
    marker are all in the catalog is the global callables, left out when
    the list contains the skip marker, followed by the catalog callables
    of the declared names other than the marker, in the declared order; and
    the chain a registered route is handed to the host with is the chain
    resolved for the list its module declares, the empty list when the
    module declares none. *)
Theorem resolved_chain (tsx : bool) (dir : option (list MiddlewareFile))
    (root : string) (ld : MiddlewareLoader) :
  loadMiddlewares localeCompare tsx dir (new_loader root) = (ld, Ok tt) ->
  let globals := map mw_fn (globalMiddlewares ld) in
  StronglySorted (name_le localeCompare) (globalMiddlewares ld) /\
  globalMiddlewares ld ≡ₚ pushed_globals tsx dir root /\
  resolveMiddlewares ld None = Ok globals /\
  resolveMiddlewares ld (Some []) = Ok globals /\
  (forall (names : list string) (fns : list JsVal),
     names <> [] ->
     Forall2 (fun name fn => Cache.get name (middlewareCache ld) = Some fn)
       (filter (fun name => name ≠ skip_marker) names) fns ->
     resolveMiddlewares ld (Some names) =
     Ok ((if bool_decide (skip_marker ∈ names) then [] else globals) ++ fns)) /\
  (forall method routePath fullPath content st st',
     register_load tsx ld method routePath fullPath content st = (st', Ok tt) ->
     exists m names chain,
       importModule tsx fullPath content = Ok m /\
       js_or (rm_middlewares m) (JArr []) = JArr names /\
       (rm_middlewares m = JUndefined -> names = []) /\
       resolveMiddlewares ld (Some names) = Ok chain /\
       app st' = app st ++
         [{| rc_method := method; rc_path := routePath;
             rc_middlewares := chain;
             rc_handler := handler_of m fullPath |}]).
Proof.
  intros Hload globals. rewrite (loaded_globals _ _ _ _ Hload).
  split; [|split; [|split; [|split; [|split]]]]; try done.
  - apply (sort_by_sorted (compare_names localeCompare)).
    + intros a b. apply compare_total.
    + intros a b c. apply compare_trans.
  - apply sort_by_Permutation.
  - intros names fns Hne Hfound.
    destruct names as [|n names]; [done|].
    unfold resolveMiddlewares.
    rewrite requested_filter, skip_requested_elem_of.
    by apply resolve_requested_found.
  - intros method routePath fullPath content st st'
      [(e & ? & _)|(m & names & chain & _ & Himp & Hmw & Hres & ->)]
        %register_load_cases; [done|].
    exists m, names, chain. repeat split; try done.
    intros Hundef. rewrite Hundef in Hmw. by injection Hmw as <-.
Qed.
End ResolvedChain.

(** ** The two registries along the registration walk *)

Ltac register_cases H :=
  unfold visit_one, register_file, register_record in H;
  repeat match type of H with
         | context [match ?x with _ => _ end] => destruct x eqn:?
         end;
  try (apply register_load_cases in H
         as [(? & ? & ?)|(? & ? & ? & ? & ? & ? & ? & ?)]);
  simplify_eq/=.

Section RegistryFacts.
Variable opts : Options.
Variable tsx : bool.
Variable ld : MiddlewareLoader.

Abbreviation step := (visit_one (register_file opts tsx ld)).
Abbreviation np := (normalizedPrefix opts).

(** An entry of [routeRegistry] is never replaced. *)
Lemma routeRegistry_kept (v : Visit) (st st' : RegState) (r : Result unit)
    (k x : string) :
  step v st = (st', r) ->
  routeRegistry st !! k = Some x -> routeRegistry st' !! k = Some x.
Proof.
  intros H Hk. register_cases H; try done.
  all: rewrite lookup_insert_ne; [done|congruence].
Qed.

(** After a visit that went through, the fingerprint of its route is in
    [routeRegistry]. *)
Lemma routeRegistry_records (v : Visit) (st st' : RegState) (m : Method)
    (p : string) :
  step v st = (st', Ok tt) ->
  route_of np v = Some (m, p) ->
  is_Some (routeRegistry st' !! fingerprint_of m p).
Proof.
  unfold route_of. intros H Hr. register_cases H; try done.
  by rewrite lookup_insert_eq.
Qed.

(** An entry of [routeRegistry] was there before the visit or is the file of
    the visit under the fingerprint of its route. *)
Lemma routeRegistry_origin (v : Visit) (st st' : RegState) (r : Result unit)
    (k x : string) :
  step v st = (st', r) ->
  routeRegistry st' !! k = Some x ->
  routeRegistry st !! k = Some x \/
  (x = v_fullPath v /\
   exists m p, route_of np v = Some (m, p) /\ k = fingerprint_of m p).
Proof.
  unfold route_of. intros H Hk. register_cases H; auto.
  all: apply lookup_insert_Some in Hk as [[<- <-]|[_ ?]]; [right|by left].
  all: split; [done|]; by eexists _, _.
Qed.

(** The same for [fileRegistry] and the signature of the route *)
Lemma fileRegistry_origin (v : Visit) (st st' : RegState) (r : Result unit)
    (k x : string) :
  step v st = (st', r) ->
  fileRegistry st' !! k = Some x ->
  fileRegistry st !! k = Some x \/
  (x = v_fullPath v /\
   exists m p, route_of np v = Some (m, p) /\ k = routeSignature_of m p).
Proof.
  unfold route_of. intros H Hk. register_cases H; auto.
  all: apply lookup_insert_Some in Hk as [[<- <-]|[_ ?]]; [right|by left].
  all: split; [done|]; by eexists _, _.
Qed.

Lemma first_with_fingerprint_app (k : string) (calls new : list RouteCall) :
  is_Some (first_with_fingerprint k calls) ->
  first_with_fingerprint k (calls ++ new) = first_with_fingerprint k calls.
Proof.
  unfold first_with_fingerprint. intros [c Hc].
  induction calls as [|c' calls IH]; simpl in *; [done|].
  destruct (String.eqb _ k); [done|]. by apply IH.
Qed.

Lemma first_with_fingerprint_last (m : Method) (p : string)
    (calls : list RouteCall) (call : RouteCall) :
  rc_method call = m -> rc_path call = p ->
  is_Some (first_with_fingerprint (fingerprint_of m p) (calls ++ [call])).
Proof.
  intros <- <-. unfold first_with_fingerprint.
  induction calls as [|c' calls IH]; simpl.
  - rewrite String.eqb_refl. by eexists.
  - destruct (String.eqb _ _); [by eexists|done].
Qed.

Lemma registry_backed_step (v : Visit) (st st' : RegState) :
  step v st = (st', Ok tt) -> registry_backed st -> registry_backed st'.
Proof.
  intros H Hinv k Hk. register_cases H; auto.
  - rewrite first_with_fingerprint_app; auto.
  - destruct (decide (fingerprint_of m (routePath_of np (v_prefixPath v)) = k))
      as [<-|Hne].
    + by apply first_with_fingerprint_last.
    + rewrite lookup_insert_ne in Hk by done.
      rewrite first_with_fingerprint_app; auto.
Qed.

Lemma run_registry (vs : list Visit) (st st' : RegState) :
  run (register_file opts tsx ld) vs st = (st', Ok tt) ->
  registry_backed st ->
  registry_backed st' /\
  (forall v m p, v ∈ vs -> route_of np v = Some (m, p) ->
     is_Some (routeRegistry st' !! fingerprint_of m p)) /\
  (forall k x, routeRegistry st' !! k = Some x ->
     routeRegistry st !! k = Some x \/
     exists v m p, v ∈ vs /\ x = v_fullPath v /\
       route_of np v = Some (m, p) /\ k = fingerprint_of m p) /\
  (forall k x, fileRegistry st' !! k = Some x ->
     fileRegistry st !! k = Some x \/
     exists v m p, v ∈ vs /\ x = v_fullPath v /\
       route_of np v = Some (m, p) /\ k = routeSignature_of m p).
Proof.
  revert st. induction vs as [|v vs IH]; intros st; simpl.
  - intros ? Hinv; simplify_eq. repeat split; auto.
    intros v m p Hv. by inversion Hv.
  - destruct (step v st) as [st1 [[]|e]] eqn:Hv; [|done].
    intros Hrun Hinv.
    destruct (IH st1 Hrun (registry_backed_step _ _ _ Hv Hinv))
      as (Hinv' & Hrec & Hroute & Hfile).
    split; [done|]. split; [|split].
    + intros v' m p [->|Hin]%elem_of_cons Hr; [|by eapply Hrec].
      destruct (routeRegistry_records _ _ _ _ _ Hv Hr) as [x Hx].
      assert (forall vs' s s', run (register_file opts tsx ld) vs' s = (s', Ok tt) ->
                routeRegistry s !! fingerprint_of m p = Some x ->
                routeRegistry s' !! fingerprint_of m p = Some x) as Hkeep.
      { clear. induction vs' as [|w vs' IHw]; intros s s'; simpl.
        - intros; by simplify_eq.
        - destruct (step w s) as [s1 [[]|e]] eqn:Hw; [|done].
          intros Hr Hs. eapply IHw; [done|]. by eapply routeRegistry_kept. }
      eexists. by eapply Hkeep.
    + intros k x [Hk|(v' & m & p & ? & ? & ? & ?)]%Hroute.
      * destruct (routeRegistry_origin _ _ _ _ _ _ Hv Hk)
          as [?|(-> & m & p & ? & ->)]; [by left|right].
        exists v, m, p. rewrite elem_of_cons. auto.
      * right. exists v', m, p. rewrite elem_of_cons. auto.
    + intros k x [Hk|(v' & m & p & ? & ? & ? & ?)]%Hfile.
      * destruct (fileRegistry_origin _ _ _ _ _ _ Hv Hk)
          as [?|(-> & m & p & ? & ->)]; [by left|right].
        exists v, m, p. rewrite elem_of_cons. auto.
      * right. exists v', m, p. rewrite elem_of_cons. auto.
Qed.
End RegistryFacts.

Lemma fresh_backed (app0 : list RouteCall) : registry_backed (fresh app0).
Proof. intros k [x Hx]. done. Qed.

(** ** Conflicts *)

Section Conflicts.
Variable opts : Options.
Variable tsx : bool.
Variable ld : MiddlewareLoader.

Abbreviation step := (visit_one (register_file opts tsx ld)).
Abbreviation np := (normalizedPrefix opts).

(** When the file recorded for the signature of a method file has another
    extension, the walk ends at that file with the extension conflict,
    whatever the options say, and the state is the one the walk had reached;
    the message shows the recorded file, the current file and the method and
    path they share; the recorded file is an earlier method file of the walk
    with the same signature. *)
Lemma extension_conflict_at_record (app0 : list RouteCall)
    (pre post : list Visit) (v : Visit) (st1 : RegState)
    (m : Method) (ext existing : string) :
  run (register_file opts tsx ld) pre (fresh app0) = (st1, Ok tt) ->
  methodMatch (v_name v) = Some (m, ext) ->
  let routePath := routePath_of np (v_prefixPath v) in
  fileRegistry st1 !! routeSignature_of m routePath = Some existing ->
  Str.extname existing ≠ "." +:+ ext ->
  let e := ExtensionConflict existing (v_fullPath v) m routePath in
  run (register_file opts tsx ld) (pre ++ v :: post) (fresh app0) =
    (st1, Err e) /\
  (exists msg, register_message e = Some msg /\
     mentions msg existing /\ mentions msg (v_fullPath v) /\
     mentions msg ("[" +:+ method_upper m +:+ "] " +:+ routePath)) /\
  (exists v0 m0 p0, v0 ∈ pre /\ existing = v_fullPath v0 /\
     route_of np v0 = Some (m0, p0) /\
     routeSignature_of m0 p0 = routeSignature_of m routePath).
Proof.
  intros Hpre Hm routePath Hreg Hext e. split; [|split].
  - eapply run_stops; [done|].
    unfold visit_one, register_file, extension_clash.
    rewrite Hm. fold routePath. rewrite Hreg.
    destruct (String.eqb_spec (Str.extname existing) ("." +:+ ext)); done.
  - eexists. split; [reflexivity|]. unfold extension_conflict_message.
    repeat split.
    + auto 10 with mentions.
    + auto 20 with mentions.
    + exists ("File extension conflict detected!" +:+ nl +:+ nl +:+
              "Files:" +:+ nl +:+ "→ " +:+ existing +:+ nl +:+
              "→ " +:+ v_fullPath v +:+ nl +:+ nl +:+ "Both resolve to: "),
             (nl +:+ nl +:+
              "You cannot have both .js and .ts files for the same route." +:+
              nl +:+ "Please keep only one version.").
      rewrite !append_assoc. reflexivity.
  - destruct (run_registry opts tsx ld pre _ _ Hpre) as (_ & _ & _ & Hfile).
    { apply fresh_backed. }
    destruct (Hfile _ _ Hreg) as [Hx|(v0 & m0 & p0 & ? & ? & ? & ?)].
    + done.
    + by exists v0, m0, p0.
Qed.

(** What a visit that goes through does to [fileRegistry] *)
Lemma register_file_records (v : Visit) (st st' : RegState) :
  step v st = (st', Ok tt) ->
  match methodMatch (v_name v) with
  | Some (m, e) =>
      let signature :=
        routeSignature_of m (routePath_of np (v_prefixPath v)) in
      extension_clash (fileRegistry st) signature e = None /\
      fileRegistry st' = <[signature := v_fullPath v]> (fileRegistry st)
  | None => fileRegistry st' = fileRegistry st
  end.
Proof.
  intros H. register_cases H; done.
Qed.

Lemma extensions_recorded_step (seen : list Visit) (v : Visit)
    (st st' : RegState) :
  step v st = (st', Ok tt) ->
  extensions_recorded np seen st ->
  extensions_recorded np (seen ++ [v]) st'.
Proof.
  intros Hstep Hinv v0 m0 e0 Hin Hm0.
  apply register_file_records in Hstep.
  destruct (methodMatch (v_name v)) as [[m e]|] eqn:Hm.
  - destruct Hstep as [Hclash ->].
    destruct (decide (routeSignature_of m (routePath_of np (v_prefixPath v)) =
                      routeSignature_of m0 (routePath_of np (v_prefixPath v0))))
      as [Heq|Hne].
    + rewrite <- Heq, lookup_insert_eq. eexists. split; [done|].
      unfold v_fullPath. rewrite (extname_method_file _ _ _ _ Hm).
      apply elem_of_app in Hin as [Hin|Hin].
      * destruct (Hinv _ _ _ Hin Hm0) as (f & Hf & Hext).
        unfold extension_clash in Hclash. rewrite Heq, Hf in Hclash.
        destruct (String.eqb_spec (Str.extname f) ("." +:+ e)) as [He|];
          [|done].
        by rewrite <- He.
      * apply list_elem_of_singleton in Hin as ->. congruence.
    + rewrite lookup_insert_ne by done.
      apply elem_of_app in Hin as [Hin|Hin]; [by eapply Hinv|].
      apply list_elem_of_singleton in Hin as ->. simplify_eq.
  - rewrite Hstep. apply elem_of_app in Hin as [Hin|Hin]; [by eapply Hinv|].
    apply list_elem_of_singleton in Hin as ->. congruence.
Qed.

Lemma run_extensions_recorded (vs seen : list Visit) (st st' : RegState) :
  run (register_file opts tsx ld) vs st = (st', Ok tt) ->
  extensions_recorded np seen st ->
  extensions_recorded np (seen ++ vs) st'.
Proof.
  revert seen st. induction vs as [|v vs IH]; intros seen st; simpl.
  - intros ? Hinv; simplify_eq. by rewrite app_nil_r.
  - destruct (step v st) as [st1 [[]|e]] eqn:Hv; [|done].
    intros Hrun Hinv.
    replace (seen ++ v :: vs) with ((seen ++ [v]) ++ vs)
      by (by rewrite <- app_assoc).
    eapply IH; [done|]. by eapply extensions_recorded_step.
Qed.

(** The file recorded for a signature is the one of the last method file
    met with that signature. *)
Lemma run_fileRegistry_last (vs : list Visit) :
  forall (st st' : RegState) (k x : string),
    run (register_file opts tsx ld) vs st = (st', Ok tt) ->
    fileRegistry st' !! k = Some x ->
    (fileRegistry st !! k = Some x /\
     Forall (fun v => forall m p, route_of np v = Some (m, p) ->
                                  routeSignature_of m p <> k) vs) \/
    (exists before v0 after m p,
       vs = before ++ v0 :: after /\ x = v_fullPath v0 /\
       route_of np v0 = Some (m, p) /\ k = routeSignature_of m p /\
       Forall (fun v => forall m' p', route_of np v = Some (m', p') ->
                                      routeSignature_of m' p' <> k) after).
Proof.
  induction vs as [|v vs IH]; intros st st' k x; cbn [run].
  - intros [= <-] Hk. left. by split.
  - destruct (step v st) as [st1 [[]|e]] eqn:Hv; [|done].
    intros Hrun Hk.
    destruct (IH st1 st' k x Hrun Hk)
      as [[Hk1 Hrest]|(before & v0 & after & m & p & -> & ? & ? & ? & ?)].
    + apply register_file_records in Hv. unfold route_of in *.
      destruct (methodMatch (v_name v)) as [[m e]|] eqn:Hm.
      * destruct Hv as [_ Hv]. rewrite Hv in Hk1.
        destruct (decide
                    (routeSignature_of m (routePath_of np (v_prefixPath v))
                     = k)) as [Heq|Hne].
        -- rewrite Heq, lookup_insert_eq in Hk1. injection Hk1 as <-.
           right. exists [], v, vs, m, (routePath_of np (v_prefixPath v)).
           unfold route_of. rewrite Hm. by repeat split.
        -- rewrite lookup_insert_ne in Hk1 by done. left. split; [done|].
           constructor; [|done]. rewrite Hm. by intros ? ? [= <- <-].
      * rewrite Hv in Hk1. left. split; [done|].
        constructor; [|done]. by rewrite Hm.
    + right. exists (v :: before), v0, after, m, p. by repeat split.
Qed.

(** C3, amended.  Take a method file met after an earlier method file with
    the same method and the same final path and another extension.
    Whatever the options say, the walk ends at the later file with the
    extension conflict, in the state it had reached.  The message of the
    error shows the later file, the method and path the two share, and the
    file recorded for them: the last of the earlier method files with that
    method and that path, which has the extension of the earlier file and
    is the earlier file itself when no other earlier file has its method and
    path. *)
Theorem extension_conflict_fatal (app0 : list RouteCall)
    (pre post : list Visit) (v1 v2 : Visit) (st1 : RegState)
    (m : Method) (ext1 ext2 : string) :
  run (register_file opts tsx ld) pre (fresh app0) = (st1, Ok tt) ->
  v1 ∈ pre ->
  methodMatch (v_name v1) = Some (m, ext1) ->
  methodMatch (v_name v2) = Some (m, ext2) ->
  let routePath := routePath_of np (v_prefixPath v2) in
  routePath_of np (v_prefixPath v1) = routePath ->
  ext1 ≠ ext2 ->
  exists existing,
    let e := ExtensionConflict existing (v_fullPath v2) m routePath in
    run (register_file opts tsx ld) (pre ++ v2 :: post) (fresh app0) =
      (st1, Err e) /\
    (exists msg, register_message e = Some msg /\
       mentions msg existing /\ mentions msg (v_fullPath v2) /\
       mentions msg ("[" +:+ method_upper m +:+ "] " +:+ routePath)) /\
    (exists before v0 after,
       pre = before ++ v0 :: after /\ existing = v_fullPath v0 /\
       methodMatch (v_name v0) = Some (m, ext1) /\
       routePath_of np (v_prefixPath v0) = routePath /\
       Forall (fun v => route_of np v <> Some (m, routePath)) after) /\
    ((forall v0, v0 ∈ pre ->
        route_of np v0 = Some (m, routePath) -> v0 = v1) ->
     existing = v_fullPath v1).
Proof.
  intros Hpre Hin Hm1 Hm2 routePath Hpath Hext.
  destruct (run_extensions_recorded pre [] _ _ Hpre) with (v0 := v1)
    (m := m) (e0 := ext1) as (existing & Hreg & Hexisting); [|done|done|].
  { intros v0 ? ? Hv0. by inversion Hv0. }
  rewrite Hpath in Hreg. exists existing.
  destruct (extension_conflict_at_record app0 pre post v2 st1 m ext2 existing
              Hpre Hm2 Hreg) as (Hrun & Hmsg & _).
  { rewrite Hexisting. by intros ?%dot_ext_inj. }
  destruct (run_fileRegistry_last pre _ _ _ _ Hpre Hreg)
    as [[Hnone _]|(before & v0 & after & m0 & p0 & Hsplit & -> & Hr0 & Hsig
                   & Hafter)]; [done|].
  symmetry in Hsig. apply routeSignature_inj in Hsig as [-> ->].
  assert (methodMatch (v_name v0) = Some (m, ext1) /\
          routePath_of np (v_prefixPath v0) = routePath) as [Hm0 Hp0].
  { unfold route_of in Hr0.
    destruct (methodMatch (v_name v0)) as [[m0 e0]|] eqn:Hm0; [|done].
    injection Hr0 as -> Hp0. split; [|done].
    unfold v_fullPath in Hexisting.
    rewrite (extname_method_file _ _ _ _ Hm0) in Hexisting.
    by apply dot_ext_inj in Hexisting as ->. }
  repeat split; try done.
  - exists before, v0, after. repeat split; try done.
    eapply Forall_impl; [exact Hafter|]. intros v Hv Hr. by eapply Hv.
  - intros Honly. f_equal. apply Honly; [|unfold route_of; by rewrite Hm0, Hp0].
    rewrite Hsplit. apply elem_of_app. right. apply list_elem_of_here.
Qed.

(** C2, amended.  Take a method file met after an earlier method file with
    the same method and the same fingerprint, and let the extension check
    pass.  Then [routeRegistry] holds for the fingerprint an earlier method
    file of the walk.  In strict mode the walk ends there with the dynamic
    conflict and nothing after it is processed.  Otherwise the conflict is
    printed as a warning, [routeRegistry] is unchanged, the first call the
    application holds for the fingerprint is the one it held before, and the
    later file, when it goes through, is handed to the host after the calls
    already made. *)
Theorem dynamic_conflict_outcome (app0 : list RouteCall)
    (pre post : list Visit) (v1 v2 : Visit) (st1 : RegState)
    (m : Method) (p1 ext2 : string) :
  run (register_file opts tsx ld) pre (fresh app0) = (st1, Ok tt) ->
  v1 ∈ pre ->
  route_of np v1 = Some (m, p1) ->
  methodMatch (v_name v2) = Some (m, ext2) ->
  let p2 := routePath_of np (v_prefixPath v2) in
  let fp := fingerprint_of m p2 in
  fingerprint_of m p1 = fp ->
  extension_clash (fileRegistry st1) (routeSignature_of m p2) ext2 = None ->
  exists prev,
    let conflict := DynamicConflict prev (v_fullPath v2) m p2 in
    routeRegistry st1 !! fp = Some prev /\
    (exists v0 m0 p0, v0 ∈ pre /\ prev = v_fullPath v0 /\
       route_of np v0 = Some (m0, p0) /\ fingerprint_of m0 p0 = fp) /\
    if strict opts then
      run (register_file opts tsx ld) (pre ++ v2 :: post) (fresh app0) =
        (st1, Err conflict)
    else
      exists st2 r,
        step v2 st1 = (st2, r) /\
        warnings st2 = warnings st1 ++ [conflict] /\
        routeRegistry st2 = routeRegistry st1 /\
        is_Some (first_with_fingerprint fp (app st1)) /\
        first_with_fingerprint fp (app st2) =
          first_with_fingerprint fp (app st1) /\
        (r = Ok tt ->
         exists call, app st2 = app st1 ++ [call] /\
           rc_method call = m /\ rc_path call = p2).
Proof.
  intros Hpre Hin Hr1 Hm2 p2 fp Hfp Hclash.
  destruct (run_registry opts tsx ld pre _ _ Hpre)
    as (Hback & Hrec & Hroute & _).
  { apply fresh_backed. }
  destruct (Hrec _ _ _ Hin Hr1) as [prev Hprev]. rewrite Hfp in Hprev.
  exists prev. split; [done|]. split.
  { destruct (Hroute _ _ Hprev) as [Hx|(v0 & m0 & p0 & ? & ? & ? & ?)].
    - done.
    - by exists v0, m0, p0. }
  assert (step v2 st1 =
          if strict opts
          then (st1, Err (DynamicConflict prev (v_fullPath v2) m p2))
          else register_record tsx ld m p2 (routeSignature_of m p2)
                 (v_fullPath v2) (v_content v2)
                 {| app := app st1; routeRegistry := routeRegistry st1;
                    fileRegistry := fileRegistry st1;
                    warnings := warnings st1 ++
                      [DynamicConflict prev (v_fullPath v2) m p2] |})
    as Hstep.
  { unfold visit_one, register_file. rewrite Hm2. fold p2. rewrite Hclash.
    fold fp. by rewrite Hprev. }
  destruct (strict opts).
  - by eapply run_stops.
  - destruct (step v2 st1) as [st2 r] eqn:Hv2. exists st2, r.
    split; [done|]. symmetry in Hstep. unfold register_record in Hstep.
    assert (is_Some (first_with_fingerprint fp (app st1))) as Hfirst.
    { apply Hback. by eexists. }
    apply register_load_cases in Hstep
      as [(e & -> & ->)|(mo & names & chain & -> & _ & _ & _ & ->)]; simpl.
    + done.
    + repeat split; try done; [by apply first_with_fingerprint_app|].
      intros _. by eexists.
Qed.
End Conflicts.

(** ** Failures and the application *)

Section Failures.
Variable opts : Options.
Variable tsx : bool.
Variable ld : MiddlewareLoader.

Abbreviation step := (visit_one (register_file opts tsx ld)).
Abbreviation np := (normalizedPrefix opts).

(** A method file that passes both conflict checks reaches the [try] block
    with the application as it was. *)
Lemma register_file_reaches_load (v : Visit) (st : RegState) (m : Method)
    (ext : string) :
  methodMatch (v_name v) = Some (m, ext) ->
  let routePath := routePath_of np (v_prefixPath v) in
  extension_clash (fileRegistry st) (routeSignature_of m routePath) ext = None ->
  strict opts = false \/ routeRegistry st !! fingerprint_of m routePath = None ->
  exists st_mid,
    app st_mid = app st /\
    step v st =
    register_load tsx ld m routePath (v_fullPath v) (v_content v) st_mid.
Proof.
  intros Hm routePath Hclash Hdyn. subst routePath.
  unfold visit_one, register_file, register_record.
  rewrite Hm, Hclash.
  destruct (routeRegistry st !! _) as [prev|] eqn:Hprev.
  - destruct Hdyn as [->|?]; [|congruence].
    eexists. split; [|reflexivity]. done.
  - eexists. split; [|reflexivity]. done.
Qed.

(** The catalog never answers with the missing-handler error. *)
Lemma resolveMiddlewares_no_missing_handler (names : option (list string))
    (p : string) :
  resolveMiddlewares ld names ≠ Err (NoHandlerExported p).
Proof.
  unfold resolveMiddlewares. destruct names as [[|n names]|]; try done.
  generalize (if existsb (String.eqb skip_marker) (n :: names)
              then [] else map mw_fn (globalMiddlewares ld)).
  generalize (List.filter (fun name => negb (String.eqb name skip_marker))
                (n :: names)).
  intros l. induction l as [|x l IH]; intros acc; simpl; [done|].
  destruct (Cache.get x _); [apply IH|done].
Qed.

Lemma importModule_no_missing_handler (fullPath : string)
    (content : Import RouteModule) (p : string) :
  importModule tsx fullPath content ≠ Err (NoHandlerExported p).
Proof. unfold importModule. by repeat case_match. Qed.

(** No visit of the registration walk ends with the missing-handler
    error. *)
Lemma register_file_no_missing_handler (v : Visit) (st st' : RegState)
    (r : Result unit) (p : string) :
  step v st = (st', r) -> r ≠ Err (NoHandlerExported p).
Proof.
  intros H ->.
  unfold visit_one, register_file, register_record in H.
  repeat match type of H with
         | context [match ?x with _ => _ end] => destruct x eqn:?
         end; simplify_eq.
  all: unfold register_load in H.
  all: destruct (importModule tsx _ _) eqn:Himp;
    [|simplify_eq; by eapply importModule_no_missing_handler].
  all: destruct (js_or _ _); simplify_eq.
  all: destruct (resolveMiddlewares ld _) eqn:Hres; simplify_eq.
  all: by eapply resolveMiddlewares_no_missing_handler.
Qed.

(** C7.  A method file whose module has no usable [default] and no usable
    [handler] export, and with which nothing else is wrong, is registered:
    the visit goes through and hands the host the route with the substitute
    handler.  Calling that handler throws the error that names the file.  No
    visit ever ends with that error, and whenever a walk that meets the file
    goes through, the application holds the route with the substitute
    handler. *)
Theorem missing_handler_deferred (v : Visit) (st : RegState) (m : Method)
    (ext : string) (hmod : RouteModule) (names : list string)
    (chain : list JsVal) :
  methodMatch (v_name v) = Some (m, ext) ->
  importModule tsx (v_fullPath v) (v_content v) = Ok hmod ->
  truthy (rm_default hmod) = false ->
  truthy (rm_handler hmod) = false ->
  let routePath := routePath_of np (v_prefixPath v) in
  extension_clash (fileRegistry st) (routeSignature_of m routePath) ext = None ->
  strict opts = false \/ routeRegistry st !! fingerprint_of m routePath = None ->
  js_or (rm_middlewares hmod) (JArr []) = JArr names ->
  resolveMiddlewares ld (Some names) = Ok chain ->
  let substitute := ThrowingHandler (v_fullPath v) in
  (exists st',
     step v st = (st', Ok tt) /\
     app st' = app st ++
       [{| rc_method := m; rc_path := routePath;
           rc_middlewares := chain; rc_handler := substitute |}]) /\
  invoke substitute = Throws (NoHandlerExported (v_fullPath v)) /\
  (exists msg,
     register_message (NoHandlerExported (v_fullPath v)) = Some msg /\
     mentions msg (v_fullPath v)) /\
  (forall st0 st' r p, step v st0 = (st', r) -> r ≠ Err (NoHandlerExported p)) /\
  (forall vs st0 st',
     run (register_file opts tsx ld) vs st0 = (st', Ok tt) ->
     v ∈ vs ->
     exists call,
       call ∈ app st' /\ rc_method call = m /\ rc_path call = routePath /\
       rc_handler call = substitute).
Proof.
  intros Hm Himp Hdef Hhan routePath Hclash Hdyn Hmw Hres substitute.
  split; [|split; [done|split; [|split]]].
  - destruct (register_file_reaches_load v st m ext Hm Hclash Hdyn)
      as (st_mid & Happ & ->).
    unfold register_load. rewrite Himp, Hmw, Hres.
    eexists. split; [reflexivity|]. simpl. rewrite Happ.
    unfold handler_of. by rewrite Hdef, Hhan.
  - eexists. split; [reflexivity|]. apply mentions_end.
  - intros. by eapply register_file_no_missing_handler.
  - intros vs st0 st' Hrun Hin.
    destruct (run_calls opts tsx ld vs st0 st' Hrun v m ext Hin Hm)
      as (hmod' & chain' & Himp' & Hcall).
    rewrite Himp in Himp'. injection Himp' as <-.
    eexists. split; [exact Hcall|]. repeat split.
    unfold handler_of. by rewrite Hdef, Hhan.
Qed.

End Failures.

(** C6.  When the walk of [registerRoutes] fails at a file after the files
    before it went through, the call returns the error together with an
    application that holds, after the calls it had at the start, one call
    for every method file that went through, in the order of the walk. *)
Theorem no_rollback (localeCompare : string -> string -> Z) (env : Env)
    (app0 : list RouteCall) (routesDir : string) (opts : Options)
    (items : list Item) (ld : MiddlewareLoader) (pre post : list Visit)
    (v : Visit) (st1 st2 : RegState) (e : Error) :
  routesListing env = Some items ->
  loadMiddlewares localeCompare (tsxAvailable env) (middlewaresListing env)
    (new_loader (projectRoot env)) = (ld, Ok tt) ->
  visits (baseDir_of env routesDir) EmptyString items = pre ++ v :: post ->
  run (register_file opts (tsxAvailable env) ld) pre (fresh app0) =
    (st1, Ok tt) ->
  visit_one (register_file opts (tsxAvailable env) ld) v st1 = (st2, Err e) ->
  exists registered,
    registerRoutes localeCompare env app0 routesDir opts =
      (app0 ++ registered, warnings st2, Err e) /\
    map (fun c => (rc_method c, rc_path c)) registered =
      omap (route_of (normalizedPrefix opts)) pre.
Proof.
  intros Hitems Hload Hvisits Hpre Hv.
  destruct (run_app_routes _ _ _ _ _ _ Hpre) as (registered & Happ & Hmap).
  exists registered. split; [|done].
  unfold registerRoutes, register_walk.
  rewrite Hitems, Hload, walk_run, Hvisits.
  change {| app := app0; routeRegistry := ∅; fileRegistry := ∅;
            warnings := [] |} with (fresh app0).
  rewrite (run_stops _ _ _ _ _ _ _ _ Hpre Hv).
  apply register_file_app in Hv. simpl in Happ.
  by rewrite Hv, Happ.
Qed.

(** ** Introspection against live registration *)

Section Agreement.
Variable opts : Options.
Variable tsx : bool.
Variable root : string.
Variable ld : MiddlewareLoader.
Variable app0 : list RouteCall.

Lemma load_agree (method : Method) (fileExt routePath fullPath : string)
    (content : Import RouteModule) (sr : RegState) (si : InsState) :
  agree app0 sr si ->
  exists sr' si' r,
    register_load tsx ld method routePath fullPath content sr = (sr', r) /\
    inspect_load tsx root ld method fileExt routePath fullPath content si =
      (si', r) /\
    agree app0 sr' si'.
Proof.
  intros Hagree. unfold register_load, inspect_load.
  destruct (importModule tsx fullPath content) as [m|e]; [|by eexists _, _, _].
  destruct (js_or (rm_middlewares m) (JArr [])); try by eexists _, _, _.
  destruct (resolveMiddlewares ld (Some elems)); [|by eexists _, _, _].
  eexists _, _, _. split; [done|]. split; [done|].
  destruct Hagree as (? & ? & ? & new & Happ & Hnew).
  repeat split; try done. simpl.
  eexists (new ++ [_]). rewrite Happ, <- app_assoc. split; [done|].
  unfold handed, reported in *. rewrite !map_app, Hnew. done.
Qed.

Lemma visit_agree (v : Visit) (sr : RegState) (si : InsState) :
  agree app0 sr si ->
  exists sr' si' r,
    visit_one (register_file opts tsx ld) v sr = (sr', r) /\
    visit_one (inspect_file opts tsx root ld) v si = (si', r) /\
    agree app0 sr' si'.
Proof.
  intros Hagree. pose proof Hagree as (Hrr & Hfr & Hw & Hnew).
  unfold visit_one, register_file, inspect_file, register_record,
    inspect_record, normalizedPrefix.
  destruct (methodMatch (v_name v)) as [[m ext]|]; [|by eexists _, _, _].
  rewrite <- Hrr, <- Hfr, <- Hw.
  destruct (extension_clash _ _ _); [by eexists _, _, _|].
  destruct (routeRegistry sr !! _) as [prev|];
    [destruct (strict opts); [by eexists _, _, _|]|];
    apply load_agree; repeat split; simpl; congruence.
Qed.

Lemma run_agree (vs : list Visit) (sr : RegState) (si : InsState) :
  agree app0 sr si ->
  exists sr' si' r,
    run (register_file opts tsx ld) vs sr = (sr', r) /\
    run (inspect_file opts tsx root ld) vs si = (si', r) /\
    agree app0 sr' si'.
Proof.
  revert sr si. induction vs as [|v vs IH]; intros sr si Hagree; simpl.
  - by eexists _, _, _.
  - destruct (visit_agree v sr si Hagree) as (sr1 & si1 & r & -> & -> & H1).
    destruct r as [[]|e]; [by apply IH|by eexists _, _, _].
Qed.
End Agreement.

(** C5.  On the same environment and options both entry points end the same
    way: they print the same dynamic conflicts as warnings and either throw
    the same error, conflicts included, or both return, and then the routes
    of the report are, method and path, the routes handed to the host by the
    registration, in another order. *)
Theorem introspection_agrees (localeCompare : string -> string -> Z)
    (env : Env) (app0 : list RouteCall) (routesDir : string) (opts : Options) :
  let '(app', printed, r) :=
    registerRoutes localeCompare env app0 routesDir opts in
  let '(i_printed, i_r) := inspectRoutes localeCompare env routesDir opts in
  i_printed = printed /\
  match r, i_r with
  | Err e, Err i_e => i_e = e
  | Ok _, Ok report =>
      exists new, app' = app0 ++ new /\
        reported (rep_routes report) ≡ₚ handed new
  | _, _ => False
  end.
Proof.
  unfold registerRoutes, inspectRoutes, register_walk, inspect_walk.
  destruct (routesListing env) as [items|]; [|done].
  destruct (loadMiddlewares _ _ _ _) as [ld [[]|e]]; [|done].
  rewrite !walk_run.
  edestruct (run_agree opts (tsxAvailable env) (projectRoot env) ld app0
               (visits (baseDir_of env routesDir) EmptyString items))
    as (sr' & si' & r & -> & -> & Hrr & Hfr & Hw & new & Happ & Hnew).
  { repeat split; try done. exists []. by rewrite app_nil_r. }
  destruct r as [[]|e]; [|done].
  destruct (getAvailableMiddlewares ld) as [globals available]. simpl.
  split; [done|]. exists new. split; [done|].
  rewrite Hnew. unfold reported. apply Permutation_map, sort_by_Permutation.
Qed.

(** ** Introspection and the missing handler *)

Section InspectFacts.
Variable opts : Options.
Variable tsx : bool.
Variable root : string.
Variable ld : MiddlewareLoader.

Abbreviation i_step := (visit_one (inspect_file opts tsx root ld)).
Abbreviation np := (Str.stripTrailingSlashes (prefix opts)).

Lemma inspect_file_no_missing_handler (v : Visit) (st st' : InsState)
    (r : Result unit) (p : string) :
  i_step v st = (st', r) -> r ≠ Err (NoHandlerExported p).
Proof.
  intros H ->.
  unfold visit_one, inspect_file, inspect_record in H.
  repeat match type of H with
         | context [match ?x with _ => _ end] => destruct x eqn:?
         end; simplify_eq.
  all: unfold inspect_load in H.
  all: destruct (importModule tsx _ _) eqn:Himp;
    [|simplify_eq; by eapply importModule_no_missing_handler].
  all: destruct (js_or _ _); simplify_eq.
  all: destruct (resolveMiddlewares ld _) eqn:Hres; simplify_eq.
  all: by eapply resolveMiddlewares_no_missing_handler.
Qed.

Lemma run_inspect_no_missing_handler (vs : list Visit) (st st' : InsState)
    (r : Result unit) (p : string) :
  run (inspect_file opts tsx root ld) vs st = (st', r) ->
  r ≠ Err (NoHandlerExported p).
Proof.
  revert st. induction vs as [|v vs IH]; intros st; simpl.
  - intros; by simplify_eq.
  - destruct (i_step v st) as [st1 [[]|e]] eqn:Hv; [apply IH|].
    intros; simplify_eq. by eapply inspect_file_no_missing_handler.
Qed.

(** The [try] block of the introspection walk either fails and leaves the
    state alone, or adds the metadata of the route. *)
Lemma inspect_load_cases (method : Method)
    (fileExt routePath fullPath : string) (content : Import RouteModule)
    (st st' : InsState) (r : Result unit) :
  inspect_load tsx root ld method fileExt routePath fullPath content st
    = (st', r) ->
  (exists e, r = Err e /\ st' = st) \/
  (exists hmod info,
     r = Ok tt /\
     importModule tsx fullPath content = Ok hmod /\
     routes st' = routes st ++ [info] /\
     ri_method info = method_upper method /\
     ri_path info = routePath /\
     ri_file info = relative root fullPath /\
     ri_handler info =
       (if truthy (rm_default hmod) then "default" else "handler")).
Proof.
  unfold inspect_load. intros H.
  destruct (importModule tsx fullPath content) as [m|e];
    [|left; eexists; by simplify_eq].
  destruct (js_or (rm_middlewares m) (JArr [])) eqn:Hmw;
    try (left; eexists; by simplify_eq).
  destruct (resolveMiddlewares ld (Some elems)) as [chain|e] eqn:Hres;
    [|left; eexists; by simplify_eq].
  right. eexists m, _. simplify_eq. by repeat split.
Qed.

(** What a visit does to the routes collected for the report *)
Lemma inspect_file_routes (v : Visit) (st st' : InsState) (r : Result unit) :
  i_step v st = (st', r) ->
  match r, methodMatch (v_name v) with
  | Ok _, Some (m, _) =>
      exists hmod info,
        importModule tsx (v_fullPath v) (v_content v) = Ok hmod /\
        routes st' = routes st ++ [info] /\
        ri_method info = method_upper m /\
        ri_path info = routePath_of np (v_prefixPath v) /\
        ri_file info = relative root (v_fullPath v) /\
        ri_handler info =
          (if truthy (rm_default hmod) then "default" else "handler")
  | _, _ => routes st' = routes st
  end.
Proof.
  unfold visit_one, inspect_file, inspect_record.
  destruct (methodMatch (v_name v)) as [[m ext]|];
    [|intros; by simplify_eq].
  destruct (extension_clash _ _ _); [intros; by simplify_eq|].
  destruct (i_routeRegistry st !! _) as [prev|];
    [destruct (strict opts); [intros; by simplify_eq|]|];
    intros [(e & -> & ->)|(hmod & info & -> & ? & ? & ? & ? & ? & ?)]
             %inspect_load_cases; simpl; eauto 10.
Qed.

Lemma run_inspect_routes (vs : list Visit) (st st' : InsState) :
  run (inspect_file opts tsx root ld) vs st = (st', Ok tt) ->
  (forall info, info ∈ routes st -> info ∈ routes st') /\
  (forall v m ext,
     v ∈ vs -> methodMatch (v_name v) = Some (m, ext) ->
     exists hmod info,
       info ∈ routes st' /\
       importModule tsx (v_fullPath v) (v_content v) = Ok hmod /\
       ri_method info = method_upper m /\
       ri_path info = routePath_of np (v_prefixPath v) /\
       ri_file info = relative root (v_fullPath v) /\
       ri_handler info =
         (if truthy (rm_default hmod) then "default" else "handler")).
Proof.
  revert st. induction vs as [|v vs IH]; intros st; simpl.
  - intros; simplify_eq. split; [done|]. intros v m ext Hv. by inversion Hv.
  - destruct (i_step v st) as [st1 [[]|e]] eqn:Hv; [|done].
    intros [Hkeep Hall]%IH. apply inspect_file_routes in Hv.
    split.
    + intros info Hinfo. apply Hkeep.
      destruct (methodMatch (v_name v)) as [[m ext]|].
      * destruct Hv as (hmod & info' & _ & -> & _).
        apply elem_of_app. by left.
      * by rewrite Hv.
    + intros v' m ext [->|Hin]%elem_of_cons Hm; [|by eapply Hall].
      rewrite Hm in Hv.
      destruct Hv as (hmod & info & Himp & Hroutes & ? & ? & ? & ?).
      exists hmod, info. repeat split; try done.
      apply Hkeep. rewrite Hroutes. apply elem_of_app. right.
      apply list_elem_of_here.
Qed.

(** At one file: a method file whose module has no usable [default]
    and no usable [handler] export, and with which nothing else is wrong, is
    reported: the visit goes through and adds the route with the handler
    field set to [handler].  No visit of the introspection walk ends with
    the missing-handler error. *)
Lemma inspect_reports_missing_handler (v : Visit) (st : InsState)
    (m : Method) (ext : string) (hmod : RouteModule) (names : list string)
    (chain : list JsVal) :
  methodMatch (v_name v) = Some (m, ext) ->
  importModule tsx (v_fullPath v) (v_content v) = Ok hmod ->
  truthy (rm_default hmod) = false ->
  let routePath := routePath_of np (v_prefixPath v) in
  extension_clash (i_fileRegistry st) (routeSignature_of m routePath) ext
    = None ->
  strict opts = false \/
    i_routeRegistry st !! fingerprint_of m routePath = None ->
  js_or (rm_middlewares hmod) (JArr []) = JArr names ->
  resolveMiddlewares ld (Some names) = Ok chain ->
  exists st' info,
    i_step v st = (st', Ok tt) /\
    routes st' = routes st ++ [info] /\
    ri_method info = method_upper m /\
    ri_path info = routePath /\
    ri_handler info = "handler".
Proof.
  intros Hm Himp Hdef routePath Hclash Hdyn Hmw Hres. subst routePath.
  unfold v_fullPath in Himp.
  unfold visit_one, inspect_file, inspect_record.
  rewrite Hm, Hclash.
  destruct (i_routeRegistry st !! _) as [prev|] eqn:Hprev.
  - destruct Hdyn as [->|?]; [|congruence].
    unfold inspect_load. rewrite Himp, Hmw, Hres, Hdef.
    eexists _, _. split; [reflexivity|]. done.
  - unfold inspect_load. rewrite Himp, Hmw, Hres, Hdef.
    eexists _, _. split; [reflexivity|]. done.
Qed.
End InspectFacts.

Lemma loadMiddlewares_no_missing_handler
    (localeCompare : string -> string -> Z) (tsx : bool)
    (dir : option (list MiddlewareFile)) (ld ld' : MiddlewareLoader)
    (r : Result unit) (p : string) :
  loadMiddlewares localeCompare tsx dir ld = (ld', r) ->
  r ≠ Err (NoHandlerExported p).
Proof.
  unfold loadMiddlewares. intros H ->.
  destruct (loaded ld); [done|]. destruct dir as [files|]; [|done].
  destruct (load_files tsx files ld) as [ld1 [[]|e]] eqn:Hfiles; [done|].
  simplify_eq. revert ld Hfiles.
  induction files as [|f files IH]; intros ld; simpl; [done|].
  destruct (load_file tsx f ld) as [ld2 [[]|e]] eqn:Hf; [apply IH|].
  intros; simplify_eq. unfold load_file, importMiddleware in Hf.
  repeat case_match; simplify_eq.
Qed.

(** C10.  Whatever the tree and the options, [inspectRoutes] does not throw
    the missing-handler error.  When it returns, every method file of the
    tree whose module has no usable [default] export, the modules without
    any handler export among them, is in the routes of the report with the
    handler field set to [handler].  And a method file whose module has
    neither export, and with which nothing else is wrong, does go through
    the body of the walk. *)
Theorem introspection_hides_missing_handler
    (localeCompare : string -> string -> Z) (env : Env) (routesDir : string)
    (opts : Options) :
  (forall p, (inspectRoutes localeCompare env routesDir opts).2
             ≠ Err (NoHandlerExported p)) /\
  (forall items printed report v m ext hmod,
     routesListing env = Some items ->
     inspectRoutes localeCompare env routesDir opts = (printed, Ok report) ->
     v ∈ visits (baseDir_of env routesDir) EmptyString items ->
     methodMatch (v_name v) = Some (m, ext) ->
     importModule (tsxAvailable env) (v_fullPath v) (v_content v) = Ok hmod ->
     truthy (rm_default hmod) = false ->
     exists info,
       info ∈ rep_routes report /\
       ri_file info = relative (projectRoot env) (v_fullPath v) /\
       ri_method info = method_upper m /\
       ri_path info =
         routePath_of (Str.stripTrailingSlashes (prefix opts))
           (v_prefixPath v) /\
       ri_handler info = "handler") /\
  (forall ld v st m ext hmod names chain,
     methodMatch (v_name v) = Some (m, ext) ->
     importModule (tsxAvailable env) (v_fullPath v) (v_content v) = Ok hmod ->
     truthy (rm_default hmod) = false ->
     truthy (rm_handler hmod) = false ->
     let routePath :=
       routePath_of (Str.stripTrailingSlashes (prefix opts)) (v_prefixPath v) in
     extension_clash (i_fileRegistry st) (routeSignature_of m routePath) ext
       = None ->
     strict opts = false \/
       i_routeRegistry st !! fingerprint_of m routePath = None ->
     js_or (rm_middlewares hmod) (JArr []) = JArr names ->
     resolveMiddlewares ld (Some names) = Ok chain ->
     exists st' info,
       visit_one (inspect_file opts (tsxAvailable env) (projectRoot env) ld)
         v st = (st', Ok tt) /\
       routes st' = routes st ++ [info] /\
       ri_method info = method_upper m /\
       ri_path info = routePath /\
       ri_handler info = "handler").
Proof.
  split; [|split].
  - intros p. unfold inspectRoutes, inspect_walk.
    destruct (routesListing env) as [items|]; [|done].
    destruct (loadMiddlewares _ _ _ _) as [ld [[]|e]] eqn:Hload; simpl.
    + rewrite walk_run.
      destruct (run _ _ _) as [st [[]|e]] eqn:Hrun; simpl.
      * by destruct (getAvailableMiddlewares ld).
      * intros ?; simplify_eq.
        by eapply run_inspect_no_missing_handler.
    + intros ?; simplify_eq.
      by eapply loadMiddlewares_no_missing_handler.
  - intros items printed report v m ext hmod Hitems Hins Hv Hm Himp Hdef.
    unfold inspectRoutes, inspect_walk in Hins. rewrite Hitems in Hins.
    destruct (loadMiddlewares _ _ _ _) as [ld [[]|e]]; [|by simplify_eq].
    rewrite walk_run in Hins.
    destruct (run _ _ _) as [st [[]|e]] eqn:Hrun; [|by simplify_eq].
    destruct (getAvailableMiddlewares ld) as [globals available].
    simplify_eq. simpl.
    destruct (run_inspect_routes _ _ _ _ _ _ _ Hrun) as [_ Hall].
    destruct (Hall v m ext Hv Hm)
      as (hmod' & info & Hin & Himp' & ? & ? & ? & Hhandler).
    rewrite Himp in Himp'. injection Himp' as <-.
    rewrite Hdef in Hhandler. exists info. repeat split; try done.
    by rewrite sort_by_Permutation.
  - intros. by eapply inspect_reports_missing_handler.
Qed.

(** ** The path of a route *)

Lemma replaceBrackets_plain (d rest : string) :
  all_chars (fun c => negb (Str.is_open c)) d = true ->
  Str.replaceBracketsFrom Str.Outside (d +:+ rest) =
  d +:+ Str.replaceBracketsFrom Str.Outside rest.
Proof.
  induction d as [|c d IH]; [done|]. cbn [all_chars].
  intros [Hc Hd]%andb_true_iff. rewrite !(append_cons c d).
  apply negb_true_iff in Hc.
  cbn [Str.replaceBracketsFrom]. rewrite Hc. by rewrite IH.
Qed.

(** A closing bracket after a string adds no line terminator to it: it is
    none of the bytes of one. *)
Lemma line_terminator_before_close (c : ascii) (x rest : string) :
  Str.line_terminator_at (String c x) = false ->
  Str.line_terminator_at (String c (x +:+ "]" +:+ rest)) = false.
Proof.
  cbn [Str.line_terminator_at].
  destruct (Str.is_lf_or_cr c); [done|]. cbn [orb].
  destruct x as [|c1 [|c2 x]]; intros H.
  - change (EmptyString +:+ "]" +:+ rest) with (String "]" rest).
    destruct rest as [|c2 rest]; [done|].
    by destruct (nat_of_ascii c =? 226)%nat.
  - change (String c1 EmptyString +:+ "]" +:+ rest)
      with (String c1 (String "]" rest)).
    by destruct (nat_of_ascii c =? 226)%nat, (nat_of_ascii c1 =? 128)%nat.
  - exact H.
Qed.

Lemma closes_after_param (x rest : string) :
  all_chars (fun c => negb (Str.is_close c)) x = true ->
  no_line_terminator x = true ->
  Str.closes (x +:+ "]" +:+ rest) = true.
Proof.
  induction x as [|c x IH]; [done|]. cbn [all_chars no_line_terminator].
  intros [Hc Hx]%andb_true_iff [Hl Hn]%andb_true_iff.
  rewrite (append_cons c x).
  apply negb_true_iff in Hc, Hl. cbn [Str.closes].
  rewrite Hc, (line_terminator_before_close c x rest Hl). auto.
Qed.

Lemma replaceBrackets_inside (x rest : string) :
  all_chars (fun c => negb (Str.is_close c)) x = true ->
  Str.replaceBracketsFrom Str.Inside (x +:+ "]" +:+ rest) =
  x +:+ Str.replaceBracketsFrom Str.Outside rest.
Proof.
  induction x as [|c x IH]; [done|]. cbn [all_chars].
  intros [Hc Hx]%andb_true_iff.
  rewrite !(append_cons c x).
  apply negb_true_iff in Hc. cbn [Str.replaceBracketsFrom].
  rewrite Hc. by rewrite IH.
Qed.

Lemma replaceBrackets_param (c : ascii) (x rest : string) :
  all_chars (fun c => negb (Str.is_close c)) (String c x) = true ->
  no_line_terminator (String c x) = true ->
  Str.replaceBracketsFrom Str.Outside
    (String "[" (String c (x +:+ "]" +:+ rest))) =
  String ":" (String c (x +:+ Str.replaceBracketsFrom Str.Outside rest)).
Proof.
  cbn [all_chars no_line_terminator].
  intros [Hc Hx]%andb_true_iff [Hl Hn]%andb_true_iff.
  apply negb_true_iff in Hl.
  cbn [Str.replaceBracketsFrom].
  change (Str.is_open "[") with true. cbn iota.
  rewrite (line_terminator_before_close c x rest Hl),
    (closes_after_param x rest Hx Hn).
  cbn [negb andb]. by rewrite (replaceBrackets_inside x rest Hx).
Qed.

Lemma replaceBrackets_folder (f : Folder) (rest : string) :
  legal_folder f = true ->
  Str.replaceBracketsFrom Str.Outside ("/" +:+ folder_name f +:+ rest) =
  "/" +:+ segment f +:+ Str.replaceBracketsFrom Str.Outside rest.
Proof.
  intros Hlegal.
  change ("/" +:+ folder_name f +:+ rest)
    with (String "/" (folder_name f +:+ rest)).
  change ("/" +:+ segment f +:+ ?r) with (String "/" (segment f +:+ r)).
  cbn [Str.replaceBracketsFrom]. change (Str.is_open "/") with false.
  cbn iota. f_equal.
  destruct f as [d|x]; cbn [legal_folder folder_name segment] in *.
  - by apply replaceBrackets_plain.
  - apply andb_true_iff in Hlegal as [[Hne Hx]%andb_true_iff Hn].
    destruct x as [|c x]; [done|].
    rewrite !append_assoc.
    change ("[" +:+ String c x +:+ "]" +:+ rest)
      with (String "[" (String c (x +:+ "]" +:+ rest))).
    by rewrite replaceBrackets_param.
Qed.

Lemma replaceBrackets_segments (folders : list Folder) :
  Forall (fun f => legal_folder f = true) folders ->
  Str.replaceBrackets (concat_segments (map folder_name folders)) =
  concat_segments (map segment folders).
Proof.
  unfold Str.replaceBrackets. induction 1 as [|f folders Hf _ IH]; [done|].
  cbn [map concat_segments]. by rewrite replaceBrackets_folder, IH.
Qed.

(** *** The normalised prefix against the stripping of trailing slashes *)

Lemma stripTrailingSlashes_parts (s : string) :
  ends_with_slash (Str.stripTrailingSlashes s) = false /\
  exists n, s = Str.stripTrailingSlashes s +:+ slashes n.
Proof.
  induction s as [|c s [IHe (n & IHn)]]; [split; [done|by exists 0]|].
  cbn [Str.stripTrailingSlashes].
  destruct (Str.is_slash c) eqn:Hc; cbn [andb].
  - destruct (String.eqb_spec (Str.stripTrailingSlashes s) EmptyString)
      as [Hnil|Hne].
    + split; [done|]. exists (S n). apply Ascii.eqb_eq in Hc. subst c.
      rewrite IHn at 1. by rewrite Hnil.
    + split.
      * cbn [ends_with_slash]. by destruct (Str.stripTrailingSlashes s).
      * exists n. rewrite append_cons. by f_equal.
  - split.
    + cbn [ends_with_slash]. by destruct (Str.stripTrailingSlashes s).
    + exists n. rewrite append_cons. by f_equal.
Qed.

Lemma rev_onto_append (a b acc : string) :
  Spec.rev_onto (a +:+ b) acc = Spec.rev_onto b (Spec.rev_onto a acc).
Proof.
  revert acc. induction a as [|c a IH]; intros acc; [done|].
  rewrite (append_cons c a). cbn [Spec.rev_onto]. apply IH.
Qed.

Lemma rev_onto_twice (s a b : string) :
  Spec.rev_onto (Spec.rev_onto s a) b = Spec.rev_onto a (s +:+ b).
Proof.
  revert a b. induction s as [|c s IH]; intros a b; [done|].
  cbn [Spec.rev_onto]. rewrite IH. reflexivity.
Qed.

Lemma slashes_slash (n : nat) (acc : string) :
  slashes n +:+ String "/" acc = String "/" (slashes n +:+ acc).
Proof.
  induction n as [|n IH]; [done|]. cbn [slashes].
  by rewrite !(append_cons "/"), IH.
Qed.

Lemma rev_onto_slashes (n : nat) (acc : string) :
  Spec.rev_onto (slashes n) acc = slashes n +:+ acc.
Proof.
  revert acc. induction n as [|n IH]; intros acc; [done|].
  cbn [slashes Spec.rev_onto]. rewrite IH.
  by rewrite slashes_slash, append_cons.
Qed.

Lemma drop_leading_slashes_slashes (n : nat) (t : string) :
  Spec.drop_leading_slashes (slashes n +:+ t) = Spec.drop_leading_slashes t.
Proof. induction n as [|n IH]; [done|]. exact IH. Qed.

(** The reverse of a string that does not end with a slash does not start
    with one. *)
Lemma drop_leading_slashes_rev (t acc : string) :
  t <> EmptyString ->
  ends_with_slash t = false ->
  Spec.drop_leading_slashes (Spec.rev_onto t acc) = Spec.rev_onto t acc.
Proof.
  revert acc. induction t as [|c t IH]; intros acc Hne He; [done|].
  destruct t as [|c1 t].
  - cbn [Spec.rev_onto Spec.drop_leading_slashes].
    cbn [ends_with_slash] in He. unfold Str.is_slash in He. by rewrite He.
  - cbn [Spec.rev_onto] in *. by apply IH.
Qed.

Lemma strip_trailing_slashes (t : string) (n : nat) :
  ends_with_slash t = false ->
  Spec.strip_trailing (t +:+ slashes n) = t.
Proof.
  intros He. unfold Spec.strip_trailing.
  rewrite rev_onto_append, rev_onto_slashes, drop_leading_slashes_slashes.
  destruct (String.eqb_spec t EmptyString) as [->|Hne]; [done|].
  rewrite drop_leading_slashes_rev by done.
  rewrite rev_onto_twice. cbn [Spec.rev_onto]. apply append_nil_r.
Qed.

(** The code strips what the specification says. *)
Lemma stripTrailingSlashes_strip (s : string) :
  Str.stripTrailingSlashes s = Spec.strip_trailing s.
Proof.
  destruct (stripTrailingSlashes_parts s) as [He (n & Hn)].
  rewrite Hn at 2. by rewrite strip_trailing_slashes.
Qed.

(** *** The two replacements against the collapsing of separators *)

Lemma collapseSlashes_step (c : ascii) (s : string) :
  Str.collapseSlashes (String c s) =
  if Str.is_slash c then
    match s with
    | String c1 _ =>
        if Str.is_slash c1 then Str.collapseSlashes s
        else String c (Str.collapseSlashes s)
    | EmptyString => String c EmptyString
    end
  else String c (Str.collapseSlashes s).
Proof. reflexivity. Qed.

Lemma backslashToSlash_step (c : ascii) (s : string) :
  Str.backslashToSlash (String c s) =
  String (if Str.is_backslash c then "/"%char else c) (Str.backslashToSlash s).
Proof. reflexivity. Qed.

(** After the two replacements of the code every run of separators is one
    slash; the second equation is the case of a string met after a slash. *)
Lemma collapse_squeeze (s : string) :
  Str.collapseSlashes (Str.backslashToSlash s) = Spec.squeeze false s /\
  Str.collapseSlashes (String "/" (Str.backslashToSlash s)) =
    String "/" (Spec.squeeze true s).
Proof.
  induction s as [|c s [IH1 IH2]]; [done|].
  rewrite backslashToSlash_step. cbn [Spec.squeeze].
  unfold Spec.is_separator, Str.is_backslash.
  destruct (Ascii.eqb_spec c "/") as [->|Hslash].
  - change (Ascii.eqb "/" "\") with false. cbn [orb]. cbv iota.
    split; [exact IH2|].
    rewrite collapseSlashes_step. change (Str.is_slash "/") with true.
    cbv iota. exact IH2.
  - destruct (Ascii.eqb_spec c "\") as [->|Hback]; cbn [orb]; cbv iota.
    + split; [exact IH2|].
      rewrite collapseSlashes_step. change (Str.is_slash "/") with true.
      cbv iota. exact IH2.
    + assert (Str.is_slash c = false) as Hc
        by (unfold Str.is_slash; by apply Ascii.eqb_neq).
      split.
      * rewrite collapseSlashes_step, Hc. by rewrite IH1.
      * rewrite collapseSlashes_step. change (Str.is_slash "/") with true.
        cbv iota. rewrite Hc. rewrite collapseSlashes_step, Hc.
        by rewrite IH1.
Qed.

(** The path the walk computes for a file under legal folders is the
    expected one. *)
Lemma routePath_expected (opts : Options) (folders : list Folder) :
  Forall (fun f => legal_folder f = true) folders ->
  routePath_of (normalizedPrefix opts)
    (concat_segments (map folder_name folders)) =
  Spec.expected_path (prefix opts) folders.
Proof.
  intros H. unfold routePath_of, Spec.expected_path, normalizedPrefix.
  rewrite replaceBrackets_segments by done.
  rewrite stripTrailingSlashes_strip. apply collapse_squeeze.
Qed.

Lemma squeeze_tidy (p : string) :
  forall b, Spec.tidy b p = true -> Spec.squeeze b p = p.
Proof.
  induction p as [|c p IH]; intros b; [done|].
  cbn [Spec.tidy Spec.squeeze]. unfold Spec.is_separator.
  destruct (Ascii.eqb_spec c "/") as [->|Hslash]; cbn [orb]; cbv iota.
  - intros [Hb Hp]%andb_true_iff. apply negb_true_iff in Hb. subst b.
    by rewrite IH.
  - intros [Hc Hp]%andb_true_iff. apply negb_true_iff in Hc. rewrite Hc.
    by rewrite IH.
Qed.

Lemma expected_path_root (p : string) (n : nat) :
  Spec.tidy false p = true ->
  ends_with_slash p = false ->
  Spec.expected_path (p +:+ slashes n) [] = p.
Proof.
  intros Ht He. unfold Spec.expected_path. cbn [map concat_segments].
  rewrite append_nil_r, strip_trailing_slashes by done.
  by apply squeeze_tidy.
Qed.

Lemma visits_item_dir (currentDir prefixPath d : string)
    (children : list Item) :
  visits_item currentDir prefixPath (DirItem d children) =
  visits (Str.path_join currentDir d) (prefixPath +:+ "/" +:+ d) children.
Proof.
  cbn [visits_item]. induction children as [|it rest IH]; [done|].
  cbn [visits]. by rewrite IH.
Qed.

(** The walk visits a file that lies under the folders [dirs] with the
    names of the folders accumulated, each after a slash. *)
Lemma file_at_visited (items : list Item) (dirs : list string)
    (name : string) (content : Import RouteModule) :
  file_at items dirs name content ->
  forall currentDir prefixPath,
    exists dir,
      {| v_dir := dir;
         v_prefixPath := prefixPath +:+ concat_segments dirs;
         v_name := name; v_content := content |}
      ∈ visits currentDir prefixPath items.
Proof.
  induction 1 as [items name content Hin|items d children dirs name content
                  Hin _ IH]; intros currentDir prefixPath.
  - exists currentDir. simpl. rewrite !append_nil_r.
    induction items as [|it items IHi]; [done|].
    simpl. apply elem_of_app. destruct Hin as [->|Hin]; [left|right; auto].
    simpl. apply list_elem_of_here.
  - destruct (IH (Str.path_join currentDir d) (prefixPath +:+ "/" +:+ d))
      as (dir & Hdir).
    exists dir. clear IH.
    induction items as [|it items IHi]; [done|].
    simpl. apply elem_of_app. destruct Hin as [->|Hin]; [left|right; auto].
    rewrite visits_item_dir.
    cbn [concat_segments]. rewrite !append_assoc in Hdir. exact Hdir.
Qed.

(** C4, amended.  The walk meets every method file of the tree that lies
    under folders with legal names with the expected path: the prefix
    without its trailing slashes, then a slash and a segment per folder, the
    name of a parameter folder replaced by a colon and the parameter, then
    every run of separators, slashes or backslashes, collapsed to one slash;
    and when [registerRoutes] returns, the host has been handed the method
    of the file with that path.  At the root of the tree, for a prefix made
    of a tidy path and trailing slashes, the expected path is the tidy path,
    and the empty string when the prefix is empty. *)
Theorem route_path_of_file (localeCompare : string -> string -> Z)
    (env : Env) (app0 : list RouteCall) (routesDir : string) (opts : Options)
    (items : list Item) (folders : list Folder) (name : string)
    (content : Import RouteModule) (m : Method) (ext : string) :
  routesListing env = Some items ->
  file_at items (map folder_name folders) name content ->
  methodMatch name = Some (m, ext) ->
  Forall (fun f => legal_folder f = true) folders ->
  let expected := Spec.expected_path (prefix opts) folders in
  (exists v,
     v ∈ visits (baseDir_of env routesDir) EmptyString items /\
     v_name v = name /\ v_content v = content /\
     route_of (normalizedPrefix opts) v = Some (m, expected)) /\
  (forall app' printed,
     registerRoutes localeCompare env app0 routesDir opts =
       (app', printed, Ok tt) ->
     exists call, call ∈ app' /\ rc_method call = m /\
       rc_path call = expected) /\
  (forall p n,
     Spec.tidy false p = true -> ends_with_slash p = false ->
     Spec.expected_path (p +:+ slashes n) [] = p) /\
  Spec.expected_path EmptyString [] = EmptyString.
Proof.
  intros Hitems Hat Hm Hlegal expected.
  destruct (file_at_visited _ _ _ _ Hat (baseDir_of env routesDir)
              EmptyString) as (dir & Hv).
  assert (route_of (normalizedPrefix opts)
            {| v_dir := dir;
               v_prefixPath := EmptyString +:+
                          concat_segments (map folder_name folders);
               v_name := name; v_content := content |} =
          Some (m, expected)) as Hroute.
  { unfold route_of. cbn [v_name v_prefixPath]. rewrite Hm.
    change (EmptyString +:+ ?s) with s. by rewrite routePath_expected. }
  split; [|split; [|split; [|done]]].
  - eexists. split; [exact Hv|]. by repeat split.
  - intros app' printed Hreg.
    unfold registerRoutes, register_walk in Hreg. rewrite Hitems in Hreg.
    destruct (loadMiddlewares _ _ _ _) as [ld [[]|e]]; [|by simplify_eq].
    rewrite walk_run in Hreg.
    destruct (run _ _ _) as [st r] eqn:Hrun. simplify_eq.
    apply run_app_routes in Hrun as (registered & Happ & Hmap).
    assert ((m, expected)
            ∈ omap (route_of (normalizedPrefix opts))
                (visits (baseDir_of env routesDir) EmptyString items)) as Hin.
    { apply list_elem_of_omap. eexists. split; [exact Hv|exact Hroute]. }
    rewrite <- Hmap in Hin.
    apply list_elem_of_In, in_map_iff in Hin as (call & Heq & Hcall).
    exists call. simplify_eq. rewrite Happ. simpl.
    split; [|done]. apply elem_of_app. right. by apply list_elem_of_In.
  - intros p n. apply expected_path_root.
Qed.

(** The bracket rule is applied to the whole accumulated path, so brackets
    in two different folder names pair up; and a backslash in a folder name
    becomes a separator. *)
Example brackets_across_folders :
  routePath_of EmptyString "/[/x]" = "/:/x".
Proof. reflexivity. Qed.

Example backslash_in_folder :
  routePath_of EmptyString "/a\b" = "/a/b".
Proof. reflexivity. Qed.

(** A parameter name that holds the line separator U+2028 is not matched by
    the bracket rule: the brackets stay. *)
Example line_separator_in_folder :
  let separator :=
    String (ascii_of_nat 226)
      (String (ascii_of_nat 128) (String (ascii_of_nat 168) EmptyString)) in
  routePath_of EmptyString ("/[a" +:+ separator +:+ "b]") =
  "/[a" +:+ separator +:+ "b]".
Proof. reflexivity. Qed.

(** ** The statements on concrete inputs *)

Lemma codeCompare_le (a b : string) :
  (Sample.codeCompare a b <= 0)%Z <-> String.le a b.
Proof.
  unfold Sample.codeCompare, String.le.
  destruct (String.leb a b), (String.leb b a); simpl; split; (lia || done).
Qed.

Lemma codeCompare_total (a b : string) :
  (Sample.codeCompare a b <= 0 \/ Sample.codeCompare b a <= 0)%Z.
Proof. rewrite !codeCompare_le. apply (total String.le). Qed.

Lemma codeCompare_trans (a b c : string) :
  (Sample.codeCompare a b <= 0 -> Sample.codeCompare b c <= 0 ->
   Sample.codeCompare a c <= 0)%Z.
Proof. rewrite !codeCompare_le. apply (transitivity (R := String.le)). Qed.

Ltac pick :=
  repeat first [apply list_elem_of_here | apply list_elem_of_further].

(** The example of the documentation: globals [cors] and [logIP], a route
    that declares [checkAuth] and [checkRole], and a route that opts out. *)
Lemma resolved_chain_witness :
  loadMiddlewares Sample.codeCompare true (Some Sample.middlewares)
    (new_loader "/app") = (Sample.loader, Ok tt) /\
  map mw_name (globalMiddlewares Sample.loader) = ["cors"; "logIP"] /\
  resolveMiddlewares Sample.loader None = Ok [JFunc 3; JFunc 1] /\
  resolveMiddlewares Sample.loader (Some ["checkAuth"; "checkRole"]) =
    Ok [JFunc 3; JFunc 1; JFunc 2; JFunc 4] /\
  resolveMiddlewares Sample.loader (Some ["!_global"; "checkAuth"]) =
    Ok [JFunc 2].
Proof.
  assert (loadMiddlewares Sample.codeCompare true (Some Sample.middlewares)
            (new_loader "/app") = (Sample.loader, Ok tt)) as Hload
    by reflexivity.
  destruct (resolved_chain Sample.codeCompare codeCompare_total
              codeCompare_trans true (Some Sample.middlewares) "/app"
              Sample.loader Hload) as (_ & _ & Hnone & _ & Hnames & _).
  split; [exact Hload|]. split; [reflexivity|]. split; [exact Hnone|]. split.
  - apply (Hnames ["checkAuth"; "checkRole"] [JFunc 2; JFunc 4]); [done|].
    vm_compute. repeat constructor.
  - apply (Hnames ["!_global"; "checkAuth"] [JFunc 2]); [done|].
    vm_compute. repeat constructor.
Defined.

Lemma unknown_middleware_witness :
  exists name,
    name ∈ ["checkAuth"; "nonExistent"] /\
    resolveMiddlewares Sample.loader (Some ["checkAuth"; "nonExistent"]) =
      Err (MiddlewareNotFound name ["logIP"; "checkAuth"; "cors"; "checkRole"]).
Proof.
  destruct (unknown_middleware_reported Sample.loader
              ["checkAuth"; "nonExistent"] "nonExistent")
    as (name & Hin & _ & _ & Hres & _); [pick|done|reflexivity|].
  exists name. split; [exact Hin|exact Hres].
Defined.

Ltac compute_hyp := vm_compute; first [reflexivity | congruence | done].
Ltac by_computing H := vm_compute in H; vm_compute; exact H.

(** [product/GET.ts] met after [product/GET.js], in both modes *)
Lemma extension_conflict_witness :
  let e := ExtensionConflict "/app/src/routes/product/GET.js"
             "/app/src/routes/product/GET.ts" GET "/product" in
  run (register_file default_options true Sample.loader)
    [Sample.get_js; Sample.get_ts] (fresh []) =
    (Sample.after default_options [Sample.get_js], Err e) /\
  run (register_file Sample.strict_options true Sample.loader)
    [Sample.get_js; Sample.get_ts] (fresh []) =
    (Sample.after Sample.strict_options [Sample.get_js], Err e).
Proof.
  split.
  - destruct (extension_conflict_fatal default_options true Sample.loader []
                [Sample.get_js] [] Sample.get_js Sample.get_ts
                (Sample.after default_options [Sample.get_js]) GET "js" "ts")
      as (existing & H & _ & _ & Honly);
      [compute_hyp|pick|compute_hyp|compute_hyp|compute_hyp|done|].
    rewrite Honly in H; [by_computing H|].
    intros v0 Hv0 _. by apply list_elem_of_singleton in Hv0.
  - destruct (extension_conflict_fatal Sample.strict_options true
                Sample.loader [] [Sample.get_js] [] Sample.get_js
                Sample.get_ts
                (Sample.after Sample.strict_options [Sample.get_js]) GET
                "js" "ts")
      as (existing & H & _ & _ & Honly);
      [compute_hyp|pick|compute_hyp|compute_hyp|compute_hyp|done|].
    rewrite Honly in H; [by_computing H|].
    intros v0 Hv0 _. by apply list_elem_of_singleton in Hv0.
Defined.

(** [product/[slug]/GET.js] met after [product/[id]/GET.js] *)
Lemma dynamic_conflict_witness :
  let conflict :=
    DynamicConflict "/app/src/routes/product/[id]/GET.js"
      "/app/src/routes/product/[slug]/GET.js" GET "/product/:slug" in
  run (register_file Sample.strict_options true Sample.loader)
    [Sample.by_id; Sample.by_slug] (fresh []) =
    (Sample.after Sample.strict_options [Sample.by_id], Err conflict) /\
  exists st2 r,
    visit_one (register_file default_options true Sample.loader)
      Sample.by_slug (Sample.after default_options [Sample.by_id]) =
      (st2, r) /\
    warnings st2 = [conflict] /\
    first_with_fingerprint "get:/product/:param" (app st2) =
    first_with_fingerprint "get:/product/:param"
      (app (Sample.after default_options [Sample.by_id])).
Proof.
  split.
  - destruct (dynamic_conflict_outcome Sample.strict_options true
                Sample.loader [] [Sample.by_id] [] Sample.by_id Sample.by_slug
                (Sample.after Sample.strict_options [Sample.by_id]) GET
                "/product/:id" "js")
      as (prev & Hprev & _ & Hstrict);
      [compute_hyp|pick|compute_hyp|compute_hyp|compute_hyp|compute_hyp|].
    vm_compute in Hprev. injection Hprev as <-. by_computing Hstrict.
  - destruct (dynamic_conflict_outcome default_options true Sample.loader []
                [Sample.by_id] [] Sample.by_id Sample.by_slug
                (Sample.after default_options [Sample.by_id]) GET
                "/product/:id" "js")
      as (prev & Hprev & _ & st2 & r & Hstep & Hwarn & _ & _ & Hfirst & _);
      [compute_hyp|pick|compute_hyp|compute_hyp|compute_hyp|compute_hyp|].
    vm_compute in Hprev. injection Hprev as <-.
    exists st2, r. split; [exact Hstep|].
    split; [by_computing Hwarn|by_computing Hfirst].
Defined.

(** [product/[id]/GET.js] under the prefix [/api/] *)
Lemma route_path_witness :
  exists call,
    call ∈ (registerRoutes Sample.codeCompare
              (Sample.env_of Sample.product_tree) [] "routes"
              Sample.api_options).1.1 /\
    rc_method call = GET /\ rc_path call = "/api/product/:id".
Proof.
  destruct (route_path_of_file Sample.codeCompare
              (Sample.env_of Sample.product_tree) [] "routes"
              Sample.api_options Sample.product_tree
              [Plain "product"; Param "id"] "GET.js"
              (Sample.module (JFunc 10) JUndefined JUndefined) GET "js")
    as (_ & Hcall & _).
  - reflexivity.
  - vm_compute. eapply file_below; [left; reflexivity|].
    eapply file_below; [right; left; reflexivity|].
    apply file_here. left. reflexivity.
  - compute_hyp.
  - repeat constructor.
  - destruct (Hcall
                (registerRoutes Sample.codeCompare
                   (Sample.env_of Sample.product_tree) [] "routes"
                   Sample.api_options).1.1 [])
      as (call & Hin & Hm & Hp); [compute_hyp|].
    exists call. split; [exact Hin|]. split; [exact Hm|].
    rewrite Hp. vm_compute. reflexivity.
Defined.

(** [product/GET.js] goes through, [admin/POST.js] fails: the call returns
    the error and the application with the route of the first file. *)
Lemma no_rollback_witness :
  exists registered,
    registerRoutes Sample.codeCompare (Sample.env_of Sample.failing_tree) []
      "routes" default_options =
      (registered, [],
       Err (InvalidMiddlewares "/app/src/routes/admin/POST.js" "string")) /\
    map (fun c => (rc_method c, rc_path c)) registered = [(GET, "/product")].
Proof.
  destruct (no_rollback Sample.codeCompare (Sample.env_of Sample.failing_tree)
              [] "routes" default_options Sample.failing_tree Sample.loader
              [Sample.get_js] [] Sample.bad_middlewares
              (Sample.after default_options [Sample.get_js])
              (Sample.after default_options
                 [Sample.get_js; Sample.bad_middlewares])
              (InvalidMiddlewares "/app/src/routes/admin/POST.js" "string"))
    as (registered & Hreg & Hmap);
    [reflexivity|compute_hyp|compute_hyp|compute_hyp|compute_hyp|].
  exists registered. split.
  - rewrite Hreg. vm_compute. reflexivity.
  - by_computing Hmap.
Defined.

(** [health/GET.js] exports nothing: it is registered with the handler that
    throws. *)
Lemma missing_handler_witness :
  (exists st',
     visit_one (register_file default_options true Sample.loader)
       Sample.no_handler (fresh []) = (st', Ok tt) /\
     app st' =
       [{| rc_method := GET; rc_path := "/health";
           rc_middlewares := [JFunc 3; JFunc 1];
           rc_handler := ThrowingHandler "/app/src/routes/health/GET.js" |}]) /\
  invoke (ThrowingHandler "/app/src/routes/health/GET.js") =
    Throws (NoHandlerExported "/app/src/routes/health/GET.js").
Proof.
  destruct (missing_handler_deferred default_options true Sample.loader
              Sample.no_handler (fresh []) GET "js"
              {| rm_default := JUndefined; rm_handler := JUndefined;
                 rm_middlewares := JUndefined |} [] [JFunc 3; JFunc 1])
    as ((st' & Hstep & Happ) & Hinvoke & _ & _ & _);
    [compute_hyp|compute_hyp|compute_hyp|compute_hyp|compute_hyp
    |left; reflexivity|compute_hyp|compute_hyp|].
  split; [|exact Hinvoke]. exists st'. split; [exact Hstep|exact Happ].
Defined.


(** [health/GET.js] exports nothing: the report lists it with [handler]. *)
Lemma introspection_missing_handler_witness :
  let env := Sample.env_of Sample.health_tree in
  (inspectRoutes Sample.codeCompare env "routes" default_options).2
  ≠ Err (NoHandlerExported "/app/src/routes/health/GET.js") /\
  (exists report info,
     inspectRoutes Sample.codeCompare env "routes" default_options
       = ([], Ok report) /\
     info ∈ rep_routes report /\
     ri_file info = "src/routes/health/GET.js" /\
     ri_handler info = "handler") /\
  exists st' info,
    visit_one (inspect_file default_options true "/app" Sample.loader)
      Sample.no_handler Sample.empty_inspection = (st', Ok tt) /\
    routes st' = [info] /\ ri_path info = "/health" /\
    ri_handler info = "handler".
Proof.
  intros env.
  destruct (introspection_hides_missing_handler Sample.codeCompare env
              "routes" default_options) as (Hnever & Hreport & Hfile).
  split; [apply Hnever|]. split.
  - assert (exists report,
              inspectRoutes Sample.codeCompare env "routes" default_options
              = ([], Ok report)) as [report Hins]
      by (eexists; vm_compute; reflexivity).
    destruct (Hreport Sample.health_tree [] report Sample.no_handler GET "js"
                {| rm_default := JUndefined; rm_handler := JUndefined;
                   rm_middlewares := JUndefined |})
      as (info & Hin & Hfile' & _ & _ & Hhandler);
      [reflexivity|exact Hins|vm_compute; pick|compute_hyp|compute_hyp
      |compute_hyp|].
    exists report, info. split; [exact Hins|]. split; [exact Hin|].
    split; [rewrite Hfile'; vm_compute; reflexivity|exact Hhandler].
  - destruct (Hfile Sample.loader Sample.no_handler Sample.empty_inspection
                GET "js"
                {| rm_default := JUndefined; rm_handler := JUndefined;
                   rm_middlewares := JUndefined |} [] [JFunc 3; JFunc 1])
      as (st' & info & Hstep & Hroutes & _ & Hpath & Hhandler);
      [compute_hyp|compute_hyp|compute_hyp|compute_hyp|compute_hyp
      |left; reflexivity|compute_hyp|compute_hyp|].
    exists st', info. split; [exact Hstep|]. split; [exact Hroutes|].
    split; [exact Hpath|exact Hhandler].
Defined.

(** ** Where the wording of the specification and the code part *)

(** C2.  [product/GET.js] and [product/GET.ts] have the same method and the
    same fingerprint and are two files; without strict mode the call ends
    with the extension conflict and prints no warning. *)
Lemma dynamic_conflict_counterexample :
  strict default_options = false /\
  v_fullPath Sample.get_js ≠ v_fullPath Sample.get_ts /\
  fingerprint_of GET
    (routePath_of (normalizedPrefix default_options)
       (v_prefixPath Sample.get_js)) =
  fingerprint_of GET
    (routePath_of (normalizedPrefix default_options)
       (v_prefixPath Sample.get_ts)) /\
  visits (baseDir_of (Sample.env_of Sample.twin_tree) "routes") EmptyString
    Sample.twin_tree = [Sample.get_js; Sample.get_ts] /\
  exists registered,
    registerRoutes Sample.codeCompare (Sample.env_of Sample.twin_tree) []
      "routes" default_options =
    (registered, [],
     Err (ExtensionConflict "/app/src/routes/product/GET.js"
            "/app/src/routes/product/GET.ts" GET "/product")).
Proof.
  split; [reflexivity|]. split; [vm_compute; congruence|].
  split; [reflexivity|]. split; [reflexivity|].
  eexists. vm_compute. reflexivity.
Qed.

(** C3.  [product/GET.js] and [product/Get.ts] have the same method and the
    same path and different extensions.  With [product/GEt.js] listed
    between them the walk ends at [Get.ts] with the extension conflict; its
    message names [Get.ts] and [GEt.js], the file last recorded for the
    route, and does not name [GET.js]. *)
Lemma extension_conflict_counterexample :
  let first := "/app/src/routes/product/GET.js" in
  let second := "/app/src/routes/product/Get.ts" in
  methodMatch "GET.js" = Some (GET, "js") /\
  methodMatch "Get.ts" = Some (GET, "ts") /\
  map v_fullPath
    (visits (baseDir_of (Sample.env_of Sample.spelled_tree) "routes")
       EmptyString Sample.spelled_tree) =
    [first; "/app/src/routes/product/GEt.js"; second] /\
  exists registered printed e msg,
    registerRoutes Sample.codeCompare (Sample.env_of Sample.spelled_tree) []
      "routes" default_options = (registered, printed, Err e) /\
    e = ExtensionConflict "/app/src/routes/product/GEt.js" second GET
          "/product" /\
    register_message e = Some msg /\
    mentions msg second /\
    ~ mentions msg first.
Proof.
  intros first second. split; [reflexivity|]. split; [reflexivity|].
  split; [reflexivity|].
  eexists _, _, _, _. split; [vm_compute; reflexivity|].
  split; [reflexivity|]. split; [reflexivity|]. split.
  - apply mentions_includes. vm_compute. reflexivity.
  - intros H%mentions_includes. vm_compute in H. discriminate H.
Qed.

(** C4.  A method file at the root of the tree, with the empty prefix, is
    registered under the empty path, not under a slash. *)
Lemma root_path_counterexample :
  prefix default_options = EmptyString /\
  file_at Sample.root_tree [] "GET.js"
    (Sample.module (JFunc 16) JUndefined JUndefined) /\
  map (fun c => (rc_method c, rc_path c))
    (registerRoutes Sample.codeCompare (Sample.env_of Sample.root_tree) []
       "routes" default_options).1.1 = [(GET, EmptyString)] /\
  EmptyString ≠ "/".
Proof.
  split; [reflexivity|]. split; [apply file_here; left; reflexivity|].
  split; [vm_compute; reflexivity|done].
Qed.


(** * Further properties of the code *)

(** ** The pattern of method files *)

Lemma toLowerCase_append (a b : string) :
  Str.toLowerCase (a +:+ b) = Str.toLowerCase a +:+ Str.toLowerCase b.
Proof.
  induction a as [|c a IH]; [done|].
  rewrite (append_cons c a). cbn [Str.toLowerCase Str.map_chars].
  fold (Str.toLowerCase (a +:+ b)). fold (Str.toLowerCase a).
  by rewrite IH.
Qed.

Lemma toLowerCase_length (s : string) :
  String.length (Str.toLowerCase s) = String.length s.
Proof. induction s as [|c s IH]; [done|]. simpl. by f_equal. Qed.

Lemma drop_append (a b : string) : Str.drop (String.length a) (a +:+ b) = b.
Proof. induction a as [|c a IH]; [done|]. by rewrite append_cons. Qed.

Lemma lower_dot (c : ascii) : Str.lower_ascii c = "."%char -> c = "."%char.
Proof.
  intros H. destruct (lower_keeps_marks c) as [Hd _]. rewrite H in Hd.
  symmetry in Hd. by apply Ascii.eqb_eq in Hd.
Qed.

(** A name whose lower-case form has a dot after [a] splits at that dot. *)
Lemma toLowerCase_split (a b s : string) :
  Str.toLowerCase s = a +:+ "." +:+ b ->
  exists s1 s2,
    s = s1 +:+ "." +:+ s2 /\ Str.toLowerCase s1 = a /\ Str.toLowerCase s2 = b.
Proof.
  revert s. induction a as [|c a IH]; intros s H.
  - change (EmptyString +:+ "." +:+ b) with (String "." b) in H.
    apply toLowerCase_cons_inv in H as (c' & s' & -> & Hc%lower_dot & Hs).
    subst c'. by exists EmptyString, s'.
  - rewrite (append_cons c a) in H.
    apply toLowerCase_cons_inv in H as (c' & s' & -> & Hc & Hs).
    destruct (IH _ Hs) as (s1 & s2 & -> & H1 & H2).
    exists (String c' s1), s2. repeat split; [|done].
    cbn [Str.toLowerCase Str.map_chars]. fold (Str.toLowerCase s1).
    by rewrite Hc, H1.
Qed.

(** X1.  A name is a method file exactly when it is, whatever the case of
    its letters, one of the five verbs, a dot and [js] or [ts]; the
    extension the walk keeps is the part after the dot as it is spelled. *)
Theorem methodMatch_spec (name : string) (m : Method) (ext : string) :
  methodMatch name = Some (m, ext) <->
  exists stem,
    name = stem +:+ "." +:+ ext /\
    Str.toLowerCase stem = method_lower m /\
    (Str.toLowerCase ext = "js" \/ Str.toLowerCase ext = "ts").
Proof.
  split.
  - intros (e & He & Hlow & Hext)%methodMatch_inv.
    apply toLowerCase_split in Hlow as (s1 & s2 & -> & H1 & H2).
    exists s1. assert (ext = s2) as ->.
    { rewrite Hext, <- H1, toLowerCase_length.
      replace (String.length s1 + 1) with (String.length (s1 +:+ "."))
        by (clear; induction s1; simpl; [done|by f_equal]).
      by rewrite <- append_assoc, drop_append. }
    repeat split; [done|]. rewrite H2. exact He.
  - intros (stem & -> & Hstem & Hext).
    assert (Str.drop (String.length (method_lower m) + 1)
              (stem +:+ "." +:+ ext) = ext) as Hdrop.
    { rewrite <- Hstem, toLowerCase_length.
      replace (String.length stem + 1) with (String.length (stem +:+ "."))
        by (clear; induction stem; simpl; [done|by f_equal]).
      by rewrite <- append_assoc, drop_append. }
    unfold methodMatch.
    rewrite !toLowerCase_append, Hstem.
    change (Str.toLowerCase ".") with ".".
    revert Hdrop. generalize (stem +:+ "." +:+ ext). intros n <-.
    destruct m, Hext as [-> | ->]; reflexivity.
Qed.

Lemma methodMatch_spec_witness :
  methodMatch "Delete.TS" = Some (DELETE, "TS").
Proof.
  apply (methodMatch_spec "Delete.TS" DELETE "TS").
  exists "Delete". split; [reflexivity|]. split; [reflexivity|].
  right. reflexivity.
Defined.

(** ** The shape of a route path *)

Lemma collapseSlashes_head (c : ascii) (s : string) :
  exists t, Str.collapseSlashes (String c s) = String c t.
Proof.
  revert c. induction s as [|c1 s IH]; intros c.
  - cbn. destruct (Str.is_slash c); by eexists.
  - cbn [Str.collapseSlashes].
    destruct (Str.is_slash c) eqn:Hc; [|by eexists].
    destruct (Str.is_slash c1) eqn:Hc1; [|by eexists].
    destruct (IH c1) as (t & Ht). 
    apply Ascii.eqb_eq in Hc, Hc1. subst. by eexists.
Qed.

Lemma collapseSlashes_no_run (s : string) :
  Str.includes "//" (Str.collapseSlashes s) = false.
Proof.
  induction s as [|c s IH]; [done|].
  cbn [Str.collapseSlashes].
  destruct (Str.is_slash c) eqn:Hc.
  - destruct s as [|c1 s]; [cbn; by rewrite andb_false_r|]. cbn iota.
    destruct (Str.is_slash c1) eqn:Hc1; [done|].
    destruct (collapseSlashes_head c1 s) as (t & Ht).
    rewrite Ht in *. cbn [Str.includes] in *. rewrite IH.
    cbn [Str.startsWith]. unfold Str.is_slash in Hc1.
    rewrite (Ascii.eqb_sym "/" c1), Hc1. by rewrite andb_false_r.
  - cbn [Str.includes]. rewrite IH. cbn [Str.startsWith].
    unfold Str.is_slash in Hc. by rewrite (Ascii.eqb_sym "/" c), Hc.
Qed.

Lemma collapseSlashes_keeps (p : ascii -> bool) (s : string) :
  all_chars p s = true -> all_chars p (Str.collapseSlashes s) = true.
Proof.
  induction s as [|c s IH]; [done|]. cbn [all_chars].
  intros [Hc Hs]%andb_true_iff. cbn [Str.collapseSlashes].
  destruct (Str.is_slash c).
  - destruct s as [|c1 s]; [by cbn; rewrite Hc|]. cbn iota.
    destruct (Str.is_slash c1); [by apply IH|].
    cbn [all_chars]. rewrite Hc. by apply IH.
  - cbn [all_chars]. rewrite Hc. by apply IH.
Qed.

Lemma backslashToSlash_no_backslash (s : string) :
  all_chars (fun c => negb (Str.is_backslash c)) (Str.backslashToSlash s)
  = true.
Proof.
  induction s as [|c s IH]; [done|].
  unfold Str.backslashToSlash in *. cbn [Str.map_chars all_chars].
  rewrite IH. by destruct (Str.is_backslash c) eqn:Hc; [|rewrite Hc].
Qed.

(** X2.  Whatever the prefix and the folders, a route path holds no two
    slashes in a row and no backslash. *)
Theorem routePath_normal (normalizedPrefix prefixPath : string) :
  let routePath := routePath_of normalizedPrefix prefixPath in
  Str.includes "//" routePath = false /\
  all_chars (fun c => negb (Str.is_backslash c)) routePath = true.
Proof.
  unfold routePath_of. split.
  - apply collapseSlashes_no_run.
  - apply collapseSlashes_keeps, backslashToSlash_no_backslash.
Qed.

(** ** The normalised prefix *)

Lemma slashes_snoc (n : nat) : slashes n +:+ "/" = slashes (S n).
Proof.
  induction n as [|n IH]; [done|]. cbn [slashes].
  by rewrite append_cons, IH.
Qed.

(** X3.  The normalised prefix does not end with a slash, and the prefix is
    the normalised prefix followed by slashes only. *)
Theorem normalizedPrefix_shape (opts : Options) :
  ends_with_slash (normalizedPrefix opts) = false /\
  exists n, prefix opts = normalizedPrefix opts +:+ slashes n.
Proof.
  unfold normalizedPrefix. generalize (prefix opts). intros s.
  induction s as [|c s [IHe (n & IHn)]]; [split; [done|by exists 0]|].
  cbn [Str.stripTrailingSlashes].
  destruct (Str.is_slash c) eqn:Hc; cbn [andb].
  - destruct (String.eqb_spec (Str.stripTrailingSlashes s) EmptyString)
      as [Hnil|Hne].
    + split; [done|]. exists (S n). apply Ascii.eqb_eq in Hc. subst c.
      rewrite IHn at 1. by rewrite Hnil.
    + split.
      * cbn [ends_with_slash].
        by destruct (Str.stripTrailingSlashes s).
      * exists n. rewrite append_cons. by f_equal.
  - split.
    + cbn [ends_with_slash].
      by destruct (Str.stripTrailingSlashes s).
    + exists n. rewrite append_cons. by f_equal.
Qed.

Lemma stripTrailingSlashes_slash (s : string) :
  Str.stripTrailingSlashes (s +:+ "/") = Str.stripTrailingSlashes s.
Proof.
  induction s as [|c s IH]; [done|].
  rewrite (append_cons c s). cbn [Str.stripTrailingSlashes]. by rewrite IH.
Qed.

(** ** Two bodies of the loop that agree on every visit *)

Lemma run_ext {S : Type}
    (f g : string -> string -> string -> Import RouteModule -> S ->
           S * Result unit) (vs : list Visit) :
  (forall v st, visit_one f v st = visit_one g v st) ->
  forall st, run f vs st = run g vs st.
Proof.
  intros Hfg. induction vs as [|v vs IH]; intros st; [done|].
  cbn [run]. rewrite Hfg. destruct (visit_one g v st) as [st1 [[]|e]]; auto.
Qed.

Lemma run_filter {S : Type}
    (f : string -> string -> string -> Import RouteModule -> S ->
         S * Result unit) (keep : Visit -> bool) (vs : list Visit) :
  (forall v st, keep v = false -> visit_one f v st = (st, Ok tt)) ->
  forall st, run f vs st = run f (List.filter keep vs) st.
Proof.
  intros Hskip. induction vs as [|v vs IH]; intros st; [done|].
  cbn [run List.filter]. destruct (keep v) eqn:Hk.
  - cbn [run]. destruct (visit_one f v st) as [st1 [[]|e]]; auto.
  - by rewrite (Hskip v st Hk).
Qed.

Lemma register_file_prefix (o1 o2 : Options) (tsx : bool)
    (ld : MiddlewareLoader) (v : Visit) (st : RegState) :
  Str.stripTrailingSlashes (prefix o1) = Str.stripTrailingSlashes (prefix o2) ->
  strict o1 = strict o2 ->
  visit_one (register_file o1 tsx ld) v st =
  visit_one (register_file o2 tsx ld) v st.
Proof.
  intros Hp Hs. unfold visit_one, register_file, normalizedPrefix.
  by rewrite Hp, Hs.
Qed.

Lemma inspect_file_prefix (o1 o2 : Options) (tsx : bool) (root : string)
    (ld : MiddlewareLoader) (v : Visit) (st : InsState) :
  Str.stripTrailingSlashes (prefix o1) = Str.stripTrailingSlashes (prefix o2) ->
  strict o1 = strict o2 ->
  visit_one (inspect_file o1 tsx root ld) v st =
  visit_one (inspect_file o2 tsx root ld) v st.
Proof.
  intros Hp Hs. unfold visit_one, inspect_file.
  by rewrite Hp, Hs.
Qed.

(** X4.  One more slash at the end of the prefix changes nothing, in
    neither entry point: same calls, same warnings, same outcome, same
    report. *)
Theorem prefix_trailing_slash (localeCompare : string -> string -> Z)
    (env : Env) (app0 : list RouteCall) (routesDir p : string) (s : bool) :
  registerRoutes localeCompare env app0 routesDir
    {| prefix := p +:+ "/"; strict := s |} =
  registerRoutes localeCompare env app0 routesDir
    {| prefix := p; strict := s |} /\
  inspectRoutes localeCompare env routesDir
    {| prefix := p +:+ "/"; strict := s |} =
  inspectRoutes localeCompare env routesDir
    {| prefix := p; strict := s |}.
Proof.
  unfold registerRoutes, inspectRoutes, register_walk, inspect_walk.
  destruct (routesListing env) as [items|]; [|done].
  destruct (loadMiddlewares _ _ _ _) as [ld [[]|e]]; [|done].
  rewrite !walk_run. split.
  - rewrite (run_ext (register_file {| prefix := p +:+ "/"; strict := s |}
                        (tsxAvailable env) ld)
               (register_file {| prefix := p; strict := s |}
                        (tsxAvailable env) ld)); [done|].
    intros v st. apply register_file_prefix; [|done].
    apply stripTrailingSlashes_slash.
  - rewrite (run_ext (inspect_file {| prefix := p +:+ "/"; strict := s |}
                        (tsxAvailable env) (projectRoot env) ld)
               (inspect_file {| prefix := p; strict := s |}
                        (tsxAvailable env) (projectRoot env) ld)); [done|].
    intros v st. apply inspect_file_prefix; [|done].
    apply stripTrailingSlashes_slash.
Qed.

(** ** The fingerprint and the names of parameters *)

Lemma normalizeDynamicFrom_cons (b : bool) (c : ascii) (s : string) :
  Str.normalizeDynamicFrom b (String c s) =
  if b && Str.is_word c then Str.normalizeDynamicFrom true s
  else if Str.is_colon c then
    match s with
    | String c1 _ =>
        if Str.is_word c1 then ":param" +:+ Str.normalizeDynamicFrom true s
        else String c (Str.normalizeDynamicFrom false s)
    | EmptyString => String c EmptyString
    end
  else String c (Str.normalizeDynamicFrom false s).
Proof. reflexivity. Qed.

Lemma normalizeDynamic_skips (w rest : string) :
  all_chars Str.is_word w = true ->
  starts_nonword rest = true ->
  Str.normalizeDynamicFrom true (w +:+ rest) =
  Str.normalizeDynamicFrom true rest.
Proof.
  intros Hw Hrest. induction w as [|c w IH]; [done|].
  cbn [all_chars] in Hw. apply andb_true_iff in Hw as [Hc Hw].
  rewrite (append_cons c w), normalizeDynamicFrom_cons, Hc.
  cbn [andb]. by apply IH.
Qed.

Lemma normalizeDynamic_at_param (b : bool) (w rest : string) :
  is_name w = true ->
  starts_nonword rest = true ->
  Str.normalizeDynamicFrom b (String ":" (w +:+ rest)) =
  ":param" +:+ Str.normalizeDynamicFrom true rest.
Proof.
  intros [Hne Hw]%andb_true_iff Hrest.
  destruct w as [|c w]; [done|].
  pose proof Hw as Hw'. cbn [all_chars] in Hw'.
  apply andb_true_iff in Hw' as [Hc _].
  rewrite normalizeDynamicFrom_cons.
  change (Str.is_word ":") with false. rewrite andb_false_r.
  change (Str.is_colon ":") with true. cbn iota.
  rewrite (append_cons c w), Hc, <- (append_cons c w).
  by rewrite normalizeDynamic_skips.
Qed.

Lemma renamed_head (s1 s2 : string) :
  renamed s1 s2 ->
  match s1, s2 with
  | EmptyString, EmptyString => True
  | String a _, String b _ => a = b
  | _, _ => False
  end.
Proof. by destruct 1. Qed.

Lemma renamed_starts_nonword (s1 s2 : string) :
  renamed s1 s2 -> starts_nonword s1 = starts_nonword s2.
Proof.
  intros H%renamed_head. destruct s1, s2; try done. by subst.
Qed.

Lemma renamed_refl (s : string) : renamed s s.
Proof. induction s; by constructor. Qed.

Lemma renamed_app_l (p s1 s2 : string) :
  renamed s1 s2 -> renamed (p +:+ s1) (p +:+ s2).
Proof.
  intros H. induction p as [|c p IH]; [done|].
  rewrite !(append_cons c p). by constructor.
Qed.

Lemma normalizeDynamic_renamed (s1 s2 : string) :
  renamed s1 s2 ->
  forall b, Str.normalizeDynamicFrom b s1 = Str.normalizeDynamicFrom b s2.
Proof.
  induction 1 as [|c s1 s2 H IH|w1 w2 s1 s2 H1 H2 Hs1 H IH]; intros b.
  - done.
  - rewrite !normalizeDynamicFrom_cons, !IH.
    apply renamed_head in H. destruct s1, s2; try done. by subst.
  - rewrite !normalizeDynamic_at_param, ?IH; try done.
    by rewrite <- (renamed_starts_nonword s1 s2).
Qed.

Lemma word_marks (c : ascii) :
  Str.is_word c = true ->
  Str.is_slash c = false /\ Str.is_backslash c = false /\
  Str.is_close c = false /\ Str.is_lf_or_cr c = false /\
  (nat_of_ascii c =? 226)%nat = false /\ Str.is_open c = false.
Proof. destruct c as [[] [] [] [] [] [] [] []]; by intros. Qed.

Lemma word_no_line_terminator (w : string) :
  all_chars Str.is_word w = true -> no_line_terminator w = true.
Proof.
  induction w as [|c w IH]; [done|]. cbn [all_chars no_line_terminator].
  intros [Hc Hw]%andb_true_iff. rewrite (IH Hw), andb_true_r.
  destruct (word_marks c Hc) as (_ & _ & _ & Hl & Hb & _).
  cbn [Str.line_terminator_at]. rewrite Hl, Hb.
  by destruct w as [|c1 [|c2 w]].
Qed.

Lemma map_chars_append (f : ascii -> ascii) (a b : string) :
  Str.map_chars f (a +:+ b) = Str.map_chars f a +:+ Str.map_chars f b.
Proof.
  induction a as [|c a IH]; [done|].
  rewrite (append_cons c a). cbn [Str.map_chars].
  by rewrite IH.
Qed.

Lemma backslashToSlash_word (w : string) :
  all_chars Str.is_word w = true -> Str.backslashToSlash w = w.
Proof.
  unfold Str.backslashToSlash.
  induction w as [|c w IH]; [done|]. cbn [all_chars].
  intros [Hc Hw]%andb_true_iff. cbn [Str.map_chars].
  destruct (word_marks c Hc) as (_ & -> & _). by rewrite IH.
Qed.

Lemma collapseSlashes_cons (c : ascii) (s : string) :
  Str.collapseSlashes (String c s) =
  if Str.is_slash c then
    match s with
    | String c1 _ =>
        if Str.is_slash c1 then Str.collapseSlashes s
        else String c (Str.collapseSlashes s)
    | EmptyString => String c EmptyString
    end
  else String c (Str.collapseSlashes s).
Proof. reflexivity. Qed.

Lemma collapseSlashes_word (w s : string) :
  all_chars Str.is_word w = true ->
  Str.collapseSlashes (w +:+ s) = w +:+ Str.collapseSlashes s.
Proof.
  induction w as [|c w IH]; [done|]. cbn [all_chars].
  intros [Hc Hw]%andb_true_iff.
  rewrite !(append_cons c w), collapseSlashes_cons.
  destruct (word_marks c Hc) as (-> & _). by rewrite IH.
Qed.

Lemma collapseSlashes_starts_nonword (s : string) :
  starts_nonword s = true -> starts_nonword (Str.collapseSlashes s) = true.
Proof.
  destruct s as [|c s]; [done|]. intros H.
  destruct (collapseSlashes_head c s) as (t & ->). exact H.
Qed.

Lemma backslashToSlash_starts_nonword (s : string) :
  starts_nonword s = true -> starts_nonword (Str.backslashToSlash s) = true.
Proof.
  destruct s as [|c s]; [done|]. unfold Str.backslashToSlash.
  cbn [Str.map_chars starts_nonword].
  by destruct (Str.is_backslash c).
Qed.

Lemma backslashToSlash_renamed (s1 s2 : string) :
  renamed s1 s2 ->
  renamed (Str.backslashToSlash s1) (Str.backslashToSlash s2).
Proof.
  induction 1 as [|c s1 s2 H IH|w1 w2 s1 s2 H1 H2 Hs1 H IH].
  - constructor.
  - unfold Str.backslashToSlash in *. cbn [Str.map_chars]. by constructor.
  - pose proof H1 as [_ Hw1]%andb_true_iff.
    pose proof H2 as [_ Hw2]%andb_true_iff.
    apply backslashToSlash_word in Hw1, Hw2.
    apply backslashToSlash_starts_nonword in Hs1.
    unfold Str.backslashToSlash in *. cbn [Str.map_chars].
    change (if Str.is_backslash ":" then "/"%char else ":"%char)
      with ":"%char.
    rewrite !map_chars_append, Hw1, Hw2. by apply renamed_name.
Qed.

Lemma collapseSlashes_renamed (s1 s2 : string) :
  renamed s1 s2 ->
  renamed (Str.collapseSlashes s1) (Str.collapseSlashes s2).
Proof.
  induction 1 as [|c s1 s2 H IH|w1 w2 s1 s2 H1 H2 Hs1 H IH].
  - constructor.
  - rewrite !collapseSlashes_cons.
    apply renamed_head in H.
    destruct (Str.is_slash c); [|by constructor].
    destruct s1 as [|a s1], s2 as [|b s2]; try done; [apply renamed_refl|].
    subst b. destruct (Str.is_slash a); [done|by constructor].
  - pose proof H1 as [_ Hw1]%andb_true_iff.
    pose proof H2 as [_ Hw2]%andb_true_iff.
    rewrite !collapseSlashes_cons. change (Str.is_slash ":") with false.
    cbn iota. rewrite !collapseSlashes_word by done.
    apply renamed_name; try done. by apply collapseSlashes_starts_nonword.
Qed.

Lemma concat_segments_starts_nonword (segs : list string) :
  starts_nonword (concat_segments segs) = true.
Proof. by destruct segs. Qed.

Lemma same_shape_legal (fs gs : list Folder) :
  Forall2 same_shape fs gs ->
  Forall (fun f => legal_folder f = true) fs /\
  Forall (fun f => legal_folder f = true) gs.
Proof.
  assert (forall x, is_name x = true -> legal_folder (Param x) = true) as Hn.
  { intros x [Hne Hw]%andb_true_iff. cbn [legal_folder]. rewrite Hne.
    cbn [andb]. rewrite (word_no_line_terminator x Hw), andb_true_r.
    clear Hne. induction x as [|c x IH]; [done|].
    cbn [all_chars] in *. apply andb_true_iff in Hw as [Hc Hw].
    destruct (word_marks c Hc) as (_ & _ & -> & _). by rewrite IH. }
  induction 1 as [|f g fs gs Hfg _ [IH1 IH2]]; [done|].
  destruct f as [d|x], g as [e|y]; try done; cbn in Hfg.
  - destruct Hfg as [<- Hd]. by split; constructor.
  - destruct Hfg as [Hx Hy]. split; constructor; auto.
Qed.

Lemma segments_renamed (fs gs : list Folder) :
  Forall2 same_shape fs gs ->
  renamed (concat_segments (map segment fs))
          (concat_segments (map segment gs)).
Proof.
  induction 1 as [|f g fs gs Hfg _ IH]; [constructor|].
  cbn [map concat_segments].
  change ("/" +:+ ?a +:+ ?b) with (String "/" (a +:+ b)).
  constructor.
  destruct f as [d|x], g as [e|y]; try done; cbn in Hfg.
  - destruct Hfg as [<- _]. by apply renamed_app_l.
  - destruct Hfg as [Hx Hy]. cbn [segment].
    rewrite !append_assoc.
    change (":" +:+ ?a +:+ ?b) with (String ":" (a +:+ b)).
    apply renamed_name; try done. apply concat_segments_starts_nonword.
Qed.

(** X5.  Two method files of the same verb under folders that differ only
    in the names of their parameters, each an identifier, get the same
    fingerprint, whatever the prefix. *)
Theorem fingerprint_ignores_names (np : string) (fs gs : list Folder)
    (m : Method) :
  Forall2 same_shape fs gs ->
  fingerprint_of m (routePath_of np (concat_segments (map folder_name fs))) =
  fingerprint_of m (routePath_of np (concat_segments (map folder_name gs))).
Proof.
  intros H. destruct (same_shape_legal fs gs H) as [Hf Hg].
  unfold fingerprint_of, routePath_of, Str.normalizeDynamic.
  rewrite !replaceBrackets_segments by done. do 2 f_equal.
  apply normalizeDynamic_renamed, collapseSlashes_renamed,
    backslashToSlash_renamed, renamed_app_l, segments_renamed, H.
Qed.

(** [product/[id]] and [product/[slug]] under the prefix [/api] *)
Lemma fingerprint_ignores_names_witness :
  fingerprint_of GET (routePath_of "/api" "/product/[id]") =
  fingerprint_of GET (routePath_of "/api" "/product/[slug]").
Proof.
  apply (fingerprint_ignores_names "/api" [Plain "product"; Param "id"]
           [Plain "product"; Param "slug"] GET).
  repeat constructor.
Defined.

(** ** Entries that are not method files *)

(** X6.  Both walks are the body of their loop run on the method files
    alone, in the order the walk meets them: what the other entries hold
    is never looked at. *)
Theorem walks_method_files (opts : Options) (tsx : bool) (root : string)
    (ld : MiddlewareLoader) (currentDir prefixPath : string)
    (items : list Item) :
  let method_files :=
    List.filter is_method_file (visits currentDir prefixPath items) in
  (forall st,
     register_walk opts tsx ld currentDir prefixPath items st =
     run (register_file opts tsx ld) method_files st) /\
  (forall st,
     inspect_walk opts tsx root ld currentDir prefixPath items st =
     run (inspect_file opts tsx root ld) method_files st).
Proof.
  intros method_files. subst method_files.
  unfold register_walk, inspect_walk. split; intros st.
  - rewrite walk_run. apply run_filter.
    intros v st0. unfold is_method_file, visit_one, register_file.
    by destruct (methodMatch (v_name v)) as [[m e]|].
  - rewrite walk_run. apply run_filter.
    intros v st0. unfold is_method_file, visit_one, inspect_file.
    by destruct (methodMatch (v_name v)) as [[m e]|].
Qed.

(** ** A registration that goes through *)

(** X7.  When [registerRoutes] returns, the application holds, after the
    calls it started with, one call per method file of the tree, in the
    order of the walk, with the method and the path of that file. *)
Theorem registerRoutes_success (localeCompare : string -> string -> Z)
    (env : Env) (app0 : list RouteCall) (routesDir : string) (opts : Options)
    (app' : list RouteCall) (printed : list Error) :
  registerRoutes localeCompare env app0 routesDir opts =
    (app', printed, Ok tt) ->
  exists items registered,
    routesListing env = Some items /\
    app' = app0 ++ registered /\
    map (fun c => (rc_method c, rc_path c)) registered =
      omap (route_of (normalizedPrefix opts))
        (visits (baseDir_of env routesDir) EmptyString items).
Proof.
  unfold registerRoutes, register_walk. intros Hreg.
  destruct (routesListing env) as [items|]; [|done].
  destruct (loadMiddlewares _ _ _ _) as [ld [[]|e]]; [|by simplify_eq].
  rewrite walk_run in Hreg.
  destruct (run _ _ _) as [st r] eqn:Hrun. simplify_eq.
  apply run_app_routes in Hrun as (registered & Happ & Hmap).
  by exists items, registered.
Qed.

(** [product/GET.js] and [product/[id]/GET.js] under the prefix [/api/] *)
Lemma registerRoutes_success_witness :
  exists registered,
    (registerRoutes Sample.codeCompare (Sample.env_of Sample.product_tree) []
       "routes" Sample.api_options).1.1 = [] ++ registered /\
    map (fun c => (rc_method c, rc_path c)) registered =
      [(GET, "/api/product"); (GET, "/api/product/:id")].
Proof.
  destruct (registerRoutes_success Sample.codeCompare
              (Sample.env_of Sample.product_tree) [] "routes"
              Sample.api_options
              (registerRoutes Sample.codeCompare
                 (Sample.env_of Sample.product_tree) [] "routes"
                 Sample.api_options).1.1
              (registerRoutes Sample.codeCompare
                 (Sample.env_of Sample.product_tree) [] "routes"
                 Sample.api_options).1.2)
    as (items & registered & Hitems & Happ & Hmap); [compute_hyp|].
  exists registered. split; [exact Happ|].
  vm_compute in Hitems. injection Hitems as <-. by_computing Hmap.
Defined.

(** ** Errors of the try block *)

Lemma resolve_requested_error (cache : list (string * JsVal))
    (requested : list string) (acc : list JsVal) (e : Error) :
  resolve_requested cache requested acc = Err e ->
  exists name,
    e = MiddlewareNotFound name (Cache.keys cache) /\
    name ∈ requested /\ Cache.get name cache = None.
Proof.
  revert acc. induction requested as [|n requested IH]; intros acc; [done|].
  cbn [resolve_requested]. destruct (Cache.get n cache) as [fn|] eqn:Hn.
  - intros (name & -> & Hin & Hget)%IH. exists name.
    repeat split; [by apply list_elem_of_further|done].
  - intros [= <-]. exists n. repeat split; [apply list_elem_of_here|done].
Qed.

Lemma resolveMiddlewares_error (ld : MiddlewareLoader)
    (names : option (list string)) (e : Error) :
  resolveMiddlewares ld names = Err e ->
  exists name rest,
    e = MiddlewareNotFound name (Cache.keys (middlewareCache ld)) /\
    names = Some rest /\ name ∈ rest /\ name ≠ skip_marker /\
    Cache.get name (middlewareCache ld) = None.
Proof.
  unfold resolveMiddlewares. destruct names as [[|n names]|]; [done| |done].
  intros (name & -> & Hin & Hget)%resolve_requested_error.
  exists name, (n :: names). repeat split; try done.
  - apply list_elem_of_In, filter_In in Hin as [Hin _].
    by apply list_elem_of_In.
  - apply list_elem_of_In, filter_In in Hin as [_ Hne].
    intros ->. by rewrite String.eqb_refl in Hne.
Qed.

Lemma register_load_error (tsx : bool) (ld : MiddlewareLoader)
    (method : Method) (routePath fullPath : string)
    (content : Import RouteModule) (st st' : RegState) (e : Error) :
  register_load tsx ld method routePath fullPath content st = (st', Err e) ->
  is_dynamic_conflict e = false.
Proof.
  unfold register_load, importModule.
  destruct (String.eqb (Str.extname fullPath) ".ts" && negb tsx);
    [by intros [= _ <-]|].
  destruct content as [m|reason]; [|by intros [= _ <-]].
  destruct (js_or (rm_middlewares m) (JArr [])) eqn:Hmw;
    try by intros [= _ <-].
  destruct (resolveMiddlewares ld (Some elems)) as [chain|e'] eqn:Hres;
    [done|].
  apply resolveMiddlewares_error in Hres as (name & rest & -> & _).
  by intros [= _ <-].
Qed.

(** ** Warnings and dynamic conflicts *)

Section WarningFacts.
Variable opts : Options.
Variable tsx : bool.
Variable ld : MiddlewareLoader.

(** A visit prints at most one warning, a dynamic conflict, and only when
    the mode is not strict. *)
Lemma register_file_warnings (v : Visit) (st st' : RegState)
    (r : Result unit) :
  visit_one (register_file opts tsx ld) v st = (st', r) ->
  warnings st' = warnings st \/
  (strict opts = false /\
   exists prev m p,
     warnings st' = warnings st ++ [DynamicConflict prev (v_fullPath v) m p]).
Proof.
  unfold visit_one, register_file, register_record.
  destruct (methodMatch (v_name v)) as [[m ext]|]; [|intros [= <- _]; by left].
  destruct (extension_clash _ _ _); [intros [= <- _]; by left|].
  destruct (routeRegistry st !! _) as [prev|].
  - destruct (strict opts); [intros [= <- _]; by left|].
    intros [(e & _ & ->)|(hm & names & chain & _ & _ & _ & _ & ->)]
      %register_load_cases; right; (split; [done|]); by eexists _, _, _.
  - intros [(e & _ & ->)|(hm & names & chain & _ & _ & _ & _ & ->)]
      %register_load_cases; by left.
Qed.

Lemma register_file_not_dynamic (v : Visit) (st st' : RegState) (e : Error) :
  strict opts = false ->
  visit_one (register_file opts tsx ld) v st = (st', Err e) ->
  is_dynamic_conflict e = false.
Proof.
  intros Hs H. unfold visit_one, register_file, register_record in H.
  rewrite Hs in H.
  destruct (methodMatch (v_name v)) as [[m ext]|]; [|done].
  destruct (extension_clash _ _ _); [by simplify_eq|].
  destruct (routeRegistry st !! _); by apply register_load_error in H.
Qed.

Lemma run_warnings (vs : list Visit) (st st' : RegState) (r : Result unit) :
  run (register_file opts tsx ld) vs st = (st', r) ->
  exists printed,
    warnings st' = warnings st ++ printed /\
    Forall (fun w => is_dynamic_conflict w = true) printed /\
    (strict opts = true -> printed = []).
Proof.
  revert st. induction vs as [|v vs IH]; intros st; cbn [run].
  - intros [= <- <-]. exists []. by rewrite app_nil_r.
  - destruct (visit_one _ v st) as [st1 r1] eqn:Hv.
    apply register_file_warnings in Hv.
    assert (exists w1, warnings st1 = warnings st ++ w1 /\
              Forall (fun w => is_dynamic_conflict w = true) w1 /\
              (strict opts = true -> w1 = [])) as (w1 & H1 & Hd1 & Hs1).
    { destruct Hv as [->|(Hs & prev & m & p & ->)].
      - exists []. by rewrite app_nil_r.
      - eexists. split; [done|]. split; [by repeat constructor|].
        by rewrite Hs. }
    destruct r1 as [[]|e].
    + intros (w2 & -> & Hd2 & Hs2)%IH. exists (w1 ++ w2).
      rewrite H1, app_assoc. split; [done|]. split.
      * by apply Forall_app.
      * intros Hs. by rewrite Hs1, Hs2.
    + intros [= <- <-]. by exists w1.
Qed.

Lemma run_not_dynamic (vs : list Visit) (st st' : RegState) (e : Error) :
  strict opts = false ->
  run (register_file opts tsx ld) vs st = (st', Err e) ->
  is_dynamic_conflict e = false.
Proof.
  intros Hs. revert st. induction vs as [|v vs IH]; intros st; cbn [run];
    [done|].
  destruct (visit_one _ v st) as [st1 [[]|e1]] eqn:Hv.
  - apply IH.
  - intros [= <- <-]. by eapply register_file_not_dynamic.
Qed.

End WarningFacts.

Lemma loadMiddlewares_not_dynamic (localeCompare : string -> string -> Z)
    (tsx : bool) (dir : option (list MiddlewareFile))
    (ld ld' : MiddlewareLoader) (e : Error) :
  loadMiddlewares localeCompare tsx dir ld = (ld', Err e) ->
  is_dynamic_conflict e = false.
Proof.
  unfold loadMiddlewares. destruct (loaded ld); [done|].
  destruct dir as [files|]; [|done].
  destruct (load_files tsx files ld) as [ld1 [[]|e1]] eqn:Hload; [done|].
  intros [= <- <-]. revert ld Hload.
  induction files as [|f files IH]; intros ld; cbn [load_files]; [done|].
  destruct (load_file tsx f ld) as [ld2 [[]|e2]] eqn:Hf; [by apply IH|].
  intros [= <- <-]. unfold load_file, importMiddleware in Hf.
  repeat case_match; by simplify_eq.
Qed.

(** X8.  A dynamic conflict is thrown or printed according to the mode:
    whatever [registerRoutes] prints is a dynamic conflict; in strict mode
    it prints nothing, and otherwise the error it ends with, if any, is not
    a dynamic conflict. *)
Theorem conflict_thrown_or_printed (localeCompare : string -> string -> Z)
    (env : Env) (app0 : list RouteCall) (routesDir : string) (opts : Options) :
  let '(_, printed, r) :=
    registerRoutes localeCompare env app0 routesDir opts in
  Forall (fun w => is_dynamic_conflict w = true) printed /\
  if strict opts then printed = []
  else forall e, r = Err e -> is_dynamic_conflict e = false.
Proof.
  unfold registerRoutes, register_walk.
  destruct (routesListing env) as [items|];
    [|split; [done|destruct (strict opts); [done|by intros e [= <-]]]].
  destruct (loadMiddlewares _ _ _ _) as [ld [[]|e]] eqn:Hload.
  - rewrite walk_run. destruct (run _ _ _) as [st r] eqn:Hrun.
    destruct (run_warnings _ _ _ _ _ _ _ Hrun) as (printed & Hw & Hd & Hs).
    cbn [warnings] in Hw. rewrite Hw. cbn [app]. split; [done|].
    destruct (strict opts) eqn:Hstrict; [by apply Hs|].
    intros e ->. by eapply run_not_dynamic.
  - split; [done|]. destruct (strict opts); [done|].
    intros e' [= <-]. by eapply loadMiddlewares_not_dynamic.
Qed.

(** ** Fingerprints of the routes of a quiet registration *)

Section DistinctFacts.
Variable opts : Options.
Variable tsx : bool.
Variable ld : MiddlewareLoader.

(** A visit that goes through without a warning either leaves the
    application and [routeRegistry] alone or adds a call whose fingerprint
    was not in [routeRegistry] and is recorded there. *)
Lemma register_file_quiet (v : Visit) (st st' : RegState) :
  visit_one (register_file opts tsx ld) v st = (st', Ok tt) ->
  warnings st' = warnings st ->
  (app st' = app st /\ routeRegistry st' = routeRegistry st) \/
  (exists call,
     app st' = app st ++ [call] /\
     routeRegistry st !! call_fingerprint call = None /\
     routeRegistry st' =
       <[call_fingerprint call := v_fullPath v]> (routeRegistry st)).
Proof.
  unfold visit_one, register_file, register_record.
  destruct (methodMatch (v_name v)) as [[m ext]|]; [|intros [= <-]; by left].
  destruct (extension_clash _ _ _); [done|].
  destruct (routeRegistry st !! _) as [prev|] eqn:Hfp.
  - destruct (strict opts); [done|].
    intros [(e & ? & _)|(hm & names & chain & _ & _ & _ & _ & ->)]
      %register_load_cases; [done|].
    cbn [warnings]. intros Hw. apply (f_equal length) in Hw.
    rewrite length_app in Hw. cbn in Hw. lia.
  - intros [(e & ? & _)|(hm & names & chain & _ & _ & _ & _ & ->)]
      %register_load_cases; [done|].
    intros _. right. eexists. split; [done|]. by split.
Qed.

Lemma run_quiet_distinct (vs : list Visit) (app0 : list RouteCall) :
  forall (st st' : RegState) (new : list RouteCall),
    run (register_file opts tsx ld) vs st = (st', Ok tt) ->
    warnings st' = warnings st ->
    app st = app0 ++ new ->
    NoDup (map call_fingerprint new) ->
    (forall c, c ∈ new -> is_Some (routeRegistry st !! call_fingerprint c)) ->
    exists new',
      app st' = app0 ++ new' /\
      NoDup (map call_fingerprint new') /\
      (forall c, c ∈ new' ->
                 is_Some (routeRegistry st' !! call_fingerprint c)).
Proof.
  induction vs as [|v vs IH]; intros st st' new; cbn [run].
  - intros [= <-] _ Happ Hnd Hreg. by exists new.
  - destruct (visit_one _ v st) as [st1 [[]|e]] eqn:Hv; [|done].
    intros Hrun Hw Happ Hnd Hreg.
    destruct (run_warnings _ _ _ _ _ _ _ Hrun) as (w2 & Hw2 & _).
    destruct (register_file_warnings _ _ _ _ _ _ _ Hv) as [Hw1|Hw1].
    + assert (w2 = []) as ->.
      { rewrite Hw2, Hw1 in Hw. rewrite <- (app_nil_r (warnings st)) in Hw at 2.
        by apply app_inv_head in Hw. }
      rewrite app_nil_r in Hw2.
      destruct (register_file_quiet v st st1 Hv Hw1)
        as [[Ha Hr]|(call & Ha & Hnone & Hr)].
      * eapply (IH st1 st' new); try done; by rewrite ?Ha, ?Hr.
      * eapply (IH st1 st' (new ++ [call])); try done.
        -- by rewrite Ha, Happ, app_assoc.
        -- rewrite map_app. apply NoDup_app. split; [done|]. split.
           ++ intros fp Hin [<-|[]]%list_elem_of_In.
              apply list_elem_of_In, in_map_iff in Hin as (c & Hc & Hin).
              apply list_elem_of_In, Hreg in Hin as [x Hx].
              rewrite Hc in Hx. congruence.
           ++ apply NoDup_singleton.
        -- intros c [Hc| ->%list_elem_of_singleton]%elem_of_app; rewrite Hr.
           ++ destruct (decide (call_fingerprint call = call_fingerprint c))
                as [->|Hne].
              ** by rewrite lookup_insert_eq.
              ** rewrite lookup_insert_ne by done. by apply Hreg.
           ++ by rewrite lookup_insert_eq.
    + destruct Hw1 as (_ & prev & m & p & Hw1). exfalso.
      rewrite Hw2, Hw1 in Hw. apply (f_equal length) in Hw.
      rewrite !length_app in Hw. cbn in Hw. lia.
Qed.

End DistinctFacts.

(** X9.  A registration that goes through in strict mode, or without
    printing a warning, has handed the host routes with pairwise distinct
    fingerprints. *)
Theorem quiet_fingerprints_distinct (localeCompare : string -> string -> Z)
    (env : Env) (app0 : list RouteCall) (routesDir : string) (opts : Options)
    (app' : list RouteCall) (printed : list Error) :
  registerRoutes localeCompare env app0 routesDir opts =
    (app', printed, Ok tt) ->
  strict opts = true \/ printed = [] ->
  exists registered,
    app' = app0 ++ registered /\
    NoDup (map call_fingerprint registered).
Proof.
  unfold registerRoutes, register_walk. intros Hreg Hquiet.
  destruct (routesListing env) as [items|]; [|done].
  destruct (loadMiddlewares _ _ _ _) as [ld [[]|e]]; [|by simplify_eq].
  rewrite walk_run in Hreg.
  destruct (run _ _ _) as [st r] eqn:Hrun. simplify_eq.
  destruct (run_warnings _ _ _ _ _ _ _ Hrun) as (w & Hw & _ & Hs).
  assert (warnings st = []) as Hnone.
  { destruct Hquiet as [Hstrict|Hp]; [|done]. by rewrite Hw, Hs. }
  destruct (run_quiet_distinct opts (tsxAvailable env) ld _ app0 _ st []
              Hrun) as (new & Happ & Hnd & _); cbn; try done.
  - by rewrite app_nil_r.
  - constructor.
  - intros c Hc. by apply elem_of_nil in Hc.
  - by exists new.
Qed.

Lemma quiet_fingerprints_distinct_witness :
  exists registered,
    (registerRoutes Sample.codeCompare (Sample.env_of Sample.product_tree) []
       "routes" Sample.strict_options).1.1 = [] ++ registered /\
    NoDup (map call_fingerprint registered).
Proof.
  apply (quiet_fingerprints_distinct Sample.codeCompare
           (Sample.env_of Sample.product_tree) [] "routes"
           Sample.strict_options
           (registerRoutes Sample.codeCompare
              (Sample.env_of Sample.product_tree) [] "routes"
              Sample.strict_options).1.1
           (registerRoutes Sample.codeCompare
              (Sample.env_of Sample.product_tree) [] "routes"
              Sample.strict_options).1.2).
  - compute_hyp.
  - left. reflexivity.
Defined.

(** ** TypeScript route files without [tsx] *)

(** X10.  Without [tsx], the import of a method file fails for want of
    TypeScript support exactly when the extension in its name is [ts] in
    lower case. *)
Theorem ts_route_without_tsx (dir name : string) (m : Method) (e : string)
    (content : Import RouteModule) :
  methodMatch name = Some (m, e) ->
  let fullPath := Str.path_join dir name in
  importModule false fullPath content = Err (CannotLoadTsRoute fullPath) <->
  e = "ts".
Proof.
  intros Hm fullPath. unfold importModule, fullPath.
  rewrite (extname_method_file dir name m e Hm).
  change (String.eqb ("." +:+ e) ".ts") with (String.eqb e "ts").
  destruct (String.eqb_spec e "ts") as [->|Hne]; cbn [andb negb].
  - done.
  - split; [|done]. by destruct content.
Qed.

Lemma ts_route_without_tsx_witness :
  importModule false "/app/src/routes/product/GET.ts"
    (Sample.module (JFunc 13) JUndefined JUndefined) =
  Err (CannotLoadTsRoute "/app/src/routes/product/GET.ts").
Proof.
  assert (methodMatch "GET.ts" = Some (GET, "ts")) as Hm by reflexivity.
  destruct (ts_route_without_tsx "/app/src/routes/product" "GET.ts" GET "ts"
              (Sample.module (JFunc 13) JUndefined JUndefined) Hm) as [_ H].
  apply H. reflexivity.
Defined.

(** X11.  A registration that goes through without [tsx] met no method file
    whose extension is [ts]. *)
Theorem registerRoutes_without_tsx (localeCompare : string -> string -> Z)
    (env : Env) (app0 : list RouteCall) (routesDir : string) (opts : Options)
    (app' : list RouteCall) (printed : list Error) (items : list Item)
    (v : Visit) (m : Method) :
  tsxAvailable env = false ->
  routesListing env = Some items ->
  registerRoutes localeCompare env app0 routesDir opts =
    (app', printed, Ok tt) ->
  v ∈ visits (baseDir_of env routesDir) EmptyString items ->
  methodMatch (v_name v) ≠ Some (m, "ts").
Proof.
  unfold registerRoutes, register_walk. intros Htsx Hitems Hreg Hv Hm.
  rewrite Hitems, Htsx in Hreg.
  destruct (loadMiddlewares _ _ _ _) as [ld [[]|e]]; [|by simplify_eq].
  rewrite walk_run in Hreg.
  destruct (run _ _ _) as [st r] eqn:Hrun. simplify_eq.
  destruct (run_calls _ _ _ _ _ _ Hrun v m "ts" Hv Hm)
    as (hmod & chain & Himp & _).
  unfold v_fullPath in Himp.
  pose proof (Hext := extname_method_file (v_dir v) (v_name v) m "ts" Hm).
  unfold importModule in Himp. rewrite Hext in Himp. done.
Qed.

Lemma registerRoutes_without_tsx_witness :
  methodMatch (v_name Sample.get_js) ≠ Some (GET, "ts").
Proof.
  apply (registerRoutes_without_tsx Sample.codeCompare
           (Sample.env_without_tsx Sample.product_tree) [] "routes"
           default_options
           (registerRoutes Sample.codeCompare
              (Sample.env_without_tsx Sample.product_tree) [] "routes"
              default_options).1.1
           (registerRoutes Sample.codeCompare
              (Sample.env_without_tsx Sample.product_tree) [] "routes"
              default_options).1.2
           Sample.product_tree Sample.get_js GET).
  - reflexivity.
  - reflexivity.
  - compute_hyp.
  - vm_compute. pick.
Defined.

(** ** Where a failure of [registerRoutes] comes from *)

Lemma load_files_error (tsx : bool) (files : list MiddlewareFile)
    (ld ld' : MiddlewareLoader) (e : Error) :
  load_files tsx files ld = (ld', Err e) -> loader_error e = true.
Proof.
  revert ld. induction files as [|f files IH]; intros ld; cbn [load_files];
    [done|].
  destruct (load_file tsx f ld) as [ld1 [[]|e1]] eqn:Hf; [apply IH|].
  intros [= <- <-]. unfold load_file, importMiddleware in Hf.
  destruct (mf_isDirectory f); [done|].
  destruct (negb (Str.hasScriptSuffix (mf_name f))); [done|].
  destruct (String.eqb _ ".ts"), tsx, (mf_import f) as [m|reason];
    try (by injection Hf as _ <-);
    (destruct (negb (truthy _) || negb (String.eqb _ "function"));
     [by injection Hf as _ <-|done]).
Qed.

Lemma loadMiddlewares_error (localeCompare : string -> string -> Z)
    (tsx : bool) (dir : option (list MiddlewareFile))
    (ld ld' : MiddlewareLoader) (e : Error) :
  loadMiddlewares localeCompare tsx dir ld = (ld', Err e) ->
  loader_error e = true.
Proof.
  unfold loadMiddlewares. destruct (loaded ld); [done|].
  destruct dir as [files|]; [|done].
  destruct (load_files tsx files ld) as [ld1 [[]|e1]] eqn:Hload; [done|].
  intros [= <- <-]. by eapply load_files_error.
Qed.

Lemma register_load_walk_error (tsx : bool) (ld : MiddlewareLoader)
    (method : Method) (routePath fullPath : string)
    (content : Import RouteModule) (st st' : RegState) (e : Error) :
  register_load tsx ld method routePath fullPath content st = (st', Err e) ->
  walk_error e = true.
Proof.
  unfold register_load, importModule.
  destruct (String.eqb (Str.extname fullPath) ".ts" && negb tsx);
    [by intros [= _ <-]|].
  destruct content as [m|reason]; [|by intros [= _ <-]].
  destruct (js_or (rm_middlewares m) (JArr [])) eqn:Hmw;
    try by intros [= _ <-].
  destruct (resolveMiddlewares ld (Some elems)) as [chain|e'] eqn:Hres;
    [done|].
  apply resolveMiddlewares_error in Hres as (name & rest & -> & _).
  by intros [= _ <-].
Qed.

Lemma run_walk_error (opts : Options) (tsx : bool) (ld : MiddlewareLoader)
    (vs : list Visit) (st st' : RegState) (e : Error) :
  run (register_file opts tsx ld) vs st = (st', Err e) ->
  walk_error e = true.
Proof.
  revert st. induction vs as [|v vs IH]; intros st; cbn [run]; [done|].
  destruct (visit_one _ v st) as [st1 [[]|e1]] eqn:Hv; [apply IH|].
  intros [= <- <-]. unfold visit_one, register_file, register_record in Hv.
  destruct (methodMatch (v_name v)) as [[m ext]|]; [|done].
  destruct (extension_clash _ _ _); [by injection Hv as _ <-|].
  destruct (routeRegistry st !! _) as [prev|].
  - destruct (strict opts); [by injection Hv as _ <-|].
    by apply register_load_walk_error in Hv.
  - by apply register_load_walk_error in Hv.
Qed.

(** X12.  A failure of [registerRoutes] is the missing routes directory,
    with the application untouched and nothing printed; or an error of the
    middleware catalog, with the application untouched and nothing printed;
    or an error of the walk, after the catalog was loaded. *)
Theorem registerRoutes_failure (localeCompare : string -> string -> Z)
    (env : Env) (app0 : list RouteCall) (routesDir : string) (opts : Options)
    (app' : list RouteCall) (printed : list Error) (e : Error) :
  registerRoutes localeCompare env app0 routesDir opts =
    (app', printed, Err e) ->
  let catalog :=
    loadMiddlewares localeCompare (tsxAvailable env) (middlewaresListing env)
      (new_loader (projectRoot env)) in
  match routesListing env with
  | None =>
      e = RoutesDirNotFound (baseDir_of env routesDir) /\
      app' = app0 /\ printed = []
  | Some _ =>
      (catalog.2 = Err e /\ loader_error e = true /\
       app' = app0 /\ printed = []) \/
      (catalog.2 = Ok tt /\ walk_error e = true)
  end.
Proof.
  intros Hreg catalog. subst catalog.
  unfold registerRoutes, register_walk in Hreg.
  destruct (routesListing env) as [items|]; [|by simplify_eq].
  destruct (loadMiddlewares _ _ _ _) as [ld [[]|e1]] eqn:Hload.
  - right. split; [done|]. rewrite walk_run in Hreg.
    destruct (run _ _ _) as [st r] eqn:Hrun. simplify_eq.
    by eapply run_walk_error.
  - left. simplify_eq. repeat split. by eapply loadMiddlewares_error.
Qed.

(** [admin/POST.js] with its string export: an error of the walk *)
Lemma registerRoutes_failure_witness :
  (loadMiddlewares Sample.codeCompare true (Some Sample.middlewares)
     (new_loader "/app")).2 = Ok tt /\
  walk_error (InvalidMiddlewares "/app/src/routes/admin/POST.js" "string")
    = true.
Proof.
  destruct (registerRoutes_failure Sample.codeCompare
              (Sample.env_of Sample.failing_tree) [] "routes" default_options
              (registerRoutes Sample.codeCompare
                 (Sample.env_of Sample.failing_tree) [] "routes"
                 default_options).1.1
              (registerRoutes Sample.codeCompare
                 (Sample.env_of Sample.failing_tree) [] "routes"
                 default_options).1.2
              (InvalidMiddlewares "/app/src/routes/admin/POST.js" "string"))
    as [(Hc & _)|(Hc & He)]; [compute_hyp| |].
  - vm_compute in Hc. discriminate Hc.
  - split; [exact Hc|exact He].
Defined.

(** ** The cache *)

Lemma cache_get_set (k k' : string) (v : JsVal) (c : list (string * JsVal)) :
  Cache.get k' (Cache.set k v c) =
  if String.eqb k k' then Some v else Cache.get k' c.
Proof.
  induction c as [|[k0 v0] c IH]; cbn [Cache.set Cache.get].
  - done.
  - destruct (String.eqb_spec k0 k) as [->|Hne]; cbn [Cache.get].
    + by destruct (String.eqb k k').
    + destruct (String.eqb_spec k0 k') as [->|Hne'].
      * destruct (String.eqb_spec k k') as [->|_]; [done|done].
      * exact IH.
Qed.

Lemma cache_keys_set (k k' : string) (v : JsVal) (c : list (string * JsVal)) :
  k' ∈ Cache.keys (Cache.set k v c) <-> k' = k \/ k' ∈ Cache.keys c.
Proof.
  unfold Cache.keys.
  induction c as [|[k0 v0] c IH]; cbn [Cache.set map fst].
  - rewrite list_elem_of_singleton. split; [by left|].
    intros [->|H]; [done|by apply elem_of_nil in H].
  - destruct (String.eqb_spec k0 k) as [->|Hne]; cbn [map fst].
    + rewrite !elem_of_cons. tauto.
    + rewrite !elem_of_cons, IH. tauto.
Qed.

Lemma cache_keys_set_NoDup (k : string) (v : JsVal)
    (c : list (string * JsVal)) :
  NoDup (Cache.keys c) -> NoDup (Cache.keys (Cache.set k v c)).
Proof.
  unfold Cache.keys.
  induction c as [|[k0 v0] c IH]; cbn [Cache.set map fst].
  - intros _. apply NoDup_singleton.
  - intros [Hnotin Hnd]%NoDup_cons.
    destruct (String.eqb_spec k0 k) as [->|Hne]; cbn [map fst].
    + by apply NoDup_cons.
    + apply NoDup_cons. split; [|by apply IH].
      intros [->|Hin]%(cache_keys_set k k0 v c); done.
Qed.

Lemma cache_get_elem (k : string) (v : JsVal) (c : list (string * JsVal)) :
  Cache.get k c = Some v -> (k, v) ∈ c.
Proof.
  induction c as [|[k0 v0] c IH]; cbn [Cache.get]; [done|].
  destruct (String.eqb_spec k0 k) as [->|Hne].
  - intros [= ->]. apply list_elem_of_here.
  - intros H. by apply list_elem_of_further, IH.
Qed.

Lemma cache_set_functions (k : string) (v : JsVal)
    (c : list (string * JsVal)) :
  is_function v = true ->
  Forall (fun kv => is_function kv.2 = true) c ->
  Forall (fun kv => is_function kv.2 = true) (Cache.set k v c).
Proof.
  intros Hv. induction 1 as [|[k0 v0] c H0 Hc IH]; cbn [Cache.set].
  - by repeat constructor.
  - destruct (String.eqb k0 k); by constructor.
Qed.

(** ** One entry of the middleware directory *)

Lemma load_file_cases (tsx : bool) (f : MiddlewareFile)
    (ld ld' : MiddlewareLoader) (r : Result unit) :
  load_file tsx f ld = (ld', r) ->
  (is_script f = false /\ ld' = ld /\ r = Ok tt) \/
  (is_script f = true /\ ld' = ld /\ exists e, r = Err e) \/
  (is_script f = true /\ r = Ok tt /\
   exists fn,
     exported_middleware f = Some fn /\
     is_function fn = true /\
     ld' = {| middlewaresDir := middlewaresDir ld;
              middlewareCache :=
                Cache.set (middleware_name (mf_name f)) fn (middlewareCache ld);
              globalMiddlewares :=
                if Str.includes "._global." (mf_name f)
                then globalMiddlewares ld ++
                     [{| mw_name := middleware_name (mf_name f);
                         mw_fn := fn |}]
                else globalMiddlewares ld;
              loaded := loaded ld |}).
Proof.
  unfold load_file, is_script, exported_middleware, importMiddleware.
  destruct (mf_isDirectory f); [intros [= <- <-]; by left|].
  destruct (Str.hasScriptSuffix (mf_name f)); [|intros [= <- <-]; by left].
  cbn [negb andb]. intros H. right.
  destruct (mf_import f) as [module|reason].
  - destruct (String.eqb _ ".ts"), tsx;
      try (injection H as <- <-; left; by eauto);
      (destruct (negb (truthy _) || negb (String.eqb _ "function")) eqn:Hbad;
       injection H as <- <-; [left; by eauto|]);
      right; repeat split;
      apply orb_false_iff in Hbad as [_ Hfn%negb_false_iff]; by eexists.
  - destruct (String.eqb _ ".ts"), tsx; injection H as <- <-; left; eauto.
Qed.

Lemma load_file_loaded (tsx : bool) (f : MiddlewareFile)
    (ld ld' : MiddlewareLoader) (r : Result unit) :
  load_file tsx f ld = (ld', r) -> loaded ld' = loaded ld.
Proof.
  intros [(_ & -> & _)|[(_ & -> & _)|(_ & _ & fn & _ & _ & ->)]]
    %load_file_cases; done.
Qed.

Lemma load_files_loaded (tsx : bool) (files : list MiddlewareFile)
    (ld ld' : MiddlewareLoader) (r : Result unit) :
  load_files tsx files ld = (ld', r) -> loaded ld' = loaded ld.
Proof.
  revert ld. induction files as [|f files IH]; intros ld; cbn [load_files].
  - by intros [= <- _].
  - destruct (load_file tsx f ld) as [ld1 [[]|e]] eqn:Hf.
    + intros ->%IH. by eapply load_file_loaded.
    + intros [= <- _]. by eapply load_file_loaded.
Qed.

(** X13.  [loadMiddlewares] sets the flag exactly when it returns, and once
    the flag is set a later call changes nothing, whatever the directory
    holds by then; after a failure the flag is not set. *)
Theorem loadMiddlewares_once (localeCompare : string -> string -> Z)
    (tsx : bool) (dir : option (list MiddlewareFile))
    (ld ld' : MiddlewareLoader) (r : Result unit) :
  loadMiddlewares localeCompare tsx dir ld = (ld', r) ->
  match r with
  | Ok _ =>
      loaded ld' = true /\
      forall tsx' dir',
        loadMiddlewares localeCompare tsx' dir' ld' = (ld', Ok tt)
  | Err _ => loaded ld' = false
  end.
Proof.
  unfold loadMiddlewares at 1. destruct (loaded ld) eqn:Hl.
  - intros [= <- <-]. split; [done|]. intros tsx' dir'.
    unfold loadMiddlewares. by rewrite Hl.
  - assert (forall l, loaded l = true ->
              forall tsx' dir',
                loadMiddlewares localeCompare tsx' dir' l = (l, Ok tt)) as Hid.
    { intros l Ht tsx' dir'. unfold loadMiddlewares. by rewrite Ht. }
    destruct dir as [files|]; [|intros [= <- <-]; split; [done|by apply Hid]].
    destruct (load_files tsx files ld) as [ld1 [[]|e]] eqn:Hload.
    + intros [= <- <-]. split; [done|by apply Hid].
    + intros [= <- <-]. apply load_files_loaded in Hload. congruence.
Qed.

Lemma loadMiddlewares_once_witness :
  loaded Sample.loader = true /\
  loadMiddlewares Sample.codeCompare false None Sample.loader =
    (Sample.loader, Ok tt).
Proof.
  destruct (loadMiddlewares_once Sample.codeCompare true
              (Some Sample.middlewares) (new_loader "/app") Sample.loader
              (Ok tt)) as [H1 H2]; [reflexivity|].
  split; [exact H1|apply H2].
Defined.

(** ** Functions only *)

Lemma load_files_functions (tsx : bool) (files : list MiddlewareFile)
    (ld ld' : MiddlewareLoader) (r : Result unit) :
  load_files tsx files ld = (ld', r) ->
  holds_functions ld -> holds_functions ld'.
Proof.
  revert ld. induction files as [|f files IH]; intros ld; cbn [load_files].
  - by intros [= <- _].
  - destruct (load_file tsx f ld) as [ld1 r1] eqn:Hf.
    assert (holds_functions ld -> holds_functions ld1) as Hstep.
    { apply load_file_cases in Hf
        as [(_ & -> & _)|[(_ & -> & _)|(_ & _ & fn & _ & Hfn & ->)]]; try done.
      intros [Hc Hg]. split; cbn.
      - by apply cache_set_functions.
      - destruct (Str.includes _ _); [|done].
        apply Forall_app. split; [done|]. by repeat constructor. }
    destruct r1 as [[]|e]; [intros H ?; eapply IH; eauto|].
    intros [= <- _]. exact Hstep.
Qed.

Lemma loadMiddlewares_functions (localeCompare : string -> string -> Z)
    (tsx : bool) (dir : option (list MiddlewareFile))
    (ld ld' : MiddlewareLoader) (r : Result unit) :
  loadMiddlewares localeCompare tsx dir ld = (ld', r) ->
  holds_functions ld -> holds_functions ld'.
Proof.
  unfold loadMiddlewares. destruct (loaded ld); [by intros [= <- _]|].
  destruct dir as [files|]; [|by intros [= <- _]].
  destruct (load_files tsx files ld) as [ld1 r1] eqn:Hload.
  intros H Hld.
  pose proof (load_files_functions _ _ _ _ _ Hload Hld) as [Hc Hg].
  destruct r1 as [[]|e]; simplify_eq; split; cbn; try done.
  by rewrite sort_by_Permutation.
Qed.

Lemma resolve_requested_functions (cache : list (string * JsVal))
    (requested : list string) (acc chain : list JsVal) :
  Forall (fun kv => is_function kv.2 = true) cache ->
  Forall (fun fn => is_function fn = true) acc ->
  resolve_requested cache requested acc = Ok chain ->
  Forall (fun fn => is_function fn = true) chain.
Proof.
  intros Hc. revert acc.
  induction requested as [|n requested IH]; intros acc Hacc;
    cbn [resolve_requested].
  - by intros [= <-].
  - destruct (Cache.get n cache) as [fn|] eqn:Hn; [|done].
    apply IH. apply Forall_app. split; [done|].
    apply cache_get_elem in Hn. rewrite Forall_forall in Hc.
    repeat constructor. exact (Hc _ Hn).
Qed.

Lemma resolveMiddlewares_functions (ld : MiddlewareLoader)
    (names : option (list string)) (chain : list JsVal) :
  holds_functions ld ->
  resolveMiddlewares ld names = Ok chain ->
  Forall (fun fn => is_function fn = true) chain.
Proof.
  intros [Hc Hg]. unfold resolveMiddlewares.
  assert (Forall (fun fn => is_function fn = true)
            (map mw_fn (globalMiddlewares ld))) as Hgl.
  { by apply Forall_map. }
  destruct names as [[|n names]|]; try by intros [= <-].
  apply resolve_requested_functions; [done|].
  by destruct (existsb _ _).
Qed.

(** X14.  After [loadMiddlewares] on a new loader, whatever
    [resolveMiddlewares] returns holds functions only. *)
Theorem chain_holds_functions (localeCompare : string -> string -> Z)
    (tsx : bool) (dir : option (list MiddlewareFile)) (root : string)
    (ld : MiddlewareLoader) (names : option (list string))
    (chain : list JsVal) :
  loadMiddlewares localeCompare tsx dir (new_loader root) = (ld, Ok tt) ->
  resolveMiddlewares ld names = Ok chain ->
  Forall (fun fn => is_function fn = true) chain.
Proof.
  intros Hload. apply resolveMiddlewares_functions.
  eapply loadMiddlewares_functions; [exact Hload|]. by split.
Qed.

Lemma chain_holds_functions_witness :
  Forall (fun fn => is_function fn = true) [JFunc 3; JFunc 1; JFunc 2].
Proof.
  apply (chain_holds_functions Sample.codeCompare true
           (Some Sample.middlewares) "/app" Sample.loader
           (Some ["checkAuth"]) [JFunc 3; JFunc 1; JFunc 2]); reflexivity.
Defined.

(** ** The chains the host receives *)

Section ChainFacts.
Variable opts : Options.
Variable tsx : bool.
Variable ld : MiddlewareLoader.
Hypothesis ld_functions : holds_functions ld.

Lemma register_file_functions (v : Visit) (st st' : RegState)
    (r : Result unit) :
  visit_one (register_file opts tsx ld) v st = (st', r) ->
  exists new,
    app st' = app st ++ new /\
    Forall (fun c => Forall (fun fn => is_function fn = true)
                       (rc_middlewares c)) new.
Proof.
  assert (forall method routePath fullPath content s s' r',
            register_load tsx ld method routePath fullPath content s
              = (s', r') ->
            exists new,
              app s' = app s ++ new /\
              Forall (fun c => Forall (fun fn => is_function fn = true)
                                 (rc_middlewares c)) new) as Hload.
  { intros method routePath fullPath content s s' r'
      [(e & _ & ->)|(hm & names & chain & _ & _ & _ & Hres & ->)]
      %register_load_cases.
    - exists []. by rewrite app_nil_r.
    - eexists. split; [done|]. repeat constructor. cbn.
      by eapply resolveMiddlewares_functions. }
  unfold visit_one, register_file, register_record.
  destruct (methodMatch (v_name v)) as [[m ext]|];
    [|intros [= <- _]; exists []; by rewrite app_nil_r].
  destruct (extension_clash _ _ _);
    [intros [= <- _]; exists []; by rewrite app_nil_r|].
  destruct (routeRegistry st !! _) as [prev|].
  - destruct (strict opts);
      [intros [= <- _]; exists []; by rewrite app_nil_r|].
    intros H. by apply Hload in H.
  - intros H. by apply Hload in H.
Qed.

Lemma run_functions (vs : list Visit) (st st' : RegState) (r : Result unit) :
  run (register_file opts tsx ld) vs st = (st', r) ->
  exists new,
    app st' = app st ++ new /\
    Forall (fun c => Forall (fun fn => is_function fn = true)
                       (rc_middlewares c)) new.
Proof.
  revert st. induction vs as [|v vs IH]; intros st; cbn [run].
  - intros [= <- _]. exists []. by rewrite app_nil_r.
  - destruct (visit_one _ v st) as [st1 r1] eqn:Hv.
    apply register_file_functions in Hv as (new1 & H1 & Hf1).
    destruct r1 as [[]|e].
    + intros (new2 & -> & Hf2)%IH. exists (new1 ++ new2).
      rewrite H1, app_assoc. split; [done|]. by apply Forall_app.
    + intros [= <- _]. by exists new1.
Qed.

End ChainFacts.

(** X15.  However [registerRoutes] ends, every middleware it has passed to
    the host with a route is a function. *)
Theorem registered_middlewares_functions
    (localeCompare : string -> string -> Z) (env : Env)
    (app0 : list RouteCall) (routesDir : string) (opts : Options) :
  exists registered,
    (registerRoutes localeCompare env app0 routesDir opts).1.1 =
      app0 ++ registered /\
    Forall (fun c => Forall (fun fn => is_function fn = true)
                       (rc_middlewares c)) registered.
Proof.
  unfold registerRoutes, register_walk.
  destruct (routesListing env) as [items|];
    [|exists []; by rewrite app_nil_r].
  destruct (loadMiddlewares _ _ _ _) as [ld [[]|e]] eqn:Hload;
    [|exists []; by rewrite app_nil_r].
  rewrite walk_run. destruct (run _ _ _) as [st r] eqn:Hrun. cbn.
  eapply run_functions in Hrun as (new & Hnew & Hf); [by exists new|].
  eapply loadMiddlewares_functions; [exact Hload|]. by split.
Qed.

(** ** The names [getAvailableMiddlewares] lists *)

Lemma load_file_catalog (tsx : bool) (f : MiddlewareFile)
    (seen : list MiddlewareFile) (ld ld' : MiddlewareLoader) :
  load_file tsx f ld = (ld', Ok tt) ->
  catalog_of seen ld -> catalog_of (seen ++ [f]) ld'.
Proof.
  intros [(Hskip & -> & _)|[(_ & _ & e & ?)|(Hs & _ & fn & _ & _ & ->)]]
    %load_file_cases (Hnd & Hkeys & Hglobals); [|done|].
  - split; [done|]. split; intros n; [rewrite Hkeys|rewrite Hglobals].
    + split; intros (g & Hg & Hrest).
      * exists g. split; [apply elem_of_app; by left|done].
      * apply elem_of_app in Hg as [Hg| ->%list_elem_of_singleton];
          [by exists g|]. destruct Hrest as [? _]. congruence.
    + split; intros (g & Hg & Hrest).
      * exists g. split; [apply elem_of_app; by left|done].
      * apply elem_of_app in Hg as [Hg| ->%list_elem_of_singleton];
          [by exists g|]. destruct Hrest as [? _]. congruence.
  - split; [by apply cache_keys_set_NoDup|]. cbn. split; intros n.
    + rewrite cache_keys_set, Hkeys. split.
      * intros [->|(g & Hg & Hrest)].
        -- exists f.
           split; [apply elem_of_app; right; apply list_elem_of_here|].
           done.
        -- exists g. split; [apply elem_of_app; by left|done].
      * intros (g & [Hg| ->%list_elem_of_singleton]%elem_of_app & Hg1 & ->);
          [right; by exists g|by left].
    + destruct (Str.includes "._global." (mf_name f)) eqn:Hgl.
      * rewrite map_app, elem_of_app, Hglobals. cbn [map mw_name].
        rewrite list_elem_of_singleton. split.
        -- intros [(g & Hg & Hrest)| ->].
           ++ exists g. split; [apply elem_of_app; by left|done].
           ++ exists f.
              split; [apply elem_of_app; right; apply list_elem_of_here|].
              done.
        -- intros (g & [Hg| ->%list_elem_of_singleton]%elem_of_app & Hrest);
             [left; by exists g|right; by destruct Hrest as (_ & _ & ->)].
      * rewrite Hglobals. split; intros (g & Hg & Hrest).
        -- exists g. split; [apply elem_of_app; by left|done].
        -- apply elem_of_app in Hg as [Hg| ->%list_elem_of_singleton];
             [by exists g|]. destruct Hrest as (_ & ? & _). congruence.
Qed.

Lemma load_files_catalog (tsx : bool) (files seen : list MiddlewareFile)
    (ld ld' : MiddlewareLoader) :
  load_files tsx files ld = (ld', Ok tt) ->
  catalog_of seen ld -> catalog_of (seen ++ files) ld'.
Proof.
  revert seen ld. induction files as [|f files IH]; intros seen ld;
    cbn [load_files].
  - intros [= <-]. by rewrite app_nil_r.
  - destruct (load_file tsx f ld) as [ld1 [[]|e]] eqn:Hf; [|done].
    intros Hrest Hcat. rewrite (cons_middle f), app_assoc.
    eapply IH; [exact Hrest|]. by eapply load_file_catalog.
Qed.

(** X16.  After [loadMiddlewares] on a new loader,
    [getAvailableMiddlewares] lists as available, each once, the names of
    the script files of the middleware directory, and as global those of
    the files marked as global; every global name is an available one. *)
Theorem available_middlewares (localeCompare : string -> string -> Z)
    (tsx : bool) (dir : option (list MiddlewareFile)) (root : string)
    (ld : MiddlewareLoader) :
  loadMiddlewares localeCompare tsx dir (new_loader root) = (ld, Ok tt) ->
  let files := default [] dir in
  let '(globals, available) := getAvailableMiddlewares ld in
  NoDup available /\
  (forall n, n ∈ available <->
     exists f, f ∈ files /\ is_script f = true /\
       n = middleware_name (mf_name f)) /\
  (forall n, n ∈ globals <->
     exists f, f ∈ files /\ is_script f = true /\
       Str.includes "._global." (mf_name f) = true /\
       n = middleware_name (mf_name f)) /\
  (forall n, n ∈ globals -> n ∈ available).
Proof.
  intros Hload files. unfold getAvailableMiddlewares.
  assert (catalog_of files ld) as (Hnd & Hkeys & Hglobals).
  { subst files. unfold loadMiddlewares in Hload.
    cbn [loaded new_loader] in Hload.
    assert (catalog_of [] (new_loader root)) as Hnew.
    { split; [constructor|]. split; intros n; cbn.
      - split; [by intros ?%elem_of_nil|by intros (f & ?%elem_of_nil & _)].
      - split; [by intros ?%elem_of_nil|by intros (f & ?%elem_of_nil & _)]. }
    destruct dir as [listing|]; [|by simplify_eq].
    destruct (load_files tsx listing (new_loader root)) as [ld1 [[]|e]]
      eqn:Hfiles; [|done].
    injection Hload as <-.
    destruct (load_files_catalog _ _ [] _ _ Hfiles Hnew) as (H1 & H2 & H3).
    change (default [] (Some listing)) with listing.
    change ([] ++ listing) with listing in H2, H3.
    split; [done|]. split; [done|]. intros n. cbn [globalMiddlewares].
    rewrite <- H3. by rewrite sort_by_Permutation. }
  split; [done|]. split; [done|]. split; [done|].
  intros n (f & Hf & Hs & _ & ->)%Hglobals. apply Hkeys. by exists f.
Qed.

Lemma available_middlewares_witness :
  NoDup (getAvailableMiddlewares Sample.loader).2 /\
  (forall n, n ∈ (getAvailableMiddlewares Sample.loader).1 ->
             n ∈ (getAvailableMiddlewares Sample.loader).2).
Proof.
  destruct (available_middlewares Sample.codeCompare true
              (Some Sample.middlewares) "/app" Sample.loader)
    as (Hnd & _ & _ & Hsub); [reflexivity|].
  split; [exact Hnd|exact Hsub].
Defined.

(** ** The file a name of the cache stands for *)

Lemma load_files_app (tsx : bool) (a b : list MiddlewareFile)
    (ld : MiddlewareLoader) :
  load_files tsx (a ++ b) ld =
  match load_files tsx a ld with
  | (ld', Ok _) => load_files tsx b ld'
  | (ld', Err e) => (ld', Err e)
  end.
Proof.
  revert ld. induction a as [|f a IH]; intros ld; [done|].
  rewrite <- app_comm_cons. cbn [load_files].
  destruct (load_file tsx f ld) as [ld1 [[]|e]]; [apply IH|done].
Qed.

Lemma load_files_keeps (tsx : bool) (files : list MiddlewareFile)
    (name : string) (fn : JsVal) :
  Forall (fun g => is_script g = true ->
                   middleware_name (mf_name g) ≠ name) files ->
  forall ld ld',
    load_files tsx files ld = (ld', Ok tt) ->
    Cache.get name (middlewareCache ld) = Some fn ->
    Cache.get name (middlewareCache ld') = Some fn.
Proof.
  induction 1 as [|g files Hg _ IH]; intros ld ld'; cbn [load_files].
  - by intros [= <-].
  - destruct (load_file tsx g ld) as [ld1 [[]|e]] eqn:Hf; [|done].
    intros Hrest Hget. apply (IH ld1 ld' Hrest).
    apply load_file_cases in Hf
      as [(_ & -> & _)|[(_ & -> & _)|(Hs & _ & fn' & _ & _ & ->)]];
      try done.
    cbn [middlewareCache]. rewrite cache_get_set.
    destruct (String.eqb_spec (middleware_name (mf_name g)) name) as [Heq|_];
      [|done].
    by destruct (Hg Hs).
Qed.

(** X17.  Of the script files of the middleware directory that give the
    same name, the one listed last is the one the cache holds under that
    name. *)
Theorem cache_holds_last_file (localeCompare : string -> string -> Z)
    (tsx : bool) (root : string) (pre post : list MiddlewareFile)
    (f : MiddlewareFile) (ld : MiddlewareLoader) :
  loadMiddlewares localeCompare tsx (Some (pre ++ f :: post))
    (new_loader root) = (ld, Ok tt) ->
  is_script f = true ->
  Forall (fun g => is_script g = true ->
                   middleware_name (mf_name g) ≠ middleware_name (mf_name f))
    post ->
  exists fn,
    exported_middleware f = Some fn /\
    Cache.get (middleware_name (mf_name f)) (middlewareCache ld) = Some fn.
Proof.
  unfold loadMiddlewares. cbn [loaded new_loader]. intros Hload Hs Hpost.
  rewrite load_files_app in Hload.
  destruct (load_files tsx pre _) as [ld1 [[]|e]]; [|done].
  cbn [load_files] in Hload.
  destruct (load_file tsx f ld1) as [ld2 [[]|e]] eqn:Hf; [|done].
  destruct (load_files tsx post ld2) as [ld3 [[]|e]] eqn:Hrest; [|done].
  injection Hload as <-. cbn [middlewareCache].
  apply load_file_cases in Hf
    as [(? & _)|[(_ & _ & e & ?)|(_ & _ & fn & Hfn & _ & ->)]];
    [congruence|done|].
  exists fn. split; [done|].
  eapply load_files_keeps; [exact Hpost|exact Hrest|].
  cbn [middlewareCache]. by rewrite cache_get_set, String.eqb_refl.
Qed.

(** [auth.ts] listed after [auth.js] *)
Lemma cache_holds_last_file_witness :
  exists fn,
    exported_middleware (Sample.middleware "auth.ts" 6) = Some fn /\
    Cache.get (middleware_name (mf_name (Sample.middleware "auth.ts" 6)))
      (middlewareCache
         (loadMiddlewares Sample.codeCompare true
            (Some Sample.twin_middlewares) (new_loader "/app")).1) = Some fn.
Proof.
  apply (cache_holds_last_file Sample.codeCompare true "/app"
           [Sample.middleware "auth.js" 5]
           [Sample.middleware "cors._global.js" 3]
           (Sample.middleware "auth.ts" 6)).
  - compute_hyp.
  - reflexivity.
  - repeat constructor. intros _. vm_compute. intros [=].
Defined.

(** ** The first name that is not in the catalog *)

Lemma resolve_requested_first_missing (cache : list (string * JsVal))
    (requested : list string) (acc : list JsVal) (e : Error) :
  resolve_requested cache requested acc = Err e ->
  exists before name after,
    requested = before ++ name :: after /\
    Forall (fun n => is_Some (Cache.get n cache)) before /\
    Cache.get name cache = None /\
    e = MiddlewareNotFound name (Cache.keys cache).
Proof.
  revert acc. induction requested as [|n requested IH]; intros acc; [done|].
  cbn [resolve_requested]. destruct (Cache.get n cache) as [fn|] eqn:Hn.
  - intros (before & name & after & -> & Hall & Hnone & ->)%IH.
    exists (n :: before), name, after. repeat split; try done.
    constructor; [by rewrite Hn|done].
  - intros [= <-]. by exists [], n, requested.
Qed.

(** X18.  When [resolveMiddlewares] fails, its error names the first of
    the requested names, the marker left aside, that is not in the cache. *)
Theorem resolveMiddlewares_first_missing (ld : MiddlewareLoader)
    (names : list string) (e : Error) :
  resolveMiddlewares ld (Some names) = Err e ->
  exists before name after,
    filter (fun n => n ≠ skip_marker) names = before ++ name :: after /\
    Forall (fun n => Cache.has n (middlewareCache ld) = true) before /\
    Cache.has name (middlewareCache ld) = false /\
    e = MiddlewareNotFound name (Cache.keys (middlewareCache ld)).
Proof.
  unfold resolveMiddlewares. destruct names as [|n names]; [done|].
  intros (before & name & after & Hreq & Hall & Hnone & ->)
    %resolve_requested_first_missing.
  exists before, name, after. rewrite <- requested_filter.
  repeat split; try done.
  - eapply Forall_impl; [exact Hall|]. intros k [fn Hk].
    unfold Cache.has. by rewrite Hk.
  - unfold Cache.has. by rewrite Hnone.
Qed.

Lemma resolveMiddlewares_first_missing_witness :
  exists before name after,
    filter (fun n => n ≠ skip_marker)
      ["checkAuth"; "!_global"; "nope"; "nada"] = before ++ name :: after /\
    Forall (fun n => Cache.has n (middlewareCache Sample.loader) = true)
      before /\
    Cache.has name (middlewareCache Sample.loader) = false /\
    MiddlewareNotFound "nope" ["logIP"; "checkAuth"; "cors"; "checkRole"] =
    MiddlewareNotFound name (Cache.keys (middlewareCache Sample.loader)).
Proof.
  apply (resolveMiddlewares_first_missing Sample.loader
           ["checkAuth"; "!_global"; "nope"; "nada"]
           (MiddlewareNotFound "nope"
              ["logIP"; "checkAuth"; "cors"; "checkRole"])).
  compute_hyp.
Defined.

(** ** The stable sort on the elements of a class *)

Section SortOn.
Context {A : Type} (cmp : A -> A -> Z) (P : A -> Prop) (R : A -> A -> Prop).
Hypothesis R_cmp : forall a b, P a -> P b -> (cmp a b <= 0)%Z <-> R a b.
Hypothesis R_total : forall a b, P a -> P b -> R a b \/ R b a.
Hypothesis R_trans :
  forall a b c, P a -> P b -> P c -> R a b -> R b c -> R a c.

Lemma sort_insert_sorted_on (x : A) (l : list A) :
  P x -> Forall P l -> StronglySorted R l ->
  StronglySorted R (sort_insert cmp x l).
Proof.
  intros Hx HP Hs. induction Hs as [|y l Hl IH Hy]; cbn [sort_insert].
  - repeat constructor.
  - apply Forall_cons in HP as [Py HP].
    destruct (Z.leb_spec (cmp x y) 0) as [Hxy|Hxy].
    + constructor; [by constructor|].
      constructor; [by apply R_cmp|].
      rewrite Forall_forall in Hy, HP. apply Forall_forall. intros z Hz.
      apply (R_trans x y z); auto. by apply R_cmp.
    + constructor; [by apply IH|].
      rewrite sort_insert_Permutation. constructor; [|done].
      destruct (R_total x y Hx Py) as [H'|H']; [|done].
      apply R_cmp in H'; [lia|done|done].
Qed.

Lemma sort_by_sorted_on (l : list A) :
  Forall P l -> StronglySorted R (sort_by cmp l).
Proof.
  induction 1 as [|x l Hx HP IH]; cbn [sort_by]; [constructor|].
  apply sort_insert_sorted_on; [done| |done].
  by rewrite sort_by_Permutation.
Qed.

End SortOn.

(** ** The order of the report *)

Lemma method_rank_upper (m : Method) :
  method_rank (method_upper m) =
  match m with
  | GET => 0 | POST => 1 | PUT => 2 | PATCH => 3 | DELETE => 4
  end%Z.
Proof. by destruct m. Qed.

Lemma method_rank_inj (m1 m2 : Method) :
  method_rank (method_upper m1) = method_rank (method_upper m2) ->
  method_upper m1 = method_upper m2.
Proof. rewrite !method_rank_upper. by destruct m1, m2. Qed.

Section ReportOrder.
Variable localeCompare : string -> string -> Z.
Hypothesis compare_total :
  forall a b, (localeCompare a b <= 0 \/ localeCompare b a <= 0)%Z.
Hypothesis compare_trans :
  forall a b c, (localeCompare a b <= 0 -> localeCompare b c <= 0 ->
                 localeCompare a c <= 0)%Z.

Lemma compare_routes_before (a b : RouteInfo) :
  verb_route a -> verb_route b ->
  (compare_routes localeCompare a b <= 0)%Z <-> route_before localeCompare a b.
Proof.
  intros [ma Ha] [mb Hb]. unfold compare_routes, route_before.
  fold (method_rank (ri_method a)). fold (method_rank (ri_method b)).
  destruct (String.eqb_spec (ri_method a) (ri_method b)) as [Heq|Hne];
    cbn [negb].
  - rewrite Heq. split; [by right|]. intros [?|[_ ?]]; [lia|done].
  - split.
    + intros Hle. left.
      destruct (decide (method_rank (ri_method a) =
                        method_rank (ri_method b))) as [Hr|Hr]; [|lia].
      rewrite Ha, Hb in Hr. apply method_rank_inj in Hr. congruence.
    + intros [?|[? _]]; [lia|done].
Qed.

Lemma route_before_total (a b : RouteInfo) :
  verb_route a -> verb_route b ->
  route_before localeCompare a b \/ route_before localeCompare b a.
Proof.
  intros [ma Ha] [mb Hb]. unfold route_before.
  destruct (Z.lt_trichotomy (method_rank (ri_method a))
              (method_rank (ri_method b))) as [?|[Hr|?]];
    [by left; left| |by right; left].
  rewrite Ha, Hb in Hr. apply method_rank_inj in Hr.
  assert (ri_method a = ri_method b) as Heq by congruence.
  destruct (compare_total (ri_path a) (ri_path b)); [left|right]; by right.
Qed.

Lemma route_before_trans (a b c : RouteInfo) :
  route_before localeCompare a b -> route_before localeCompare b c ->
  route_before localeCompare a c.
Proof.
  unfold route_before. intros [?|[Hab ?]] [?|[Hbc ?]].
  - left. lia.
  - left. by rewrite <- Hbc.
  - left. by rewrite Hab.
  - right. split; [congruence|]. by eapply compare_trans.
Qed.

Lemma sort_routes_sorted (rs : list RouteInfo) :
  Forall verb_route rs ->
  StronglySorted (route_before localeCompare)
    (sort_by (compare_routes localeCompare) rs).
Proof.
  apply (sort_by_sorted_on (compare_routes localeCompare) verb_route).
  - apply compare_routes_before.
  - apply route_before_total.
  - intros a b c _ _ _. apply route_before_trans.
Qed.

End ReportOrder.

(** ** The routes the introspection walk collects *)

Section CollectFacts.
Variable opts : Options.
Variable tsx : bool.
Variable root : string.
Variable ld : MiddlewareLoader.

Lemma inspect_file_origin (v : Visit) (st st' : InsState) (r : Result unit) :
  visit_one (inspect_file opts tsx root ld) v st = (st', r) ->
  routes st' = routes st \/
  exists info, routes st' = routes st ++ [info] /\ from_visit opts root v info.
Proof.
  assert (forall m ext s s' r',
            methodMatch (v_name v) = Some (m, ext) ->
            inspect_load tsx root ld m ext
              (routePath_of (Str.stripTrailingSlashes (prefix opts))
                 (v_prefixPath v))
              (Str.path_join (v_dir v) (v_name v)) (v_content v) s = (s', r') ->
            routes s' = routes s \/
            exists info,
              routes s' = routes s ++ [info] /\ from_visit opts root v info)
    as Hload.
  { intros m ext s s' r' Hm. unfold inspect_load.
    destruct (importModule _ _ _) as [hm|e]; [|intros [= <- _]; by left].
    destruct (js_or (rm_middlewares hm) (JArr [])) eqn:Hmw;
      try (intros [= <- _]; by left).
    destruct (resolveMiddlewares ld (Some elems)) as [chain|e];
      [|intros [= <- _]; by left].
    intros [= <- _]. right. eexists. split; [done|].
    by exists m, ext. }
  unfold visit_one, inspect_file, inspect_record.
  destruct (methodMatch (v_name v)) as [[m ext]|] eqn:Hm;
    [|intros [= <- _]; by left].
  destruct (extension_clash _ _ _); [intros [= <- _]; by left|].
  destruct (i_routeRegistry st !! _) as [prev|].
  - destruct (strict opts); [intros [= <- _]; by left|].
    intros H. by apply (Hload m ext) in H.
  - intros H. by apply (Hload m ext) in H.
Qed.

Lemma run_inspect_origin (vs : list Visit) (st st' : InsState)
    (r : Result unit) :
  run (inspect_file opts tsx root ld) vs st = (st', r) ->
  exists new,
    routes st' = routes st ++ new /\
    Forall (fun info => exists v, v ∈ vs /\ from_visit opts root v info) new.
Proof.
  revert st. induction vs as [|v vs IH]; intros st; cbn [run].
  - intros [= <- _]. exists []. by rewrite app_nil_r.
  - destruct (visit_one _ v st) as [st1 r1] eqn:Hv.
    apply inspect_file_origin in Hv.
    assert (exists new1, routes st1 = routes st ++ new1 /\
              Forall (fun info => exists v0, v0 ∈ v :: vs /\
                                             from_visit opts root v0 info) new1)
      as (new1 & H1 & Hf1).
    { destruct Hv as [->|(info & -> & Hinfo)].
      - exists []. by rewrite app_nil_r.
      - exists [info]. split; [done|]. repeat constructor.
        exists v. split; [apply list_elem_of_here|done]. }
    destruct r1 as [[]|e].
    + intros (new2 & -> & Hf2)%IH. exists (new1 ++ new2).
      rewrite H1, app_assoc. split; [done|]. apply Forall_app. split; [done|].
      eapply Forall_impl; [exact Hf2|]. intros info (v0 & Hin & Hfrom).
      exists v0. split; [by apply list_elem_of_further|done].
    + intros [= <- _]. by exists new1.
Qed.

End CollectFacts.

(** *** Paths *)

Lemma split_nonempty (s : string) : Str.split s <> [].
Proof.
  destruct s as [|c s]; [done|]. cbn [Str.split].
  destruct (Str.is_slash c); [done|]. by destruct (Str.split s).
Qed.

Lemma split_segment (s : string) :
  all_chars (fun c => negb (Str.is_slash c)) s = true -> Str.split s = [s].
Proof.
  induction s as [|c s IH]; [done|]. cbn [all_chars].
  intros [Hc Hs]%andb_true_iff. apply negb_true_iff in Hc.
  cbn [Str.split]. by rewrite Hc, IH.
Qed.

Lemma split_append (a b : string) :
  Str.split (a +:+ "/" +:+ b) = Str.split a ++ Str.split b.
Proof.
  induction a as [|c a IH]; [done|].
  rewrite (append_cons c a). cbn [Str.split]. rewrite IH.
  destruct (Str.is_slash c); [done|].
  pose proof (split_nonempty a). by destruct (Str.split a).
Qed.

Lemma split_no_slash (s : string) :
  Forall (fun seg => all_chars (fun c => negb (Str.is_slash c)) seg = true)
    (Str.split s).
Proof.
  induction s as [|c s IH]; [by repeat constructor|].
  cbn [Str.split]. destruct (Str.is_slash c) eqn:Hc; [by constructor|].
  destruct (Str.split s) as [|seg rest];
    [constructor; [cbn [all_chars]; by rewrite Hc|constructor]|].
  apply Forall_cons in IH as [Hseg Hrest].
  constructor; [|done]. cbn [all_chars]. by rewrite Hc, Hseg.
Qed.

Lemma join_concat_segments (x : string) (segs : list string) :
  Str.join "/" (x :: segs) = x +:+ concat_segments segs.
Proof.
  revert x. induction segs as [|y segs IH]; intros x.
  - by rewrite append_nil_r.
  - change (Str.join "/" (x :: y :: segs))
      with (x +:+ "/" +:+ Str.join "/" (y :: segs)).
    by rewrite IH.
Qed.

Lemma concat_segments_app (a b : list string) :
  concat_segments (a ++ b) = concat_segments a +:+ concat_segments b.
Proof.
  induction a as [|x a IH]; [done|]. cbn [app concat_segments].
  rewrite <- app_comm_cons. cbn [concat_segments].
  by rewrite IH, !append_assoc.
Qed.

Lemma join_split (s : string) : Str.join "/" (Str.split s) = s.
Proof.
  induction s as [|c s IH]; [done|]. cbn [Str.split].
  pose proof (split_nonempty s) as Hne.
  destruct (Str.is_slash c) eqn:Hc.
  - apply Ascii.eqb_eq in Hc. subst c.
    destruct (Str.split s) as [|x rest]; [done|].
    change (Str.join "/" (EmptyString :: x :: rest))
      with (String "/" (Str.join "/" (x :: rest))).
    by rewrite IH.
  - destruct (Str.split s) as [|x rest]; [done|].
    rewrite join_concat_segments in *. rewrite append_cons. by rewrite IH.
Qed.

Lemma segment_parts (s : string) :
  is_segment s = true ->
  s <> EmptyString /\ String.eqb s EmptyString = false /\
  String.eqb s "." = false /\ String.eqb s ".." = false /\
  all_chars (fun c => negb (Str.is_slash c)) s = true.
Proof.
  unfold is_segment.
  intros [[[H1 H2]%andb_true_iff H3]%andb_true_iff H4]%andb_true_iff.
  apply negb_true_iff in H1, H2, H3. repeat split; try done.
  intros ->. done.
Qed.

Lemma split_segments (m : string) (more : list string) :
  is_segment m = true ->
  Forall (fun seg => is_segment seg = true) more ->
  Str.split (m +:+ concat_segments more) = m :: more.
Proof.
  intros Hm Hmore. revert m Hm.
  induction Hmore as [|m' more Hm' _ IH]; intros m Hm.
  - rewrite append_nil_r. apply split_segment.
    by apply segment_parts in Hm as (_ & _ & _ & _ & ?).
  - cbn [concat_segments]. rewrite split_append, (IH m' Hm').
    rewrite split_segment; [done|].
    by apply segment_parts in Hm as (_ & _ & _ & _ & ?).
Qed.

Lemma normalize_step_segment (stack : list string) (seg : string) :
  is_segment seg = true -> Str.normalize_step stack seg = stack ++ [seg].
Proof.
  intros (_ & H1 & H2 & H3 & _)%segment_parts.
  unfold Str.normalize_step. by rewrite H1, H2, H3.
Qed.

Lemma normalize_segments (segs stack : list string) :
  Forall (fun seg => is_segment seg = true) segs ->
  fold_left Str.normalize_step segs stack = stack ++ segs.
Proof.
  intros H. revert stack. induction H as [|seg segs Hseg _ IH]; intros stack.
  - by rewrite app_nil_r.
  - cbn [fold_left]. rewrite normalize_step_segment by done.
    by rewrite IH, <- app_assoc.
Qed.

(** What the normalisation keeps are names of directory entries. *)
Lemma normalize_keeps_segments (segs : list string) :
  Forall (fun seg => all_chars (fun c => negb (Str.is_slash c)) seg = true)
    segs ->
  forall stack,
    Forall (fun seg => is_segment seg = true) stack ->
    Forall (fun seg => is_segment seg = true)
      (fold_left Str.normalize_step segs stack).
Proof.
  induction 1 as [|seg segs Hseg _ IH]; intros stack Hstack; [done|].
  cbn [fold_left]. apply IH. unfold Str.normalize_step.
  destruct (String.eqb seg EmptyString) eqn:H1; [done|].
  destruct (String.eqb seg ".") eqn:H2; [done|]. cbn [orb].
  destruct (String.eqb seg "..") eqn:H3.
  - clear -Hstack. induction Hstack as [|x l Hx Hl IHl]; [done|].
    cbn [removelast]. destruct l; [constructor|by constructor].
  - apply Forall_app. split; [done|]. repeat constructor.
    unfold is_segment. by rewrite H1, H2, H3, Hseg.
Qed.

Lemma strip_common_prefix (a b : list string) :
  Str.strip_common a (a ++ b) = ([], b).
Proof.
  induction a as [|x a IH]; [by destruct b|].
  rewrite <- app_comm_cons. cbn [Str.strip_common].
  by rewrite String.eqb_refl.
Qed.

Lemma forallb_true {A : Type} (f : A -> bool) (l : list A) :
  forallb f l = true -> Forall (fun x => f x = true) l.
Proof.
  induction l as [|x l IH]; [constructor|]. cbn [forallb].
  intros [Hx Hl]%andb_true_iff. constructor; auto.
Qed.

(** The base directory of a routes directory given as a plain relative
    path, and the path, from the project root, of what lies under it *)
Lemma resolve_src_plain (root routesDir : string) :
  plain_relative routesDir = true ->
  exists base,
    base <> [] /\
    Forall (fun seg => is_segment seg = true) base /\
    Str.resolve_src root routesDir = "/" +:+ Str.join "/" base /\
    forall more,
      more <> [] ->
      Forall (fun seg => is_segment seg = true) more ->
      Str.relative root
        (Str.resolve_src root routesDir +:+ concat_segments more) =
      "src/" +:+ routesDir +:+ concat_segments more.
Proof.
  intros Hd. unfold plain_relative in Hd. apply forallb_true in Hd.
  assert (Str.startsWith "/" routesDir = false) as Hrel.
  { destruct routesDir as [|c r]; [done|]. cbn [Str.startsWith].
    rewrite andb_true_r. destruct (Ascii.eqb_spec "/" c) as [<-|]; [|done].
    cbn [Str.split] in Hd. change (Str.is_slash "/") with true in Hd.
    by apply Forall_cons in Hd as [? _]. }
  set (rsegs := Str.normalize (Str.split root)).
  assert (Forall (fun seg => is_segment seg = true) rsegs) as Hr.
  { apply normalize_keeps_segments; [apply split_no_slash|constructor]. }
  assert (Str.normalize (Str.split (root +:+ "/src/" +:+ routesDir)) =
          rsegs ++ "src" :: Str.split routesDir) as Hbase.
  { change (root +:+ "/src/" +:+ routesDir)
      with (root +:+ "/" +:+ ("src" +:+ "/" +:+ routesDir)).
    rewrite !split_append. unfold Str.normalize.
    rewrite fold_left_app. fold (Str.normalize (Str.split root)).
    fold rsegs. apply normalize_segments.
    by constructor. }
  exists (rsegs ++ "src" :: Str.split routesDir).
  assert (Forall (fun seg => is_segment seg = true)
            (rsegs ++ "src" :: Str.split routesDir)) as Hall.
  { apply Forall_app. split; [done|]. by constructor. }
  split; [by destruct rsegs|]. split; [done|].
  assert (Str.resolve_src root routesDir =
          "/" +:+ Str.join "/" (rsegs ++ "src" :: Str.split routesDir))
    as Hres.
  { unfold Str.resolve_src. by rewrite Hrel, Hbase. }
  split; [done|]. intros more Hne Hmore.
  rewrite Hres. unfold Str.relative. fold rsegs.
  assert (Str.normalize
            (Str.split
               (("/" +:+
                 Str.join "/" (rsegs ++ "src" :: Str.split routesDir)) +:+
                concat_segments more)) =
          rsegs ++ ("src" :: Str.split routesDir) ++ more) as ->.
  { destruct (rsegs ++ "src" :: Str.split routesDir) as [|b0 base] eqn:Hb;
      [by destruct rsegs|].
    rewrite join_concat_segments, !append_assoc.
    rewrite <- concat_segments_app.
    change ("/" +:+ ?x) with (EmptyString +:+ "/" +:+ x).
    rewrite split_append. apply Forall_cons in Hall as [Hb0 Hbase'].
    rewrite split_segments; [|done|by apply Forall_app].
    unfold Str.normalize. rewrite fold_left_app.
    change (fold_left Str.normalize_step (Str.split EmptyString) [])
      with (@nil string).
    rewrite normalize_segments
      by (constructor; [done|by apply Forall_app]).
    rewrite app_nil_l, app_comm_cons, <- Hb. by rewrite <- app_assoc. }
  rewrite strip_common_prefix. cbn [map].
  rewrite app_nil_l, <- app_comm_cons.
  rewrite join_concat_segments, concat_segments_app.
  pose proof (split_nonempty routesDir) as Hsplit.
  rewrite <- (join_split routesDir) at 2.
  destruct (Str.split routesDir) as [|d0 ds]; [done|].
  rewrite join_concat_segments. cbn [concat_segments].
  by rewrite !append_assoc.
Qed.

Lemma below_not_root (dir name : string) :
  name <> EmptyString -> String.eqb (dir +:+ "/" +:+ name) "/" = false.
Proof.
  intros Hne. destruct name as [|c name]; [done|].
  destruct dir as [|d dir]; [done|].
  rewrite (append_cons d dir). cbn [String.eqb].
  destruct dir as [|d' dir].
  - change (EmptyString +:+ "/" +:+ String c name)
      with (String "/" (String c name)).
    cbn [String.eqb]. by destruct (Ascii.eqb d "/").
  - rewrite (append_cons d' dir). cbn [String.eqb].
    by destruct (Ascii.eqb d "/").
Qed.

(** The walk keeps the directory and the prefix path in step: both grow by
    the names of the folders gone through. *)
Lemma visits_item_paths (item : Item) :
  forall currentDir prefixPath v,
    String.eqb currentDir "/" = false ->
    entry_names item = true ->
    v ∈ visits_item currentDir prefixPath item ->
    exists dirs,
      Forall (fun seg => is_segment seg = true) dirs /\
      is_segment (v_name v) = true /\
      v_dir v = currentDir +:+ concat_segments dirs /\
      v_prefixPath v = prefixPath +:+ concat_segments dirs.
Proof.
  induction item as [name content|name items IH] using Item_rect';
    intros currentDir prefixPath v Hroot Hnames.
  - cbn [visits_item]. intros ->%list_elem_of_singleton.
    exists []. cbn [concat_segments]. by rewrite !append_nil_r.
  - rewrite visits_item_dir.
    cbn [entry_names] in Hnames.
    apply andb_true_iff in Hnames as [Hname Hitems].
    assert (Str.path_join currentDir name = currentDir +:+ "/" +:+ name)
      as Hjoin by (unfold Str.path_join; by rewrite Hroot).
    assert (String.eqb (Str.path_join currentDir name) "/" = false) as Hnext.
    { rewrite Hjoin. apply segment_parts in Hname as (Hne & _).
      by apply below_not_root. }
    induction IH as [|it items Hit _ IHitems]; cbn [visits].
    + by intros ?%elem_of_nil.
    + cbn [forallb] in Hitems. apply andb_true_iff in Hitems as [Hi Hrest].
      intros [Hin|Hin]%elem_of_app; [|by apply IHitems].
      apply (Hit _ _ _ Hnext Hi) in Hin as (dirs & Hdirs & Hn & Hd & Hp).
      exists (name :: dirs). split; [by constructor|]. split; [done|].
      cbn [concat_segments].
      rewrite Hd, Hp, Hjoin. by rewrite !append_assoc.
Qed.

Lemma visits_paths (items : list Item) (currentDir prefixPath : string)
    (v : Visit) :
  String.eqb currentDir "/" = false ->
  forallb entry_names items = true ->
  v ∈ visits currentDir prefixPath items ->
  exists dirs,
    Forall (fun seg => is_segment seg = true) dirs /\
    is_segment (v_name v) = true /\
    v_dir v = currentDir +:+ concat_segments dirs /\
    v_prefixPath v = prefixPath +:+ concat_segments dirs.
Proof.
  intros Hroot. induction items as [|it items IH]; cbn [visits forallb].
  - by intros _ ?%elem_of_nil.
  - intros [Hi Hrest]%andb_true_iff [Hin|Hin]%elem_of_app; [|by apply IH].
    by eapply visits_item_paths.
Qed.

(** X19.  Every route of the report comes from a method file of the tree:
    it has the method of the file in upper case, its path, its kind of
    source, and as file the path of the file relative to the project root;
    and when the routes directory is given as a plain relative path and the
    entries of the tree are named as directory entries are, that relative
    path is [src], the routes directory, the folders and the name. *)
Theorem report_routes_origin (localeCompare : string -> string -> Z)
    (env : Env) (routesDir : string) (opts : Options) (items : list Item)
    (printed : list Error) (report : Report) (info : RouteInfo) :
  routesListing env = Some items ->
  inspectRoutes localeCompare env routesDir opts = (printed, Ok report) ->
  info ∈ rep_routes report ->
  exists v m ext,
    v ∈ visits (baseDir_of env routesDir) EmptyString items /\
    methodMatch (v_name v) = Some (m, ext) /\
    ri_method info = method_upper m /\
    ri_path info =
      routePath_of (Str.stripTrailingSlashes (prefix opts)) (v_prefixPath v) /\
    ri_file info = relative (projectRoot env) (v_fullPath v) /\
    ri_fileType info =
      (if String.eqb ext "ts" then "TypeScript" else "JavaScript") /\
    (plain_relative routesDir = true ->
     forallb entry_names items = true ->
     ri_file info =
       "src/" +:+ routesDir +:+ v_prefixPath v +:+ "/" +:+ v_name v).
Proof.
  unfold inspectRoutes, inspect_walk. intros -> Hins Hinfo.
  destruct (loadMiddlewares _ _ _ _) as [ld [[]|e]]; [|by simplify_eq].
  rewrite walk_run in Hins.
  destruct (run _ _ _) as [st [[]|e]] eqn:Hrun; [|by simplify_eq].
  destruct (getAvailableMiddlewares ld) as [globals available].
  injection Hins as _ <-. cbn [rep_routes] in Hinfo.
  rewrite sort_by_Permutation in Hinfo.
  apply run_inspect_origin in Hrun as (new & Hnew & Hall).
  cbn [routes app] in Hnew. rewrite Hnew in Hinfo.
  rewrite Forall_forall in Hall.
  destruct (Hall _ Hinfo) as (v & Hv & m & ext & Hm & H1 & H2 & H3 & H4).
  exists v, m, ext. repeat split; try done.
  intros Hplain Hnames. rewrite H3. unfold relative, baseDir_of in *.
  destruct (resolve_src_plain (projectRoot env) routesDir Hplain)
    as (base & Hne & Hbase & Hres & Hrel).
  assert (String.eqb (Str.resolve_src (projectRoot env) routesDir) "/"
          = false) as Hroot.
  { rewrite Hres. destruct base as [|b0 base]; [done|].
    pose proof Hbase as [(Hb0 & _)%segment_parts _]%Forall_cons.
    rewrite join_concat_segments. by destruct b0. }
  apply (visits_paths _ _ _ _ Hroot Hnames) in Hv
    as (dirs & Hdirs & Hname & Hd & Hp).
  change (EmptyString +:+ ?x) with x in Hp.
  assert (String.eqb (v_dir v) "/" = false) as Hdir.
  { rewrite Hd, Hres. destruct base as [|b0 base]; [done|].
    pose proof Hbase as [(Hb0 & _)%segment_parts _]%Forall_cons.
    rewrite join_concat_segments. by destruct b0. }
  unfold v_fullPath, Str.path_join. rewrite Hdir, Hd, Hp.
  specialize (Hrel (dirs ++ [v_name v])).
  rewrite concat_segments_app in Hrel. cbn [concat_segments] in Hrel.
  rewrite !append_nil_r in Hrel. rewrite !append_assoc.
  apply Hrel; [by destruct dirs|].
  apply Forall_app. split; [done|]. by repeat constructor.
Qed.

Lemma report_routes_origin_witness :
  exists v m ext,
    v ∈ visits (baseDir_of (Sample.env_of Sample.product_tree) "routes")
          EmptyString Sample.product_tree /\
    methodMatch (v_name v) = Some (m, ext) /\
    ri_file Sample.by_id_info =
      "src/" +:+ "routes" +:+ v_prefixPath v +:+ "/" +:+ v_name v.
Proof.
  assert (exists report,
            inspectRoutes Sample.codeCompare
              (Sample.env_of Sample.product_tree) "routes" Sample.api_options
              = ([], Ok report) /\
            Sample.by_id_info ∈ rep_routes report) as (report & Hins & Hin).
  { eexists. split; [vm_compute; reflexivity|]. vm_compute. pick. }
  destruct (report_routes_origin Sample.codeCompare
              (Sample.env_of Sample.product_tree) "routes" Sample.api_options
              Sample.product_tree [] report Sample.by_id_info)
    as (v & m & ext & Hv & Hm & _ & _ & _ & _ & Hfile);
    [reflexivity|exact Hins|exact Hin|].
  exists v, m, ext. split; [exact Hv|]. split; [exact Hm|].
  apply Hfile; reflexivity.
Defined.

(** X20.  With a consistent comparison of strings, the routes of the
    report are ordered by the rank of their method, GET, POST, PUT, PATCH,
    DELETE, then by path. *)
Theorem report_routes_sorted (localeCompare : string -> string -> Z)
    (env : Env) (routesDir : string) (opts : Options)
    (printed : list Error) (report : Report) :
  (forall a b, (localeCompare a b <= 0 \/ localeCompare b a <= 0)%Z) ->
  (forall a b c, (localeCompare a b <= 0 -> localeCompare b c <= 0 ->
                  localeCompare a c <= 0)%Z) ->
  inspectRoutes localeCompare env routesDir opts = (printed, Ok report) ->
  StronglySorted (route_before localeCompare) (rep_routes report).
Proof.
  unfold inspectRoutes, inspect_walk. intros Htotal Htrans Hins.
  destruct (routesListing env) as [items|]; [|done].
  destruct (loadMiddlewares _ _ _ _) as [ld [[]|e]]; [|by simplify_eq].
  rewrite walk_run in Hins.
  destruct (run _ _ _) as [st [[]|e]] eqn:Hrun; [|by simplify_eq].
  destruct (getAvailableMiddlewares ld) as [globals available].
  injection Hins as _ <-. cbn [rep_routes].
  apply sort_routes_sorted; [done|done|].
  apply run_inspect_origin in Hrun as (new & Hnew & Hall).
  cbn [routes app] in Hnew. rewrite Hnew.
  eapply Forall_impl; [exact Hall|].
  intros info (v & _ & m & ext & _ & Hm & _). by exists m.
Qed.

Lemma report_routes_sorted_witness :
  exists report,
    inspectRoutes Sample.codeCompare (Sample.env_of Sample.product_tree)
      "routes" Sample.api_options = ([], Ok report) /\
    StronglySorted (route_before Sample.codeCompare) (rep_routes report).
Proof.
  eexists. split; [vm_compute; reflexivity|].
  apply (report_routes_sorted Sample.codeCompare
           (Sample.env_of Sample.product_tree) "routes" Sample.api_options []);
    [exact codeCompare_total|exact codeCompare_trans|compute_hyp].
Defined.

(** ** The summary of the report *)

Lemma count_by_method_fold (rs : list RouteInfo) (k : string) :
  forall acc : gmap string nat,
    fold_left
      (fun acc route =>
         <[ri_method route := (default 0 (acc !! ri_method route) + 1)%nat]> acc)
      rs acc !! k =
    match length (with_method k rs) with
    | O => acc !! k
    | S n => Some (default 0 (acc !! k) + S n)
    end.
Proof.
  induction rs as [|r rs IH]; intros acc; [done|].
  cbn [fold_left with_method List.filter]. rewrite IH.
  fold (with_method k rs).
  destruct (String.eqb_spec (ri_method r) k) as [->|Hne].
  - rewrite lookup_insert_eq. cbn [length default from_option id].
    destruct (length (with_method k rs)); f_equal; simpl; lia.
  - by rewrite lookup_insert_ne.
Qed.

Lemma with_method_elem (k : string) (rs : list RouteInfo) :
  with_method k rs <> [] -> exists info, info ∈ rs /\ ri_method info = k.
Proof.
  unfold with_method. destruct (List.filter _ rs) as [|info l] eqn:Hf; [done|].
  intros _.
  assert (In info
            (List.filter (fun ri => String.eqb (ri_method ri) k) rs))
    as [Hin Hk]%filter_In by (rewrite Hf; by left).
  exists info. split; [by apply list_elem_of_In|by apply String.eqb_eq].
Qed.

(** X21.  The summary of the report counts its routes: the total is their
    number, and [byMethod] has an entry exactly for the methods that have
    routes, each one of the five verbs in upper case, with the number of
    their routes. *)
Theorem report_summary (localeCompare : string -> string -> Z)
    (env : Env) (routesDir : string) (opts : Options)
    (printed : list Error) (report : Report) :
  inspectRoutes localeCompare env routesDir opts = (printed, Ok report) ->
  rep_totalRoutes report = length (rep_routes report) /\
  (forall k,
     rep_byMethod report !! k =
     match length (with_method k (rep_routes report)) with
     | O => None
     | n => Some n
     end) /\
  (forall k n, rep_byMethod report !! k = Some n -> k ∈ methodOrder).
Proof.
  unfold inspectRoutes, inspect_walk. intros Hins.
  destruct (routesListing env) as [items|]; [|done].
  destruct (loadMiddlewares _ _ _ _) as [ld [[]|e]]; [|by simplify_eq].
  rewrite walk_run in Hins.
  destruct (run _ _ _) as [st [[]|e]] eqn:Hrun; [|by simplify_eq].
  destruct (getAvailableMiddlewares ld) as [globals available].
  injection Hins as _ <-. cbn [rep_totalRoutes rep_routes rep_byMethod].
  assert (forall k,
            count_by_method (sort_by (compare_routes localeCompare) (routes st))
              !! k =
            match length (with_method k
                    (sort_by (compare_routes localeCompare) (routes st))) with
            | O => None
            | n => Some n
            end) as Hcount.
  { intros k. unfold count_by_method. rewrite count_by_method_fold.
    by destruct (length _). }
  split; [done|]. split; [done|]. intros k n. rewrite Hcount.
  destruct (with_method k _) as [|info l] eqn:Hw; [done|]. intros _.
  destruct (with_method_elem k
              (sort_by (compare_routes localeCompare) (routes st)))
    as (info' & Hin & <-); [by rewrite Hw|].
  rewrite sort_by_Permutation in Hin.
  apply run_inspect_origin in Hrun as (new & Hnew & Hall).
  cbn [routes app] in Hnew. rewrite Hnew in Hin.
  rewrite Forall_forall in Hall.
  destruct (Hall _ Hin) as (v & _ & m & ext & _ & -> & _).
  destruct m; vm_compute; pick.
Qed.

Lemma report_summary_witness :
  exists report,
    inspectRoutes Sample.codeCompare (Sample.env_of Sample.product_tree)
      "routes" Sample.api_options = ([], Ok report) /\
    rep_totalRoutes report = length (rep_routes report) /\
    rep_byMethod report !! "GET" = Some 2 /\
    rep_byMethod report !! "POST" = None.
Proof.
  eexists. split; [vm_compute; reflexivity|].
  match goal with
  | |- rep_totalRoutes ?r = _ /\ _ =>
      destruct (report_summary Sample.codeCompare
                  (Sample.env_of Sample.product_tree) "routes"
                  Sample.api_options [] r) as (Ht & Hby & _); [compute_hyp|]
  end.
  split; [exact Ht|].
  split; (etrans; [apply Hby|vm_compute; reflexivity]).
Defined.

(** ** The names of the report and the chain of the host *)

Lemma resolve_requested_ok (cache : list (string * JsVal))
    (requested : list string) (acc chain : list JsVal) :
  resolve_requested cache requested acc = Ok chain ->
  exists fns,
    chain = acc ++ fns /\
    Forall2 (fun name fn => Cache.get name cache = Some fn) requested fns.
Proof.
  revert acc. induction requested as [|n requested IH]; intros acc;
    cbn [resolve_requested].
  - intros [= <-]. exists []. by rewrite app_nil_r.
  - destruct (Cache.get n cache) as [fn|] eqn:Hn; [|done].
    intros (fns & -> & Hall)%IH. exists (fn :: fns).
    rewrite <- app_assoc. split; [done|]. by constructor.
Qed.

Lemma resolveMiddlewares_names (ld : MiddlewareLoader) (names : list string)
    (chain : list JsVal) :
  resolveMiddlewares ld (Some names) = Ok chain ->
  Forall2 (names_middleware ld)
    ((if existsb (String.eqb skip_marker) names then []
      else map (fun mw => {| mn_name := mw_name mw; mn_type := "global" |})
             (globalMiddlewares ld)) ++
     map (fun name => {| mn_name := name; mn_type := "route" |})
       (List.filter (fun name => negb (String.eqb name skip_marker)) names))
    chain.
Proof.
  assert (Forall2 (names_middleware ld)
            (map (fun mw => {| mn_name := mw_name mw; mn_type := "global" |})
               (globalMiddlewares ld))
            (map mw_fn (globalMiddlewares ld))) as Hglobals.
  { apply Forall2_fmap, Forall_Forall2_diag, Forall_forall.
    intros [n fn] Hg. left. by split. }
  unfold resolveMiddlewares. destruct names as [|n names].
  - intros [= <-]. cbn [existsb List.filter map]. by rewrite app_nil_r.
  - intros (fns & -> & Hall)%resolve_requested_ok.
    apply Forall2_app.
    + destruct (existsb _ _); [constructor|exact Hglobals].
    + apply Forall2_fmap_l. eapply Forall2_impl; [exact Hall|].
      intros name fn Hget. right. by split.
Qed.

(** X22.  For a module both entry points load, the middlewares the report
    lists for its route are, position by position, the names of the chain
    the host receives: a name of type [global] is that of the global
    middleware passed at that position, a name of type [route] is the key
    the middleware at that position is stored under. *)
Theorem reported_names_match_chain (tsx : bool) (root : string)
    (ld : MiddlewareLoader) (method : Method)
    (fileExt routePath fullPath : string) (content : Import RouteModule)
    (sr sr' : RegState) (si si' : InsState) :
  register_load tsx ld method routePath fullPath content sr = (sr', Ok tt) ->
  inspect_load tsx root ld method fileExt routePath fullPath content si
    = (si', Ok tt) ->
  exists call info,
    app sr' = app sr ++ [call] /\
    routes si' = routes si ++ [info] /\
    Forall2 (names_middleware ld) (ri_middlewares info) (rc_middlewares call).
Proof.
  unfold register_load, inspect_load.
  destruct (importModule tsx fullPath content) as [hm|e]; [|done].
  destruct (js_or (rm_middlewares hm) (JArr [])) eqn:Hmw; try done.
  destruct (resolveMiddlewares ld (Some elems)) as [chain|e] eqn:Hres;
    [|done].
  intros [= <-] [= <-]. eexists _, _. split; [done|]. split; [done|].
  cbn [ri_middlewares rc_middlewares].
  by apply resolveMiddlewares_names.
Qed.

(** A module that declares [checkAuth], with the globals [cors] and
    [logIP] *)
Lemma reported_names_match_chain_witness :
  let sr' :=
    (register_load true Sample.loader GET "/admin"
       "/app/src/routes/admin/GET.js" Sample.guarded (fresh [])).1 in
  let si' :=
    (inspect_load true "/app" Sample.loader GET "js" "/admin"
       "/app/src/routes/admin/GET.js" Sample.guarded
       Sample.empty_inspection).1 in
  exists call info,
    app sr' = app (fresh []) ++ [call] /\
    routes si' = routes Sample.empty_inspection ++ [info] /\
    Forall2 (names_middleware Sample.loader) (ri_middlewares info)
      (rc_middlewares call).
Proof.
  intros sr' si'.
  apply (reported_names_match_chain true "/app" Sample.loader GET "js"
           "/admin" "/app/src/routes/admin/GET.js" Sample.guarded
           (fresh []) sr' Sample.empty_inspection si'); compute_hyp.
Defined.
